(** * Internship-application automation: a shallow embedding and its properties

    The development follows the Python sources of the script variants:
    - [Otomasyon - Static/staj_basvuru_automator.py] (module [Static]),
    - [Otomasyon/src/data_processor.py] (module [DataProcessor]),
    - [Otomasyon - LLM/src/llm_manager.py] (module [LLMManager]),
    - [Otomasyon - LLM/src/email_sender.py] (module [EmailSender]),
    - [Otomasyon/src/main.py] (module [InternshipAutomation]).

    Python values are modelled as follows.  A [str] is the list of its Unicode
    code points; an [int] that can be negative is a [Z], a counter is a [nat];
    a [dict] is a finite map; an exception is a constructor of [exn]; code that
    can raise lives in [result] or in the state-and-exception monad [M] of the
    batch loop. *)

From Stdlib Require Import ZArith NArith List String Ascii Lia Bool.
From stdpp Require Import gmap strings list.

(** ** Python strings *)

Module Py.

Abbreviation char := N (only parsing).
Abbreviation str := (list N) (only parsing).

(** Reading of a source-code literal: the UTF-8 bytes of a Rocq string are
    decoded into code points. *)
Fixpoint utf8_decode (bs : list N) (need : nat) (acc : N) : str :=
  match bs with
  | [] => []
  | b :: bs' =>
      match need with
      | O =>
          if (b <? 128)%N then b :: utf8_decode bs' 0 0%N
          else if (b <? 224)%N then utf8_decode bs' 1 (N.land b 31)
          else if (b <? 240)%N then utf8_decode bs' 2 (N.land b 15)
          else utf8_decode bs' 3 (N.land b 7)
      | S O => (acc * 64 + N.land b 63)%N :: utf8_decode bs' 0 0%N
      | S k => utf8_decode bs' k (acc * 64 + N.land b 63)%N
      end
  end.

Definition u (s : string) : str :=
  utf8_decode (map N_of_ascii (list_ascii_of_string s)) 0 0%N.

Abbreviation NL := 10%N (only parsing).

(** [str.isspace] on one code point (CPython's [_PyUnicode_IsWhitespace]);
    the regular-expression class [\s] of a [str] pattern is the same set. *)
Definition isspace (c : char) : bool :=
  ((9 <=? c) && (c <=? 13) || (28 <=? c) && (c <=? 32)
   || (c =? 133) || (c =? 160) || (c =? 5760)
   || (8192 <=? c) && (c <=? 8202)
   || (c =? 8232) || (c =? 8233) || (c =? 8239) || (c =? 8287)
   || (c =? 12288))%N.

Fixpoint lstrip (s : str) : str :=
  match s with
  | [] => []
  | c :: t => if isspace c then lstrip t else s
  end.

Definition rstrip (s : str) : str := rev (lstrip (rev s)).

(** [s.strip()] *)
Definition strip (s : str) : str := rstrip (lstrip s).

(** [s.startswith(p)] *)
Fixpoint startswith (p s : str) : bool :=
  match p, s with
  | [], _ => true
  | _ :: _, [] => false
  | a :: p', b :: s' => (a =? b)%N && startswith p' s'
  end.

(** [sub in s] *)
Fixpoint contains (sub s : str) : bool :=
  startswith sub s ||
  match s with
  | [] => false
  | _ :: t => contains sub t
  end.

(** [s.split(sep)] for a one-character separator. *)
Fixpoint split (sep : char) (s : str) : list str :=
  match s with
  | [] => [[]]
  | c :: t =>
      if (c =? sep)%N then [] :: split sep t
      else match split sep t with
           | l :: ls => (c :: l) :: ls
           | [] => [[c]]
           end
  end.

(** [sep.join(parts)] *)
Fixpoint join (sep : str) (parts : list str) : str :=
  match parts with
  | [] => []
  | [p] => p
  | p :: rest => p ++ sep ++ join sep rest
  end.

(** [s.replace(old, new)] for a non-empty [old]: leftmost occurrences,
    left to right, without overlap.  [skip] counts the characters of an
    occurrence that are still to be passed over. *)
Fixpoint replace_from (old new : str) (skip : nat) (s : str) : str :=
  match s with
  | [] => []
  | c :: t =>
      match skip with
      | S k => replace_from old new k t
      | O =>
          if startswith old s
          then new ++ replace_from old new (length old - 1) t
          else c :: replace_from old new 0 t
      end
  end.

(** [s.replace(old, new)]; an empty [old] matches before every character
    and at the end. *)
Definition replace (old new s : str) : str :=
  match old with
  | [] => new ++ flat_map (fun c => c :: new) s
  | _ :: _ => replace_from old new 0 s
  end.

(** [str.lower] is a table of the Unicode database.  The definitions below
    take it as a parameter [lower : str -> str]; [lower_latin] is that table
    on Basic Latin, Latin-1 Supplement and the Turkish capitals, the
    identity elsewhere, and is what the examples run with. *)
Definition lower_char (c : char) : str :=
  if ((65 <=? c) && (c <=? 90))%N then [(c + 32)%N]
  else if ((192 <=? c) && (c <=? 222) && negb (c =? 215))%N then [(c + 32)%N]
  else if (c =? 286)%N then [287%N]
  else if (c =? 304)%N then [105%N; 775%N]
  else if (c =? 350)%N then [351%N]
  else [c].

Definition lower_latin (s : str) : str := flat_map lower_char s.

(** Exceptions, all of them subclasses of [Exception]. *)
(** [s.encode('utf-8')] returns exactly when [s] holds no surrogate code
    point (U+D800 to U+DFFF); otherwise it raises [UnicodeEncodeError]. *)
Definition is_surrogate (c : char) : bool :=
  ((55296 <=? c) && (c <=? 57343))%N.

Definition encodable (s : str) : bool :=
  forallb (fun c => negb (is_surrogate c)) s.

Inductive exn :=
| KeyError
| AttributeError
| ValueError
| OverflowError
| ZeroDivisionError
| FileNotFoundError
| OSError
| SMTPRecipientsRefused
| SMTPSenderRefused
| SMTPDataError
| SMTPAuthenticationError
| SMTPServerDisconnected
| SMTPResponseException
| SystemExit1
| UnicodeEncodeError
| OtherException.

Inductive result (A : Type) :=
| Ok (a : A)
| Raise (e : exn).
Arguments Ok {A} a.
Arguments Raise {A} e.

Definition rbind {A B} (r : result A) (k : A -> result B) : result B :=
  match r with
  | Ok a => k a
  | Raise e => Raise e
  end.

(** [try: r  except Exception as e: h e] *)
Definition try_except {A} (r : result A) (h : exn -> result A) : result A :=
  match r with
  | Ok a => Ok a
  | Raise e => h e
  end.

Fixpoint mapM {A B} (f : A -> result B) (l : list A) : result (list B) :=
  match l with
  | [] => Ok []
  | x :: t => rbind (f x) (fun y => rbind (mapM f t) (fun ys => Ok (y :: ys)))
  end.

End Py.

Export Py.
Arguments u _%_string.

Declare Scope py_scope.
Delimit Scope py_scope with py.
Notation "x <- c1 ;; c2" := (rbind c1 (fun x => c2))
(at level 100, c1 at next level, right associativity) : py_scope.

(** ** Regular expressions

  The two patterns of the sources.  The e-mail pattern is matched with
  Brzozowski derivatives over character classes; the blank-line
  substitution is written out for its one pattern. *)

Module Re.

Inductive re :=
| Empty
| Eps
| Chr (p : char -> bool)
| Cat (r1 r2 : re)
| Alt (r1 r2 : re)
| Star (r : re).

Definition Plus (r : re) : re := Cat r (Star r).
Definition Opt (r : re) : re := Alt Eps r.

Fixpoint nullable (r : re) : bool :=
  match r with
  | Empty => false
  | Eps => true
  | Chr _ => false
  | Cat r1 r2 => nullable r1 && nullable r2
  | Alt r1 r2 => nullable r1 || nullable r2
  | Star _ => true
  end.

Fixpoint deriv (c : char) (r : re) : re :=
  match r with
  | Empty => Empty
  | Eps => Empty
  | Chr p => if p c then Eps else Empty
  | Cat r1 r2 =>
      if nullable r1
      then Alt (Cat (deriv c r1) r2) (deriv c r2)
      else Cat (deriv c r1) r2
  | Alt r1 r2 => Alt (deriv c r1) (deriv c r2)
  | Star r1 => Cat (deriv c r1) (Star r1)
  end.

(** The whole of [s] is a word of [r]. *)
Fixpoint fullmatch (r : re) (s : str) : bool :=
  match s with
  | [] => nullable r
  | c :: t => fullmatch (deriv c r) t
  end.

(** The words of a regular expression. *)
Inductive matches : re -> list N -> Prop :=
| MEps : matches Eps []
| MChr p c : p c = true -> matches (Chr p) [c]
| MCat r1 r2 s1 s2 :
    matches r1 s1 -> matches r2 s2 -> matches (Cat r1 r2) (s1 ++ s2)
| MAltL r1 r2 s : matches r1 s -> matches (Alt r1 r2) s
| MAltR r1 r2 s : matches r2 s -> matches (Alt r1 r2) s
| MStarNil r : matches (Star r) []
| MStarApp r s1 s2 :
    matches r s1 -> matches (Star r) s2 -> matches (Star r) (s1 ++ s2).

Definition in_range (lo hi c : char) : bool := ((lo <=? c) && (c <=? hi))%N.
Definition alpha (c : char) : bool := in_range 97 122 c || in_range 65 90 c.
Definition digit (c : char) : bool := in_range 48 57 c.
Definition one_of (cs : str) (c : char) : bool := existsb (N.eqb c) cs.

(** [r'^[a-zA-Z0-9._%+-]+@[a-zA-Z0-9.-]+\.[a-zA-Z]{2,}$'].  Under
    [re.match] the anchors make it a match of the whole string, except that
    [$] also matches just before a final newline. *)
Definition email_pattern : re :=
  Cat (Plus (Chr (fun c => alpha c || digit c || one_of [46; 95; 37; 43; 45]%N c)))
 (Cat (Chr (N.eqb 64))
 (Cat (Plus (Chr (fun c => alpha c || digit c || one_of [46; 45]%N c)))
 (Cat (Chr (N.eqb 46))
 (Cat (Chr alpha) (Cat (Chr alpha) (Cat (Star (Chr alpha))
 (Opt (Chr (N.eqb NL))))))))).

(** Length of the longest prefix of [s] of the form [\s*\n]. *)
Fixpoint ws_then_nl (s : str) : option nat :=
  match s with
  | [] => None
  | c :: t =>
      if isspace c then
        match ws_then_nl t with
        | Some k => Some (S k)
        | None => if (c =? NL)%N then Some 1 else None
        end
      else None
  end.

(** [re.sub(r'\n\s*\n', '\n\n', s)]: at a newline the greedy [\s*] runs
    over all the white space that follows and backs up to its last
    newline; the match is replaced and the scan resumes after it. *)
Fixpoint sub_blank_from (skip : nat) (s : str) : str :=
  match s with
  | [] => []
  | c :: t =>
      match skip with
      | S k => sub_blank_from k t
      | O =>
          if (c =? NL)%N then
            match ws_then_nl t with
            | Some k => NL :: NL :: sub_blank_from k t
            | None => c :: sub_blank_from 0 t
            end
          else c :: sub_blank_from 0 t
      end
  end.

Definition sub_blank_lines (s : str) : str := sub_blank_from 0 s.

(** No newline of [s] starts a match of [\n\s*\n]. *)
Fixpoint no_match (s : str) : bool :=
  match s with
  | [] => true
  | c :: t =>
      (if (c =? NL)%N then negb (bool_decide (is_Some (ws_then_nl t))) else true)
      && no_match t
  end.

(** A line that is not blank and holds no newline. *)
Definition good_line (l : str) : Prop := strip l ≠ [] ∧ (NL ∉ l).

End Re.

(** ** llm_manager.py *)

Module LLMManager.

Definition lines_to_remove : list str :=
  Eval vm_compute in
    [ u "konu:"; u "subject:"; u "kimden:"; u "from:"; u "kime:"; u "to:";
      u "e-posta gövdesi:"; u "email body:" ].

Section Clean.
Variable lower : str -> str.

(** [any(remove_text in line_lower for remove_text in lines_to_remove)]
    with [line_lower = line.lower().strip()] *)
Definition should_skip (line : str) : bool :=
  let line_lower := strip (lower line) in
  existsb (fun remove_text => contains remove_text line_lower) lines_to_remove.

(** The body of the [for line in lines] loop, as the test that decides
    whether [line] is appended to [filtered_lines]. *)
Definition keeps (line : str) : bool :=
  negb (should_skip line) && negb (bool_decide (strip line = [])).

Definition _clean_response (response : str) : str :=
  let cleaned := strip response in
  let lines := split NL cleaned in
  let filtered_lines := List.filter keeps lines in
  let cleaned := join [NL] filtered_lines in
  let cleaned := Re.sub_blank_lines cleaned in
  strip cleaned.
End Clean.


(** *** [save_generated_email] *)

(** [os.path.join(a, b)] of [posixpath]. *)
Definition path_join (a b : str) : str :=
  if startswith [47%N] b then b
  else if bool_decide (a = []) || bool_decide (last a = Some 47%N) then a ++ b
  else a ++ [47%N] ++ b.

Definition txt : str := Eval vm_compute in u ".txt".

Section Save.
(** [str.isalnum] on one character, a table of the Unicode database. *)
Variable isalnum : char -> bool.

(** The two lines that make the name of the company a file name. *)
Definition safe_name (company_name : str) : str :=
  let safe_name :=
    rstrip (List.filter
              (fun c => isalnum c || bool_decide (c ∈ [32%N; 45%N; 95%N]))
              company_name) in
  replace [32%N] [95%N] safe_name.

(** The path [save_generated_email] writes to and returns; [timestamp] is
    [datetime.now().strftime("%Y%m%d_%H%M%S")]. *)
Definition filepath (save_dir company_name timestamp : str) : str :=
  let filename := safe_name company_name ++ [95%N] ++ timestamp ++ txt in
  path_join save_dir filename.

End Save.

(** [check_connection]: [tags] is what
    [requests.get(f"{self.ollama_url}/api/tags", timeout=5)] does, the
    status code of the response or an exception. *)
Definition check_connection (tags : result Z) : bool :=
  match tags with
  | Ok status_code => (status_code =? 200)%Z
  | Raise _ => false
  end.

End LLMManager.

(** ** data_processor.py *)

Module DataProcessor.

(** A cell of the DataFrame: a text, or missing ([NaN], [pd.NA]).  The frame
    has the seven columns of the companies sheet. *)
Abbreviation cell := (option (list N)) (only parsing).

Record row := {
  sirket_adi : cell;   (* 'Şirket Adı' *)
  adres : cell;        (* 'Adres' *)
  numara : cell;       (* 'Numara' *)
  web_sitesi : cell;   (* 'Web Sitesi' *)
  mail : cell;         (* 'Mail' *)
  durum : cell;        (* 'Durum' *)
  notlar : cell        (* 'Notlar' *)
}.

Definition isna (c : cell) : bool :=
  match c with None => true | Some _ => false end.

Definition nan : str := Eval vm_compute in u "nan".

(** [df[col].astype(str).str.strip()] followed by [.replace('nan', pd.NA)],
    on one cell. *)
Definition astype_str (c : cell) : str :=
  match c with None => nan | Some s => s end.

Definition clean_cell (c : cell) : cell :=
  let s := strip (astype_str c) in
  if bool_decide (s = nan) then None else Some s.

(** The [for col in [...]] loop of [_clean_data], on one row. *)
Definition clean_text (r : row) : row :=
  {| sirket_adi := clean_cell (sirket_adi r);
     adres := adres r;
     numara := numara r;
     web_sitesi := clean_cell (web_sitesi r);
     mail := clean_cell (mail r);
     durum := durum r;
     notlar := clean_cell (notlar r) |}.

Definition is_valid_email (email : cell) : bool :=
  match email with
  | None => false
  | Some e => if bool_decide (e = []) then false
              else Re.fullmatch Re.email_pattern e
  end.

Definition _validate_emails (df : list row) : list row :=
  List.filter (fun r => is_valid_email (mail r)) df.

(** [df.drop_duplicates(subset=['Mail'])]: the first row of each value stays. *)
Fixpoint drop_duplicates (seen : list cell) (df : list row) : list row :=
  match df with
  | [] => []
  | r :: rest =>
      if bool_decide (mail r ∈ seen) then drop_duplicates seen rest
      else r :: drop_duplicates (mail r :: seen) rest
  end.

Definition all_na (r : row) : bool :=
  isna (sirket_adi r) && isna (adres r) && isna (numara r)
  && isna (web_sitesi r) && isna (mail r) && isna (durum r) && isna (notlar r).

Definition _clean_data (df : list row) : list row :=
  let df_clean := List.filter (fun r => negb (all_na r)) df in
  let df_clean :=
    List.filter (fun r => negb (isna (sirket_adi r)) && negb (isna (mail r))) df_clean in
  let df_clean := map clean_text df_clean in
  let df_clean := _validate_emails df_clean in
  drop_duplicates [] df_clean.

(** The frame before [drop_duplicates]: the rows that are left by the two
    [dropna], cleaned, with an e-mail of the shape of an address. *)
Definition cleaned_valid (df : list row) : list row :=
  _validate_emails
    (map clean_text
       (List.filter (fun r => negb (isna (sirket_adi r)) && negb (isna (mail r)))
          (List.filter (fun r => negb (all_na r)) df))).

Definition C_sirket_adi : str := Eval vm_compute in u "sirket_adi".
Definition C_email : str := Eval vm_compute in u "email".
Definition C_web_sitesi : str := Eval vm_compute in u "web_sitesi".
Definition C_notlar : str := Eval vm_compute in u "notlar".
Definition C_adres : str := Eval vm_compute in u "adres".
Definition C_telefon : str := Eval vm_compute in u "telefon".

(** The loop at the end of [get_company_info], on one value: [''] for
    [NaN], [str(value).strip()] otherwise. *)
Definition info_value (c : cell) : str :=
  match c with
  | None => []
  | Some s => strip s
  end.

(** [get_company_info(df, index)] for an index that is not negative;
    [None] is the [IndexError] of [df.iloc[index]], logged and raised
    again. *)
Definition get_company_info (df : list row) (index : nat)
  : option (gmap (list N) (list N)) :=
  match df !! index with
  | None => None
  | Some r =>
      Some (<[C_telefon := info_value (numara r)]>
           (<[C_adres := info_value (adres r)]>
           (<[C_notlar := info_value (notlar r)]>
           (<[C_web_sitesi := info_value (web_sitesi r)]>
           (<[C_email := info_value (mail r)]>
           (<[C_sirket_adi := info_value (sirket_adi r)]> ∅))))))
  end.

End DataProcessor.

(** ** staj_basvuru_automator.py *)

Module Static.

Record SirketBilgisi := {
  sirket_adi : str;
  adres : str;
  numara : str;
  web_sitesi : str;
  mail : str;
  durum : str;
  notlar : str
}.

(** The companies file as [csv.reader] yields it: the header row and the
    records below it, each a list of fields. *)
Record csv_store := {
  header : list str;
  records : list (list str)
}.

(** Values of the dictionaries of [csv.DictReader]: a field, [None] for a
    field the record is too short for, the list of surplus fields. *)
Inductive pyval :=
| VStr (s : str)
| VNone
| VList (l : list str).

(** Keys: a column name, or [None] (the [restkey]). *)
Abbreviation rowdict := (gmap (option (list N)) pyval) (only parsing).

(** [dict(zip(fieldnames, row))] *)
Definition dict_zip (fieldnames : list str) (row : list str) : rowdict :=
  foldl (fun d kv => <[Some kv.1 := VStr kv.2]> d) ∅ (zip fieldnames row).

(** [csv.DictReader.__next__] on one non-empty record. *)
Definition DictReader_row (fieldnames : list str) (row : list str) : rowdict :=
  let d := dict_zip fieldnames row in
  let lf := length fieldnames in
  let lr := length row in
  if (lf <? lr)%nat then <[None := VList (drop lf row)]> d
  else if (lr <? lf)%nat then
    foldl (fun d key => <[Some key := VNone]> d) d (drop lr fieldnames)
  else d.

(** The rows of [csv.DictReader(file)]; empty records are passed over. *)
Definition DictReader (store : csv_store) : list rowdict :=
  map (DictReader_row (header store))
      (List.filter (fun r => negb (bool_decide (r = []))) (records store)).

Definition K_sirket_adi : str := Eval vm_compute in u "Şirket Adı".
Definition K_adres : str := Eval vm_compute in u "Adres".
Definition K_numara : str := Eval vm_compute in u "Numara".
Definition K_web_sitesi : str := Eval vm_compute in u "Web Sitesi".
Definition K_mail : str := Eval vm_compute in u "Mail".
Definition K_durum : str := Eval vm_compute in u "Durum".
Definition K_notlar : str := Eval vm_compute in u "Notlar".

(** [row.get(key, '').strip()]; [None] has no [strip]. *)
Definition get_strip (row : rowdict) (key : str) : result str :=
  match default (VStr []) (row !! Some key) with
  | VStr s => Ok (strip s)
  | VNone => Raise AttributeError
  | VList _ => Raise AttributeError
  end.

(** Dictionaries whose columns all hold a text: those of records that are
    not shorter than the header. *)
Definition text_valued (d : rowdict) : Prop :=
  ∀ key v, d !! Some key = Some v → ∃ s, v = VStr s.

Definition placeholders : list str :=
  Eval vm_compute in [u "TalepForm"; u "Talep Form"].

Definition sent_marker : str := Eval vm_compute in u "gönderildi".

Section Reader.
Variable lower : str -> str.

(** [sirket.durum and 'gönderildi' in sirket.durum.lower()] *)
Definition already_sent (durum : str) : bool :=
  negb (bool_decide (durum = [])) && contains sent_marker (lower durum).

(** What the reader tests before it keeps a company. *)
Definition sendable (s : SirketBilgisi) : Prop :=
  mail s ≠ [] ∧ (mail s ∉ placeholders) ∧ already_sent (durum s) = false.

(** The [for row in csv_reader] loop of [csv_dosyasini_oku]. *)
Fixpoint read_rows (rows : list rowdict) : result (list SirketBilgisi) :=
  match rows with
  | [] => Ok []
  | row :: rest =>
      (name <- get_strip row K_sirket_adi ;;
       if bool_decide (name = []) then read_rows rest
       else
         sirket_adi <- get_strip row K_sirket_adi ;;
         adres <- get_strip row K_adres ;;
         numara <- get_strip row K_numara ;;
         web_sitesi <- get_strip row K_web_sitesi ;;
         mail <- get_strip row K_mail ;;
         durum <- get_strip row K_durum ;;
         notlar <- get_strip row K_notlar ;;
         let sirket :=
           {| sirket_adi := sirket_adi; adres := adres; numara := numara;
              web_sitesi := web_sitesi; mail := mail; durum := durum;
              notlar := notlar |} in
         if bool_decide (mail = []) || bool_decide (mail ∈ placeholders)
         then read_rows rest
         else if already_sent durum then read_rows rest
         else
           sirketler <- read_rows rest ;;
           Ok (sirket :: sirketler))%py
  end.

(** [csv_dosyasini_oku] on a file that exists: any exception of the loop
    ends the process with [sys.exit(1)]. *)
Definition csv_dosyasini_oku (store : csv_store) : result (list SirketBilgisi) :=
  try_except (read_rows (DictReader store)) (fun _ => Raise SystemExit1).

End Reader.

Definition fieldnames : list str :=
  Eval vm_compute in
    [u "Şirket Adı"; u "Adres"; u "Numara"; u "Web Sitesi"; u "Mail";
     u "Durum"; u "Notlar"].

(** The read loop of [csv_durumunu_guncelle], on one row. *)
Definition set_durum (sirket_adi durum : str) (row : rowdict) : result rowdict :=
  (name <- get_strip row K_sirket_adi ;;
   Ok (if bool_decide (name = sirket_adi)
       then <[Some K_durum := VStr durum]> row
       else row))%py.

(** [csv.DictWriter._dict_to_list] with [extrasaction='raise'] and
    [restval='']: [wrong_fields = rowdict.keys() - self.fieldnames]; the
    writer prints [None] as the empty field. *)
Definition wrong_fields (row : rowdict) : bool :=
  let keys : gset (option (list N)) := dom row in
  negb (bool_decide (keys ∖ list_to_set (Some <$> fieldnames) = ∅)).

Definition field_text (row : rowdict) (key : str) : str :=
  match row !! Some key with
  | Some (VStr s) => s
  | _ => []
  end.

Definition _dict_to_list (row : rowdict) : list str :=
  map (field_text row) fieldnames.

(** [csv_writer.writerows(veriler)]: the rows are written one by one, and a
    row with a key outside [fieldnames] raises [ValueError] after the rows
    before it went to the file. *)
Fixpoint writerows (veriler : list rowdict) : list (list str) :=
  match veriler with
  | [] => []
  | row :: rest =>
      if wrong_fields row then [] else _dict_to_list row :: writerows rest
  end.

(** [csv_durumunu_guncelle]: the file after the call.  An exception of the
    read loop leaves the file as it was (it is opened for writing only
    afterwards); the handler logs and returns. *)
Definition csv_durumunu_guncelle (store : csv_store) (sirket_adi durum : str)
  : csv_store :=
  match mapM (set_durum sirket_adi durum) (DictReader store) with
  | Raise _ => store
  | Ok veriler => {| header := fieldnames; records := writerows veriler |}
  end.

(** A record of the seven columns with its status replaced when its name,
    stripped, is [sirket_adi]: what an update leaves of a row. *)
Definition with_durum (sirket_adi durum : str) (record : list str) : list str :=
  if bool_decide (strip (record !!! 0%nat) = sirket_adi)
  then <[5%nat := durum]> record
  else record.

(** *** Records of the seven columns

    What the loop of [csv_dosyasini_oku] makes of a record
    [Şirket Adı, Adres, Numara, Web Sitesi, Mail, Durum, Notlar]: the company
    with its fields stripped, and the tests that keep it. *)
Definition sirket_of_record (record : list str) : SirketBilgisi :=
  {| sirket_adi := strip (record !!! 0%nat);
     adres := strip (record !!! 1%nat);
     numara := strip (record !!! 2%nat);
     web_sitesi := strip (record !!! 3%nat);
     mail := strip (record !!! 4%nat);
     durum := strip (record !!! 5%nat);
     notlar := strip (record !!! 6%nat) |}.

Definition keep_record (lower : str -> str) (record : list str)
  : option SirketBilgisi :=
  let sirket := sirket_of_record record in
  if bool_decide (sirket_adi sirket = []) then None
  else if bool_decide (mail sirket = []) || bool_decide (mail sirket ∈ placeholders)
  then None
  else if already_sent lower (durum sirket) then None
  else Some sirket.

(** Records the reader gets through without an exception, under the header
    of the seven columns: blank lines, records that are not short, and short
    records with a blank name (passed over before their other fields are
    read). *)
Definition readable (record : list str) : Prop :=
  record = [] ∨ 7 <= length record ∨ strip (record !!! 0%nat) = [].


(** *** Sending *)

(** [self] of [StajBasvuruOtomasyonu], as far as the sending reads it. *)
Record otomasyon := {
  smtp_server : str;
  smtp_port : Z;
  gonderici_email : str;
  gonderici_sifre : str;
  cv_dosya_yolu : str
}.

(** The dictionary of the two template functions: ['konu'], ['govde']. *)
Record eposta := {
  konu : str;
  govde : str
}.

(** The [MIMEMultipart] message, by its parts. *)
Record mesaj := {
  msg_from : str;
  msg_to : str;
  msg_subject : str;
  msg_body : str;
  msg_cv : option (list N * list N)   (* file name, content *)
}.

(** What the world outside does during one call of [eposta_gonder]: the
    file system on the CV path, and the relay on each step of the session
    ([None] for a step that returns, [Some e] for one that raises [e]). *)
Record gonder_env := {
  cv_exists : bool;             (* os.path.exists(self.cv_dosya_yolu) *)
  cv_bytes : result (list N);   (* open(..., 'rb') ... cv_file.read() *)
  on_connect : option exn;      (* smtplib.SMTP(server, port) *)
  on_starttls : option exn;     (* server.starttls() *)
  on_login : option exn;        (* server.login(...) *)
  on_send_message : option exn; (* server.send_message(msg) *)
  on_quit : option exn          (* SMTP.__exit__ *)
}.

(** The calls made to [smtplib], each with whether it returned. *)
Inductive call :=
| CConnect (server : list N) (port : Z)
| CStartTLS
| CLogin (user password : list N)
| CSendMessage (msg : mesaj)
| CQuit.

(** A call that is made, and returns or raises. *)
Definition made (c : call) (o : option exn) : result unit * list (call * bool) :=
  match o with
  | None => (Ok tt, [(c, true)])
  | Some e => (Raise e, [(c, false)])
  end.

(** [m1; m2]: the second only after the first returned. *)
Definition and_then (m1 m2 : result unit * list (call * bool))
  : result unit * list (call * bool) :=
  match m1 with
  | (Ok _, calls1) => (m2.1, calls1 ++ m2.2)
  | (Raise e, calls1) => (Raise e, calls1)
  end.

(** [cv_dosyasini_ekle]: the value returned and the message after it. *)
Definition cv_dosyasini_ekle (self : otomasyon) (env : gonder_env) (msg : mesaj)
  : bool * mesaj :=
  if negb (cv_exists env) then (false, msg)
  else
    match cv_bytes env with
    | Ok content =>
        (true,
         {| msg_from := msg_from msg; msg_to := msg_to msg;
            msg_subject := msg_subject msg; msg_body := msg_body msg;
            msg_cv := Some (cv_dosya_yolu self, content) |})
    | Raise _ => (false, msg)
    end.

(** [with smtplib.SMTP(...) as server: ...]: the exit is made on both ways
    out of the block, and an exception of its own replaces the block's. *)
Definition smtp_session (self : otomasyon) (env : gonder_env) (msg : mesaj)
  : result unit * list (call * bool) :=
  match on_connect env with
  | Some e => (Raise e, [(CConnect (smtp_server self) (smtp_port self), false)])
  | None =>
      let block :=
        and_then (made CStartTLS (on_starttls env))
       (and_then (made (CLogin (gonderici_email self) (gonderici_sifre self))
                       (on_login env))
                 (made (CSendMessage msg) (on_send_message env))) in
      let exit := made CQuit (on_quit env) in
      (match block.1, exit.1 with
       | _, Raise e => Raise e
       | r, Ok _ => r
       end,
       (CConnect (smtp_server self) (smtp_port self), true)
         :: block.2 ++ exit.2)
  end.

(** [eposta_gonder]: the value returned and the calls made to the relay. *)
Definition eposta_gonder (self : otomasyon) (env : gonder_env)
    (sirket : SirketBilgisi) (eposta_icerigi : eposta)
  : bool * list (call * bool) :=
  let msg :=
    {| msg_from := gonderici_email self; msg_to := mail sirket;
       msg_subject := konu eposta_icerigi; msg_body := govde eposta_icerigi;
       msg_cv := None |} in
  let '(attached, msg) := cv_dosyasini_ekle self env msg in
  if negb attached then (false, [])
  else
    match smtp_session self env msg with
    | (Ok _, calls) => (true, calls)
    | (Raise _, calls) => (false, calls)
    end.

(** The two languages of [dil_secimi_yap]: ['turkce'], ['ingilizce']. *)
Inductive dil := turkce | ingilizce.

Definition turkce_gonderildi : str :=
  Eval vm_compute in u "Turkce mail gönderildi".

Definition ingilizce_gonderildi : str :=
  Eval vm_compute in u "Ingilizce mail gönderildi".

(** [f"{dil.capitalize()} mail gönderildi"] *)
Definition durum_of (d : dil) : str :=
  match d with
  | turkce => turkce_gonderildi
  | ingilizce => ingilizce_gonderildi
  end.

(** [dil_secimi_yap] on the lines the operator types: the choice
    ([Some None] for ['3'], skip) and the lines left; [None] is the
    [EOFError] of [input] at the end of the lines. *)
Fixpoint dil_secimi_yap (inputs : list str) : option (option dil) * list str :=
  match inputs with
  | [] => (None, [])
  | line :: rest =>
      let secim := strip line in
      if bool_decide (secim = [49%N]) then (Some (Some turkce), rest)
      else if bool_decide (secim = [50%N]) then (Some (Some ingilizce), rest)
      else if bool_decide (secim = [51%N]) then (Some None, rest)
      else dil_secimi_yap rest
  end.

(** What [toplu_gonderim_yap] does, in order. *)
Inductive olay :=
| OGonder (i : nat) (sirket : SirketBilgisi) (d : dil)
          (calls : list (call * bool)) (sent : bool)
| OSleep (secs : Z).

(** The three counters of [toplu_gonderim_yap]. *)
Record sayac := {
  basarili_gonderim : nat;
  basarisiz_gonderim : nat;
  atlanan_gonderim : nat
}.

Section Toplu.
Variable self : otomasyon.
(** The two template functions. *)
Variables turkce_eposta_olustur ingilizce_eposta_olustur : SirketBilgisi -> eposta.
(** The world of the [i]-th turn of the loop. *)
Variable world : nat -> gonder_env.

(** The loop of [toplu_gonderim_yap] from turn [i] on: the counters at the
    end ([None] when the [EOFError] of a choice left the loop), the
    companies file, and what was done. *)
Fixpoint toplu_loop (i : nat) (sirketler : list SirketBilgisi)
    (inputs : list str) (store : csv_store) (n : sayac) (done : list olay)
  : option sayac * csv_store * list olay :=
  match sirketler with
  | [] => (Some n, store, done)
  | sirket :: rest =>
      match dil_secimi_yap inputs with
      | (None, _) => (None, store, done)
      | (Some None, inputs) =>
          toplu_loop (S i) rest inputs store
            {| basarili_gonderim := basarili_gonderim n;
               basarisiz_gonderim := basarisiz_gonderim n;
               atlanan_gonderim := atlanan_gonderim n + 1 |}
            done
      | (Some (Some d), inputs) =>
          let eposta_icerigi :=
            match d with
            | turkce => turkce_eposta_olustur sirket
            | ingilizce => ingilizce_eposta_olustur sirket
            end in
          let '(sent, calls) :=
            eposta_gonder self (world i) sirket eposta_icerigi in
          if sent
          then
            toplu_loop (S i) rest inputs
              (csv_durumunu_guncelle store (sirket_adi sirket) (durum_of d))
              {| basarili_gonderim := basarili_gonderim n + 1;
                 basarisiz_gonderim := basarisiz_gonderim n;
                 atlanan_gonderim := atlanan_gonderim n |}
              (done ++ [OGonder i sirket d calls true; OSleep 2])
          else
            toplu_loop (S i) rest inputs store
              {| basarili_gonderim := basarili_gonderim n;
                 basarisiz_gonderim := basarisiz_gonderim n + 1;
                 atlanan_gonderim := atlanan_gonderim n |}
              (done ++ [OGonder i sirket d calls false])
      end
  end.

Definition toplu_gonderim_yap (sirketler : list SirketBilgisi)
    (inputs : list str) (store : csv_store)
  : option sayac * csv_store * list olay :=
  toplu_loop 0 sirketler inputs store
    {| basarili_gonderim := 0; basarisiz_gonderim := 0;
       atlanan_gonderim := 0 |}
    [].

End Toplu.

(** The names of the companies a run sent to. *)
Definition gonderilenler (done : list olay) : list str :=
  omap (fun o => match o with
                 | OGonder _ sirket _ _ true => Some (sirket_adi sirket)
                 | _ => None
                 end) done.

(** The choices among the typed lines, and the lines that are none. *)
Definition is_choice (line : str) : bool :=
  bool_decide (strip line ∈ [[49%N]; [50%N]; [51%N]]).

(** *** The whole run *)

(** [smtp_ayarlarini_al] on the lines the operator types: the settings and
    the lines left.  [int_of] is [int] on a text that is not empty; [None]
    is the [ValueError] of [int], or the [EOFError] of [input]. *)
Definition smtp_ayarlarini_al (int_of : str -> option Z) (cv_dosya_yolu : str)
    (inputs : list str) : option (otomasyon * list str) :=
  match inputs with
  | server :: port_input :: rest =>
      let port_input := strip port_input in
      match (if bool_decide (port_input = []) then Some 587%Z
             else int_of port_input) with
      | None => None
      | Some port =>
          match rest with
          | email :: sifre :: rest =>
              Some ({| smtp_server := strip server; smtp_port := port;
                       gonderici_email := strip email;
                       gonderici_sifre := strip sifre;
                       cv_dosya_yolu := cv_dosya_yolu |},
                    rest)
          | _ => None
          end
      end
  | _ => None
  end.

(** How the script ends: with [sys.exit(1)], its own or that of the
    handler of [main], or after the report of [toplu_gonderim_yap]. *)
Inductive bitis :=
| Cikis1
| Tamamlandi (n : sayac).

(** [calistir] under [main]: the ending, the companies file and what was
    done.  [cv_at_start] is [os.path.exists(self.cv_dosya_yolu)] at the
    first line of [calistir]. *)
Definition calistir (lower : str -> str) (int_of : str -> option Z)
    (cv_dosya_yolu : str) (cv_at_start : bool)
    (turkce_eposta_olustur ingilizce_eposta_olustur : SirketBilgisi -> eposta)
    (world : nat -> gonder_env) (inputs : list str) (store : csv_store)
  : bitis * csv_store * list olay :=
  if negb cv_at_start then (Cikis1, store, [])
  else
    match smtp_ayarlarini_al int_of cv_dosya_yolu inputs with
    | None => (Cikis1, store, [])
    | Some (self, inputs) =>
        match csv_dosyasini_oku lower store with
        | Raise _ => (Cikis1, store, [])
        | Ok sirketler =>
            if bool_decide (sirketler = []) then (Cikis1, store, [])
            else
              match toplu_gonderim_yap self turkce_eposta_olustur
                      ingilizce_eposta_olustur world sirketler inputs store with
              | (Some n, store, done) => (Tamamlandi n, store, done)
              | (None, store, done) => (Cikis1, store, done)
              end
        end
    end.

(** The turns of the loop in which [eposta_gonder] was called. *)
Definition gonderim_turlari (done : list olay) : list nat :=
  omap (fun o => match o with
                 | OGonder i _ _ _ _ => Some i
                 | OSleep _ => None
                 end) done.

End Static.

(** ** email_sender.py *)

Module EmailSender.

(** [self] of [EmailSender]. *)
Record sender := {
  smtp_server : str;
  smtp_port : Z;
  email_address : str;
  email_password : str
}.

(** The [MIMEMultipart] message, by its parts. *)
Record message := {
  msg_from : str;
  msg_to : str;
  msg_subject : str;
  msg_body : str;
  msg_attachment : option (list N * list N)   (* file name, payload *)
}.

(** What the world outside does during one call of [send_application_email]:
    the file system on the CV path and the mail relay on each step of the
    session.  [None] is a step that returns, [Some e] one that raises [e]. *)
Record send_env := {
  path_exists : bool;              (* os.path.exists(cv_path) *)
  read_cv : result (list N);       (* open(cv_path, 'rb') ... encode_base64 *)
  smtp_connect : option exn;       (* smtplib.SMTP(server, port) *)
  smtp_starttls : option exn;      (* server.starttls() *)
  smtp_login : option exn;         (* server.login(...) *)
  smtp_sendmail : option exn;      (* msg.as_string(); server.sendmail(...) *)
  smtp_quit : option exn           (* SMTP.__exit__ *)
}.

Definition step (o : option exn) : result unit :=
  match o with None => Ok tt | Some e => Raise e end.

Definition placeholder : str := Eval vm_compute in u "[AD SOYAD]".
Definition subject_prefix : str := Eval vm_compute in u "Staj Başvurusu - ".

(** The text between the brackets of the placeholder. *)
Definition placeholder_inside : str := Eval vm_compute in u "AD SOYAD".

(** Names that cannot make up a placeholder with the text around them: no
    bracket in the name, and the name is no part of [AD SOYAD] (the empty
    name is a part of every text). *)
Definition safe_name (applicant_name : str) : bool :=
  negb (bool_decide (91%N ∈ applicant_name))
  && negb (bool_decide (93%N ∈ applicant_name))
  && negb (contains applicant_name placeholder_inside).

(** [os.path.basename] *)
Definition basename (path : str) : str :=
  default [] (last (split 47%N path)).

(** [_attach_cv]: the exception of the [try] is logged and raised again. *)
Definition _attach_cv (env : send_env) (msg : message) (cv_path : str)
  : result message :=
  try_except
    (payload <- read_cv env ;;
     Ok {| msg_from := msg_from msg; msg_to := msg_to msg;
           msg_subject := msg_subject msg; msg_body := msg_body msg;
           msg_attachment := Some (basename cv_path, payload) |})%py
    (fun e => Raise e).

Definition _create_email_message (self : sender) (env : send_env)
    (to_email company_name email_body cv_path applicant_name : str)
  : result message :=
  let personalized_body := replace placeholder applicant_name email_body in
  (* MIMEText(personalized_body, 'plain', 'utf-8') encodes the body *)
  if negb (encodable personalized_body) then Raise UnicodeEncodeError
  else
    let msg :=
      {| msg_from := email_address self; msg_to := to_email;
         msg_subject := subject_prefix ++ applicant_name;
         msg_body := personalized_body;
         msg_attachment := None |} in
    if negb (bool_decide (cv_path = [])) && path_exists env
    then _attach_cv env msg cv_path
    else Ok msg.

(** [with smtplib.SMTP(...) as server: body]: the exit runs on both ways
    out of the body, and an exception of its own replaces the body's. *)
Definition with_smtp (env : send_env) (body : result unit) : result unit :=
  (_ <- step (smtp_connect env) ;;
   match body with
   | Ok tt => step (smtp_quit env)
   | Raise e => _ <- step (smtp_quit env) ;; Raise e
   end)%py.

Definition send_application_email (self : sender) (env : send_env)
    (to_email company_name email_body cv_path applicant_name : str)
  : result bool :=
  try_except
    (msg <- _create_email_message self env to_email company_name email_body
                                  cv_path applicant_name ;;
     _ <- with_smtp env
            (_ <- step (smtp_starttls env) ;;
             _ <- step (smtp_login env) ;;
             step (smtp_sendmail env)) ;;
     Ok true)%py
    (fun e =>
       match e with
       | SMTPRecipientsRefused => Ok false
       | SMTPSenderRefused => Ok false
       | SMTPDataError => Ok false
       | FileNotFoundError => Ok false
       | _ => Ok false
       end).

(** [results] of [send_batch_emails]. *)
Record BatchResult := {
  successful : list str;
  failed : list str;
  total_sent : nat;
  total_failed : nat
}.

(** What the batch does to the world, in order: a call of
    [send_application_email] in turn [i] with its arguments and its result,
    a call of [time.sleep], the rate of the closing log lines.  The trace is
    the model's record of these calls; the source keeps none. *)
Inductive event :=
| EvSend (i : nat) (to_email company_name email_body : list N) (success : bool)
| EvSleep (secs : Z)
| EvRate (sent total : nat).   (* the logged [total_sent/total_emails*100] *)

Record state := {
  results : BatchResult;
  trace : list event
}.

(** Computations of the batch: they change the state and may raise; the
    changes made before an exception stay. *)
Definition M (A : Type) : Type := state -> result A * state.

Definition ret {A} (a : A) : M A := fun st => (Ok a, st).

Definition bind {A B} (m : M A) (k : A -> M B) : M B :=
  fun st =>
    match m st with
    | (Ok a, st') => k a st'
    | (Raise e, st') => (Raise e, st')
    end.

Definition raise {A} (e : exn) : M A := fun st => (Raise e, st).

(** [try: m  except Exception as e: h e] *)
Definition try_catch {A} (m : M A) (h : exn -> M A) : M A :=
  fun st =>
    match m st with
    | (Ok a, st') => (Ok a, st')
    | (Raise e, st') => h e st'
    end.

Definition lift {A} (r : result A) : M A := fun st => (r, st).

Definition log (ev : event) : M unit :=
  fun st => (Ok tt, {| results := results st; trace := trace st ++ [ev] |}).

Definition when (b : bool) (m : M unit) : M unit := if b then m else ret tt.

(** [results['successful'].append(name); results['total_sent'] += 1] *)
Definition record_success (company_name : str) : M unit :=
  fun st =>
    let r := results st in
    (Ok tt,
     {| results := {| successful := successful r ++ [company_name];
                      failed := failed r;
                      total_sent := total_sent r + 1;
                      total_failed := total_failed r |};
        trace := trace st |}).

(** [results['failed'].append(name); results['total_failed'] += 1] *)
Definition record_failed (company_name : str) : M unit :=
  fun st =>
    let r := results st in
    (Ok tt,
     {| results := {| successful := successful r;
                      failed := failed r ++ [company_name];
                      total_sent := total_sent r;
                      total_failed := total_failed r + 1 |};
        trace := trace st |}).

(** The largest whole number of seconds whose nanoseconds fit the signed
    64-bit integer CPython keeps a duration in. *)
Definition sleep_max : Z := 9223372036.

(** [time.sleep(secs)] for an [int]: [OverflowError] for a duration whose
    nanoseconds do not fit, on either side of zero; then [ValueError] for a
    negative one; then the sleep of the platform, which takes the duration
    or refuses it ([OSError] for a deadline its clock cannot hold, which
    depends on the time the machine has been up).  [clock secs] is what the
    platform does with a duration that passed the two tests: [None] when it
    sleeps, [Some e] when it raises [e]. *)
Definition time_sleep (clock : Z -> option exn) (secs : Z) : M unit :=
  if (sleep_max <? secs)%Z || (secs <? - sleep_max)%Z then raise OverflowError
  else if (secs <? 0)%Z then raise ValueError
  else
    match clock secs with
    | Some e => raise e
    | None => log (EvSleep secs)
    end.

(** A duration on which [time.sleep] returns. *)
Definition sleep_returns (clock : Z -> option exn) (secs : Z) : Prop :=
  (0 <= secs <= sleep_max)%Z ∧ clock secs = None.

(** [company_info[key]] *)
Definition getitem (company_info : gmap (list N) (list N)) (key : str) : M str :=
  match company_info !! key with
  | Some v => ret v
  | None => raise KeyError
  end.

Definition K_sirket_adi : str := Eval vm_compute in u "sirket_adi".
Definition K_email : str := Eval vm_compute in u "email".
Definition Bilinmeyen : str := Eval vm_compute in u "Bilinmeyen".

Section Batch.
Variable self : sender.
(** The world of the [i]-th turn of the loop. *)
Variable world : nat -> send_env.
(** The platform's sleep during the [i]-th turn. *)
Variable clock : nat -> Z -> option exn.
Variables cv_path applicant_name : str.
Variable delay_seconds : Z.
(** [total_emails = len(companies_data)] *)
Variable total_emails : nat.

(** One turn of [for i, (company_info, email_body) in enumerate(zip(...))]. *)
Definition iteration (i : nat) (company_info : gmap (list N) (list N))
    (email_body : str) : M unit :=
  try_catch
    (bind (getitem company_info K_sirket_adi) (fun company_name =>
     bind (getitem company_info K_email) (fun to_email =>
     bind (lift (send_application_email self (world i) to_email company_name
                   email_body cv_path applicant_name)) (fun success =>
     bind (log (EvSend i to_email company_name email_body success)) (fun _ =>
     bind (if success then record_success company_name
           else record_failed company_name) (fun _ =>
     when (Z.of_nat i <? Z.of_nat total_emails - 1)%Z
          (time_sleep (clock i) delay_seconds)))))))
    (fun e =>
       let company_name := default Bilinmeyen (company_info !! K_sirket_adi) in
       bind (record_failed company_name) (fun _ =>
       when (Z.of_nat i <? Z.of_nat total_emails - 1)%Z
            (time_sleep (clock i) (delay_seconds / 2)%Z))).

Fixpoint loop (i : nat) (pairs : list (gmap (list N) (list N) * list N)) : M unit :=
  match pairs with
  | [] => ret tt
  | (company_info, email_body) :: rest =>
      bind (iteration i company_info email_body) (fun _ => loop (S i) rest)
  end.

(** The summary: the rate [total_sent/total_emails*100] is formatted for the
    log, and the division raises on a zero [total_emails]. *)
Definition summary : M unit :=
  fun st =>
    if (total_emails =? 0)%nat then (Raise ZeroDivisionError, st)
    else log (EvRate (total_sent (results st)) total_emails) st.

(** *** What one turn does, read off [iteration]

    The functions below describe a turn whose sleeps all return; the
    theorems relate them to [loop]. *)

(** The name the turn files its outcome under. *)
Definition name_of (company_info : gmap (list N) (list N)) : str :=
  default Bilinmeyen (company_info !! K_sirket_adi).

(** The recipient, when both keys are there and the send is reached. *)
Definition recipient (company_info : gmap (list N) (list N)) : option (list N * list N) :=
  match company_info !! K_sirket_adi, company_info !! K_email with
  | Some company_name, Some to_email => Some (company_name, to_email)
  | _, _ => None
  end.

(** [True] exactly when the send of the turn is reached and returns [True]. *)
Definition turn_sent (i : nat) (company_info : gmap (list N) (list N))
    (email_body : str) : bool :=
  match recipient company_info with
  | Some (company_name, to_email) =>
      match send_application_email self (world i) to_email company_name
              email_body cv_path applicant_name with
      | Ok true => true
      | _ => false
      end
  | None => false
  end.

Definition pause (i : nat) (secs : Z) : list event :=
  if (Z.of_nat i <? Z.of_nat total_emails - 1)%Z then [EvSleep secs] else [].

Definition turn_events (i : nat) (company_info : gmap (list N) (list N))
    (email_body : str) : list event :=
  match recipient company_info with
  | Some (company_name, to_email) =>
      EvSend i to_email company_name email_body
             (turn_sent i company_info email_body)
        :: pause i delay_seconds
  | None => pause i (delay_seconds / 2)%Z
  end.

(** Name and outcome of each turn, from turn [i] on. *)
Fixpoint outcomes (i : nat) (pairs : list (gmap (list N) (list N) * list N))
  : list (list N * bool) :=
  match pairs with
  | [] => []
  | (company_info, email_body) :: rest =>
      (name_of company_info, turn_sent i company_info email_body)
        :: outcomes (S i) rest
  end.

Fixpoint events (i : nat) (pairs : list (gmap (list N) (list N) * list N))
  : list event :=
  match pairs with
  | [] => []
  | (company_info, email_body) :: rest =>
      turn_events i company_info email_body ++ events (S i) rest
  end.

End Batch.

(** The names filed as sent, and as failed, by a list of outcomes. *)
Definition sent_names (outs : list (list N * bool)) : list str :=
  (List.filter snd outs).*1.

Definition failed_names (outs : list (list N * bool)) : list str :=
  (List.filter (fun o => negb o.2) outs).*1.

Definition file_outcomes (outs : list (list N * bool)) (r : BatchResult)
  : BatchResult :=
  {| successful := successful r ++ sent_names outs;
     failed := failed r ++ failed_names outs;
     total_sent := total_sent r + length (sent_names outs);
     total_failed := total_failed r + length (failed_names outs) |}.

(** The sleep that follows a turn that is not the last: the whole delay
    when the send was reached, half of it when the turn raised before. *)
Definition delay_after (delay_seconds : Z) (company_info : gmap (list N) (list N)) : Z :=
  match recipient company_info with
  | Some _ => delay_seconds
  | None => (delay_seconds / 2)%Z
  end.

(** The sleeps of a trace, and the turns whose send was reached. *)
Definition sleeps (tr : list event) : list Z :=
  omap (fun ev => match ev with EvSleep secs => Some secs | _ => None end) tr.

Definition sends (tr : list event) : list nat :=
  omap (fun ev => match ev with EvSend i _ _ _ _ => Some i | _ => None end) tr.

Definition empty_results : BatchResult :=
  {| successful := []; failed := []; total_sent := 0; total_failed := 0 |}.

(** A delay on which every sleep of a batch returns: the delay, and the
    half of it that the handler sleeps, in every turn. *)
Definition takes_delay (clock : nat -> Z -> option exn) (delay_seconds : Z)
  : Prop :=
  ∀ i, sleep_returns (clock i) delay_seconds
       ∧ sleep_returns (clock i) (delay_seconds / 2).

(** [send_batch_emails]: the value returned or the exception that leaves the
    call, and what was done to the world. *)
Definition send_batch_emails (self : sender) (world : nat -> send_env)
    (clock : nat -> Z -> option exn)
    (companies_data : list (gmap (list N) (list N))) (email_bodies : list str)
    (cv_path applicant_name : str) (delay_seconds : Z)
  : result BatchResult * list event :=
  let total_emails := length companies_data in
  let run :=
    bind (loop self world clock cv_path applicant_name delay_seconds
               total_emails 0 (zip companies_data email_bodies)) (fun _ =>
    bind (summary total_emails) (fun _ =>
    fun st => (Ok (results st), st))) in
  let '(r, st) := run {| results := empty_results; trace := [] |} in
  (r, trace st).

(** [test_connection]: a session with the relay is opened, secured, logged
    in to and closed; [True] when every step returned, [False] after any
    exception. *)
Definition test_connection (env : send_env) : bool :=
  match with_smtp env
          (_ <- step (smtp_starttls env) ;; step (smtp_login env))%py with
  | Ok _ => true
  | Raise _ => false
  end.

End EmailSender.

(** ** main.py *)

Module InternshipAutomation.
Import EmailSender.

(** What [save_results] writes, one constructor for each [f.write]. *)
Inductive line :=
| LTitle
| LRule (width : nat)
| LDate (now : list N)
| LTotalSent (n : nat)
| LTotalFailed (n : nat)
| LRate (sent total : nat)   (* f"{sent/total*100:.1f}%" *)
| LSuccessfulHeader
| LSuccessful (company : list N)
| LFailedHeader
| LFailed (company : list N).

(** [a / b] on counters, for the rate. *)
Definition truediv (a b : nat) : result (nat * nat) :=
  if (b =? 0)%nat then Raise ZeroDivisionError else Ok (a, b).

(** [save_results] on a results file that can be written: the lines that
    reach the file, and the exception the handler logged, if any.  A line
    is written by [f.write] once its text is computed, so an exception in
    the computation of a line keeps that line and all later ones out. *)
Definition save_results (now : str) (results : BatchResult)
  : list line * option exn :=
  let head :=
    [LTitle; LRule 50; LDate now; LTotalSent (total_sent results);
     LTotalFailed (total_failed results)] in
  match truediv (total_sent results) (total_sent results + total_failed results) with
  | Raise e => (head, Some e)
  | Ok (sent, total) =>
      (head ++ [LRate sent total]
         ++ [LSuccessfulHeader; LRule 30] ++ map LSuccessful (successful results)
         ++ [LFailedHeader; LRule 30] ++ map LFailed (failed results),
       None)
  end.


(** *** The rest of the flow of [InternshipAutomation] *)

(** What one turn of [generate_emails] meets outside: the answer of the
    model to the prompt, or the exception of [check_connection] or of
    [_call_ollama_api], and the outcome of [save_generated_email]. *)
Record llm_env := {
  api_response : result str;
  saved : result unit
}.

(** What [run] does to the world outside, in order. *)
Inductive action :=
| ATags                  (* the request of [check_connection] *)
| ASmtpTest              (* the session of [test_connection] with the relay *)
| AGenerate (i : nat)    (* turn [i] of [generate_emails]: model and file *)
| APause (secs : Z)      (* [time.sleep(2)] of [generate_emails] *)
| ABatch (ev : event).   (* what [send_batch_emails] does *)

(** The part of a trace that is the batch's. *)
Definition batch_events (tr : list action) : list event :=
  omap (fun a => match a with ABatch ev => Some ev | _ => None end) tr.

Section Flow.
Variable lower : str -> str.

(** The body of the [try] of [generate_emails] and its handler, for one
    company: the cleaned answer, or [""] after any exception. *)
Definition generate_one (env : llm_env) : str :=
  match (response <- api_response env ;;
         let email_body := LLMManager._clean_response lower response in
         _ <- saved env ;;
         Ok email_body)%py with
  | Ok email_body => email_body
  | Raise _ => []
  end.

(** Whether the [try] of the turn ran to its end, [time.sleep(2)]
    included. *)
Definition generated (env : llm_env) : bool :=
  match api_response env, saved env with
  | Ok _, Ok _ => true
  | _, _ => false
  end.

(** [generate_emails]: one entry of [generated_emails] for each row of
    [companies_df], and what the loop does outside. *)
Definition generate_emails (companies_df : list DataProcessor.row)
    (llm : nat -> llm_env) : list str * list action :=
  (map (fun i => generate_one (llm i)) (seq 0 (length companies_df)),
   flat_map (fun i => AGenerate i :: if generated (llm i) then [APause 2] else [])
            (seq 0 (length companies_df))).

Definition yes_answers : list str :=
  Eval vm_compute in [u "e"; u "evet"; u "yes"; u "y"].

Definition no_answers : list str :=
  Eval vm_compute in [u "h"; u "hayir"; u "no"; u "n"].

(** [review_emails] on the lines the operator types: the answer and the
    lines left, [None] for the [EOFError] of [input] at the end of them. *)
Fixpoint review_emails (inputs : list str) : option bool * list str :=
  match inputs with
  | [] => (None, [])
  | line :: rest =>
      let response := lower line in
      if bool_decide (response ∈ yes_answers) then (Some true, rest)
      else if bool_decide (response ∈ no_answers) then (Some false, rest)
      else review_emails rest
  end.

End Flow.

(** The [for i, email_body in enumerate(self.generated_emails)] loop of
    [send_emails]; [None] is the [IndexError] of [get_company_info]. *)
Fixpoint collect_valid (companies_df : list DataProcessor.row) (i : nat)
    (generated_emails : list str)
    (valid_data : list (gmap (list N) (list N))) (valid_emails : list str)
  : option (list (gmap (list N) (list N)) * list str) :=
  match generated_emails with
  | [] => Some (valid_data, valid_emails)
  | email_body :: rest =>
      if bool_decide (strip email_body = [])
      then collect_valid companies_df (S i) rest valid_data valid_emails
      else
        match DataProcessor.get_company_info companies_df i with
        | None => None
        | Some company_info =>
            collect_valid companies_df (S i) rest
                          (valid_data ++ [company_info])
                          (valid_emails ++ [email_body])
        end
  end.

(** The bodies that are not blank, each with its index in
    [generated_emails]. *)
Definition numbered_valid (generated_emails : list str) : list (nat * list N) :=
  List.filter (fun ib => negb (bool_decide (strip ib.2 = [])))
              (zip (seq 0 (length generated_emails)) generated_emails).

(** How [send_emails] ends: the early [return] without a value, the
    results with the trace of the batch and the report, or an exception
    ([None] for the [IndexError] of [get_company_info]). *)
Inductive sent :=
| NothingToSend
| Sent (results : BatchResult) (tr : list event)
       (report : list line * option exn)
| SendRaised (e : option exn) (tr : list event).

Definition send_emails (self : sender) (world : nat -> send_env)
    (clock : nat -> Z -> option exn)
    (now cv_path applicant_name : str) (delay_between_emails : Z)
    (companies_df : list DataProcessor.row) (generated_emails : list str)
  : sent :=
  match collect_valid companies_df 0 generated_emails [] [] with
  | None => SendRaised None []
  | Some (valid_data, valid_emails) =>
      if bool_decide (valid_data = []) then NothingToSend
      else
        match send_batch_emails self world clock valid_data valid_emails
                                cv_path applicant_name
                                delay_between_emails with
        | (Raise e, tr) => SendRaised (Some e) tr
        | (Ok results, tr) => Sent results tr (save_results now results)
        end
  end.

(** [run_system_checks]: the request to the model's server, and, only
    after it passed, the session of [test_connection] with the relay. *)
Definition run_system_checks (tags : result Z) (smtp_check : send_env)
  : bool * list action :=
  if negb (LLMManager.check_connection tags) then (false, [ATags])
  else if negb (test_connection smtp_check) then (false, [ATags; ASmtpTest])
  else (true, [ATags; ASmtpTest]).

(** How [run] ends. *)
Inductive ending :=
| ChecksFailed                       (* return after the checks *)
| Stopped                            (* return after the review *)
| Completed (results : BatchResult)  (* the closing report is printed *)
| Exit1.                             (* sys.exit(1) *)

(** [run]: the ending, what was done to the world outside and the report
    file.  [csv_file] is the frame [pd.read_csv] returns with its required
    columns, or the exception of [load_and_clean_data] before it cleans;
    [load_and_process_data] turns an exception into [sys.exit(1)], and so
    does the handler of [run] with every exception of the later steps:
    the [EOFError] of the review, what leaves [send_emails], the
    [TypeError] of [results['total_sent']] on the [None] that
    [send_emails] returns without a batch, and the division of the closing
    report. *)
Definition run (lower : str -> str) (self : sender)
    (tags : result Z) (smtp_check : send_env)
    (csv_file : result (list DataProcessor.row))
    (llm : nat -> llm_env) (inputs : list str)
    (world : nat -> send_env) (clock : nat -> Z -> option exn)
    (now cv_path applicant_name : str) (delay_between_emails : Z)
  : ending * list action * option (list line * option exn) :=
  let '(passed, checked) := run_system_checks tags smtp_check in
  if negb passed then (ChecksFailed, checked, None)
  else
    match csv_file with
    | Raise _ => (Exit1, checked, None)
    | Ok df =>
        let companies_df := DataProcessor._clean_data df in
        let '(generated_emails, generating) :=
          generate_emails lower companies_df llm in
        match review_emails lower inputs with
        | (None, _) => (Exit1, checked ++ generating, None)
        | (Some false, _) => (Stopped, checked ++ generating, None)
        | (Some true, _) =>
            match send_emails self world clock now cv_path applicant_name
                              delay_between_emails companies_df
                              generated_emails with
            | NothingToSend => (Exit1, checked ++ generating, None)
            | SendRaised _ tr =>
                (Exit1, checked ++ generating ++ (ABatch <$> tr), None)
            | Sent results tr report =>
                (match truediv (total_sent results)
                               (total_sent results + total_failed results) with
                 | Raise _ => Exit1
                 | Ok _ => Completed results
                 end,
                 checked ++ generating ++ (ABatch <$> tr), Some report)
            end
        end
    end.

End InternshipAutomation.

(** ** Proof tools *)

(** Looks up the seven columns in the dictionary [d] of a record and
    rewrites the goal with what is found. *)
Ltac columns d :=
  let look k :=
    let v := eval vm_compute in (d !! Some k) in
    let H := fresh "Hcol" in
    assert (H : d !! Some k = v) by (vm_compute; reflexivity);
    rewrite ?H; clear H in
  look Static.K_sirket_adi; look Static.K_adres; look Static.K_numara;
  look Static.K_web_sitesi; look Static.K_mail; look Static.K_durum;
  look Static.K_notlar.

(** Discharges [takes_delay clock delay] for a closed clock and delay. *)
Ltac delay_taken :=
  let i := fresh "i" in
  intros i; vm_compute; repeat split; first [reflexivity | discriminate].

(** ** Inputs of the examples *)

Module Examples.
Import EmailSender.

Definition me : sender :=
  {| smtp_server := u "smtp.gmail.com"; smtp_port := 587;
     email_address := u "me@example.org"; email_password := u "secret" |}.

(** A world in which the CV is read and the relay takes the message. *)
Definition env_ok : send_env :=
  {| path_exists := true; read_cv := Ok [37; 80; 68; 70]%N;
     smtp_connect := None; smtp_starttls := None; smtp_login := None;
     smtp_sendmail := None; smtp_quit := None |}.

(** A world in which the relay refuses the recipient. *)
Definition env_refused : send_env :=
  {| path_exists := true; read_cv := Ok [37; 80; 68; 70]%N;
     smtp_connect := None; smtp_starttls := None; smtp_login := None;
     smtp_sendmail := Some SMTPRecipientsRefused; smtp_quit := None |}.

(** A world without the CV file. *)
Definition env_no_cv : send_env :=
  {| path_exists := false; read_cv := Raise FileNotFoundError;
     smtp_connect := None; smtp_starttls := None; smtp_login := None;
     smtp_sendmail := None; smtp_quit := None |}.

(** A platform whose sleep takes every duration up to a day. *)
Definition clock_ok (i : nat) (secs : Z) : option exn :=
  if (secs <=? 86400)%Z then None else Some OSError.

Definition company (name email : string) : gmap (list N) (list N) :=
  <[K_sirket_adi := u name]> (<[K_email := u email]> ∅).

(** The first send goes through, the later ones are refused. *)
Definition first_ok (i : nat) : send_env :=
  match i with O => env_ok | S _ => env_refused end.

Definition cv : str := Eval vm_compute in u "attachments/cv.pdf".
Definition applicant : str := Eval vm_compute in u "Ahmet Yılmaz".

(** Two contacts of one company: the same name, two addresses. *)
Definition two_contacts : list (gmap (list N) (list N)) :=
  [company "Acme" "hr@acme.com"; company "Acme" "info@acme.com"].

Definition three_companies : list (gmap (list N) (list N)) :=
  [company "Acme" "hr@acme.com"; company "Bora" "ik@bora.com.tr";
   company "Cem" "info@cem.com.tr"].

(** The second dictionary has no ['email'] key. *)
Definition one_without_email : list (gmap (list N) (list N)) :=
  [company "Acme" "hr@acme.com"; <[K_sirket_adi := u "Bora"]> ∅;
   company "Cem" "info@cem.com.tr"].

Definition bodies3 : list str :=
  Eval vm_compute in [u "Merhaba A"; u "Merhaba B"; u "Merhaba C"].

(** A companies file with two rows of one address, a row whose status says
    that the mail was sent, a row with the request-form placeholder and a
    row without an address. *)
Definition companies_file : Static.csv_store :=
  {| Static.header := Static.fieldnames;
     Static.records :=
       [ [u "Acme"; u "Ankara"; u "0312"; u "acme.com"; u "hr@acme.com";
          u ""; u ""];
         [u "Acme Ar-Ge"; u "Ankara"; u "0312"; u "acme.com"; u "hr@acme.com";
          u ""; u "DRONE"];
         [u "Bora"; u "Elazığ"; u "0424"; u "bora.com.tr"; u "ik@bora.com.tr";
          u "Türkçe mail gönderildi"; u ""];
         [u "Cem"; u "İzmir"; u "0232"; u "cem.com.tr"; u "TalepForm";
          u ""; u ""];
         [u "Deniz"; u "Bursa"; u "0224"; u "deniz.com"; u "";
          u ""; u ""] ] |}.

(** The same sheet with the columns in another order. *)
Definition reordered_file : Static.csv_store :=
  {| Static.header := [Static.K_mail; Static.K_sirket_adi; Static.K_durum];
     Static.records :=
       [ [u "hr@acme.com"; u "Acme"; u ""];
         [u "ik@bora.com.tr"; u "Bora"; u ""] ] |}.

(** Two rows of a DataFrame: one address twice, the first row with a
    status that says sent. *)
Definition frame : list DataProcessor.row :=
  [ {| DataProcessor.sirket_adi := Some (u "Acme");
       DataProcessor.adres := None; DataProcessor.numara := None;
       DataProcessor.web_sitesi := Some (u "acme.com");
       DataProcessor.mail := Some (u " hr@acme.com ");
       DataProcessor.durum := Some (u "Sent");
       DataProcessor.notlar := None |};
    {| DataProcessor.sirket_adi := Some (u "Acme Ar-Ge");
       DataProcessor.adres := None; DataProcessor.numara := None;
       DataProcessor.web_sitesi := None;
       DataProcessor.mail := Some (u "hr@acme.com");
       DataProcessor.durum := None;
       DataProcessor.notlar := Some (u "DRONE") |};
    {| DataProcessor.sirket_adi := Some (u "Cem");
       DataProcessor.adres := None; DataProcessor.numara := None;
       DataProcessor.web_sitesi := None;
       DataProcessor.mail := Some (u "TalepForm");
       DataProcessor.durum := None;
       DataProcessor.notlar := None |} ].

(** A file whose second record stops after the name. *)
Definition short_record_file : Static.csv_store :=
  {| Static.header := Static.fieldnames;
     Static.records :=
       [ [u "Acme"; u "Ankara"; u "0312"; u "acme.com"; u "hr@acme.com";
          u ""; u ""];
         [u "Bora"] ] |}.

(** A file whose second record has an eighth field, as after a comma in an
    address that is not quoted. *)
Definition long_record_file : Static.csv_store :=
  {| Static.header := Static.fieldnames;
     Static.records :=
       [ [u "Acme"; u "Ankara"; u "0312"; u "acme.com"; u "hr@acme.com";
          u ""; u ""];
         [u "Bora"; u "Elazığ"; u "Merkez"; u "0424"; u "bora.com.tr";
          u "ik@bora.com.tr"; u ""; u ""];
         [u "Cem"; u "İzmir"; u "0232"; u "cem.com.tr"; u "info@cem.com.tr";
          u ""; u ""] ] |}.

(** A generated e-mail of three paragraphs, one blank line between them. *)
Definition three_paragraphs : str :=
  Eval vm_compute in
    u "Sayın Yetkili," ++ [NL; NL] ++ u "Staj başvurusu yapıyorum."
      ++ [NL; NL] ++ u "Saygılarımla," ++ [NL] ++ u "[AD SOYAD]".

(** A cleaned frame of three companies. *)
Definition row_of (name email : string) : DataProcessor.row :=
  {| DataProcessor.sirket_adi := Some (u name);
     DataProcessor.adres := None; DataProcessor.numara := None;
     DataProcessor.web_sitesi := None;
     DataProcessor.mail := Some (u email);
     DataProcessor.durum := None;
     DataProcessor.notlar := None |}.

Definition three_rows : list DataProcessor.row :=
  [row_of "Acme" "hr@acme.com"; row_of "Bora" "ik@bora.com.tr";
   row_of "Cem" "info@cem.com.tr"].

(** Three generated bodies, the second one blank. *)
Definition bodies_one_blank : list str :=
  Eval vm_compute in [u "Merhaba A"; u " "; u "Merhaba C"].

(** What the model answers for the three rows: an answer with a subject
    line, no answer, a plain answer. *)
Definition llm3 (i : nat) : InternshipAutomation.llm_env :=
  match i with
  | O => {| InternshipAutomation.api_response :=
              Ok (u "Subject: Staj" ++ [NL] ++ u "Merhaba A");
            InternshipAutomation.saved := Ok tt |}
  | S O => {| InternshipAutomation.api_response := Raise OtherException;
            InternshipAutomation.saved := Ok tt |}
  | _ => {| InternshipAutomation.api_response := Ok (u "Merhaba C");
            InternshipAutomation.saved := Ok tt |}
  end.

(** What the operator types at the review: a line that is no answer,
    then a yes. *)
Definition typed : list str := Eval vm_compute in [u "belki"; u "E"].

Definition today : str := Eval vm_compute in u "2025-01-01 10:00:00".

(** The static variant: its settings, a world in which the CV is read and
    the relay takes the message, a template, two companies and the lines
    the operator types for them (Turkish for the first, a line that is no
    choice, skip for the second). *)
Definition otomasyon_me : Static.otomasyon :=
  {| Static.smtp_server := u "smtp.gmail.com"; Static.smtp_port := 587;
     Static.gonderici_email := u "me@example.org";
     Static.gonderici_sifre := u "secret";
     Static.cv_dosya_yolu := u "cv.pdf" |}.

Definition gonder_ok : Static.gonder_env :=
  {| Static.cv_exists := true; Static.cv_bytes := Ok [37; 80; 68; 70]%N;
     Static.on_connect := None; Static.on_starttls := None;
     Static.on_login := None; Static.on_send_message := None;
     Static.on_quit := None |}.

Definition sablon (sirket : Static.SirketBilgisi) : Static.eposta :=
  {| Static.konu := u "Staj"; Static.govde := Static.sirket_adi sirket |}.

Definition sirket_of (name email : string) : Static.SirketBilgisi :=
  {| Static.sirket_adi := u name; Static.adres := []; Static.numara := [];
     Static.web_sitesi := []; Static.mail := u email; Static.durum := [];
     Static.notlar := [] |}.

Definition two_sirket : list Static.SirketBilgisi :=
  [sirket_of "Acme" "hr@acme.com"; sirket_of "Acme Ar-Ge" "hr@acme.com"].

Definition secimler : list str := Eval vm_compute in [u " 1"; u "x"; u "3"].

(** [str.isalnum] on the Latin letters and the digits. *)
Definition isalnum_latin (c : N) : bool :=
  ((48 <=? c) && (c <=? 57) || (65 <=? c) && (c <=? 90)
   || (97 <=? c) && (c <=? 122))%N.

End Examples.

(** * Properties *)

(** ** Strings *)

Lemma startswith_app (p r : list N) : startswith p (p ++ r) = true.
Proof.
  induction p as [|a p IH]; simpl; [reflexivity|].
  rewrite N.eqb_refl. exact IH.
Qed.

Lemma startswith_spec (p s : list N) :
  startswith p s = true ↔ ∃ r, s = p ++ r.
Proof.
  split.
  - revert s. induction p as [|a p IH]; intros s H; simpl in *; [eauto|].
    destruct s as [|b s]; [discriminate|].
    apply andb_true_iff in H as [Hab H]. apply N.eqb_eq in Hab. subst b.
    destruct (IH s H) as [r ->]. eauto.
  - intros [r ->]. apply startswith_app.
Qed.

Lemma contains_cons (p : list N) (c : N) (s : list N) :
  contains p (c :: s) = startswith p (c :: s) || contains p s.
Proof. reflexivity. Qed.

Lemma contains_app_r (p a b : list N) :
  contains p b = true → contains p (a ++ b) = true.
Proof.
  intros H. induction a as [|x a IH]; simpl; [exact H|].
  rewrite IH. apply orb_true_r.
Qed.

Lemma contains_spec (p s : list N) :
  contains p s = true ↔ ∃ l r, s = l ++ p ++ r.
Proof.
  split.
  - induction s as [|c s IH]; simpl; intros H.
    + rewrite orb_false_r in H. apply startswith_spec in H as [r Hr].
      exists [], r. exact Hr.
    + apply orb_true_iff in H as [H|H].
      * apply startswith_spec in H as [r Hr]. exists [], r. exact Hr.
      * destruct (IH H) as (l & r & ->). exists (c :: l), r. reflexivity.
  - intros (l & r & ->). apply contains_app_r.
    destruct (p ++ r) eqn:E; simpl; rewrite <- E, startswith_app; reflexivity.
Qed.

(** *** [str.replace] *)

Lemma replace_from_skip (old new : list N) (s : list N) : ∀ k,
  replace_from old new k s = replace_from old new 0 (drop k s).
Proof.
  induction s as [|c t IH]; intros [|k]; simpl; try reflexivity.
  apply IH.
Qed.

Lemma replace_from_cons (old new : list N) (c : N) (t : list N) :
  replace_from old new 0 (c :: t)
  = if startswith old (c :: t)
    then new ++ replace_from old new 0 (drop (length old - 1) t)
    else c :: replace_from old new 0 t.
Proof.
  simpl replace_from at 1. rewrite (replace_from_skip old new t (length old - 1)).
  reflexivity.
Qed.

(** A text without the pattern is left as it is. *)
Lemma replace_from_absent (old new s : list N) :
  old ≠ [] → contains old s = false → replace_from old new 0 s = s.
Proof.
  intros Hold. induction s as [|c t IH]; intros H; [reflexivity|].
  rewrite contains_cons in H. apply orb_false_iff in H as [H1 H2].
  rewrite replace_from_cons, H1, IH by exact H2. reflexivity.
Qed.

(** When no occurrence starts inside [l], the occurrence that follows [l] is
    replaced and the scan resumes after it. *)
Lemma replace_from_first (old new l r : list N) :
  old ≠ [] →
  (∀ k, k < length l → startswith old (drop k (l ++ old ++ r)) = false) →
  replace_from old new 0 (l ++ old ++ r)
  = l ++ new ++ replace_from old new 0 r.
Proof.
  intros Hold. induction l as [|c l IH]; intros H.
  - simpl app. destruct old as [|a old]; [congruence|].
    change ((a :: old) ++ r) with (a :: (old ++ r)).
    rewrite replace_from_cons.
    change (a :: (old ++ r)) with ((a :: old) ++ r).
    rewrite startswith_app.
    replace (length (a :: old) - 1) with (length old) by (simpl; lia).
    rewrite drop_app_length. reflexivity.
  - change ((c :: l) ++ old ++ r) with (c :: (l ++ old ++ r)).
    rewrite replace_from_cons.
    pose proof (H 0 ltac:(simpl; lia)) as H0. simpl in H0.
    simpl app. rewrite H0.
    rewrite IH; [reflexivity|].
    intros k Hk. apply (H (S k)). simpl. lia.
Qed.

(** ** Regular expressions: derivatives decide the words *)

Section Derivatives.
Import Re.

Lemma nullable_spec (r : re) : nullable r = true ↔ matches r [].
Proof.
  induction r as [| |p|r1 IH1 r2 IH2|r1 IH1 r2 IH2|r IH]; simpl.
  - split; [discriminate|]. intros H. inversion H.
  - split; [intros _; constructor|reflexivity].
  - split; [discriminate|]. intros H. inversion H.
  - rewrite andb_true_iff, IH1, IH2. split.
    + intros [H1 H2]. apply (MCat r1 r2 [] [] H1 H2).
    + intros H. inversion H as [| |? ? s1 s2 H1 H2 Heq| | | |]; subst.
      destruct s1; [|discriminate]. destruct s2; [|discriminate].
      split; assumption.
  - rewrite orb_true_iff, IH1, IH2. split.
    + intros [H|H]; [apply MAltL|apply MAltR]; exact H.
    + intros H. inversion H; subst; auto.
  - split; [intros _; constructor|reflexivity].
Qed.

Lemma star_cons_inv (r : re) (c : N) (s : list N) :
  matches (Star r) (c :: s) →
  ∃ s1 s2, s = s1 ++ s2 ∧ matches r (c :: s1) ∧ matches (Star r) s2.
Proof.
  intros H. remember (Star r) as r' eqn:Hr. remember (c :: s) as w eqn:Hw.
  revert s Hw.
  induction H as [| | | | | |r0 s1 s2 H1 _ H2 IH2]; intros s' Hw;
    try discriminate.
  inversion Hr; subst r0.
  destruct s1 as [|c1 s1].
  - simpl in Hw. apply IH2; [reflexivity|exact Hw].
  - simpl in Hw. inversion Hw; subst. exists s1, s2. auto.
Qed.

Lemma cat_cons_inv (r1 r2 : re) (c : N) (s : list N) :
  matches (Cat r1 r2) (c :: s) →
  (matches r1 [] ∧ matches r2 (c :: s))
  ∨ ∃ s1 s2, s = s1 ++ s2 ∧ matches r1 (c :: s1) ∧ matches r2 s2.
Proof.
  intros H. inversion H as [| |? ? s1 s2 H1 H2 Heq| | | |]; subst.
  destruct s1 as [|c1 s1]; simpl in *.
  - subst s2. left. split; assumption.
  - match goal with E : _ :: _ = _ :: _ |- _ => inversion E; subst end.
    right. exists s1, s2. auto.
Qed.

Lemma deriv_spec (r : re) : ∀ c s, matches (deriv c r) s ↔ matches r (c :: s).
Proof.
  induction r as [| |p|r1 IH1 r2 IH2|r1 IH1 r2 IH2|r IH]; intros c s; simpl.
  - split; intros H; inversion H.
  - split; intros H; inversion H.
  - destruct (p c) eqn:Hp; split; intros H; inversion H; subst.
    + constructor. exact Hp.
    + constructor.
    + congruence.
  - destruct (nullable r1) eqn:Hn.
    + split.
      * intros H. inversion H as [| | |? ? ? H'|? ? ? H'| |]; subst.
        -- inversion H' as [| |? ? s1 s2 H1 H2| | | |]; subst.
           apply IH1 in H1. apply (MCat r1 r2 (c :: s1) s2 H1 H2).
        -- apply IH2 in H'. apply nullable_spec in Hn.
           apply (MCat r1 r2 [] (c :: s) Hn H').
      * intros H. apply cat_cons_inv in H as [[_ H2]|(s1 & s2 & -> & H1 & H2)].
        -- apply MAltR, IH2, H2.
        -- apply MAltL. apply MCat; [apply IH1, H1|exact H2].
    + split.
      * intros H. inversion H as [| |? ? s1 s2 H1 H2| | | |]; subst.
        apply IH1 in H1. apply (MCat r1 r2 (c :: s1) s2 H1 H2).
      * intros H. apply cat_cons_inv in H as [[H1 _]|(s1 & s2 & -> & H1 & H2)].
        -- apply nullable_spec in H1. congruence.
        -- apply MCat; [apply IH1, H1|exact H2].
  - split.
    + intros H. inversion H; subst;
        [apply MAltL, IH1|apply MAltR, IH2]; assumption.
    + intros H. inversion H; subst;
        [apply MAltL, IH1|apply MAltR, IH2]; assumption.
  - split.
    + intros H. inversion H as [| |? ? s1 s2 H1 H2| | | |]; subst.
      apply IH in H1. apply (MStarApp r (c :: s1) s2 H1 H2).
    + intros H. apply star_cons_inv in H as (s1 & s2 & -> & H1 & H2).
      apply MCat; [apply IH, H1|exact H2].
Qed.

(** [fullmatch r s] holds exactly when [s] is a word of [r]. *)
Lemma fullmatch_spec (r : re) (s : list N) :
  fullmatch r s = true ↔ matches r s.
Proof.
  revert r. induction s as [|c s IH]; intros r; simpl.
  - apply nullable_spec.
  - rewrite IH. apply deriv_spec.
Qed.

End Derivatives.

(** ** Lists *)

Lemma elem_of_List_filter {A} (f : A -> bool) (l : list A) (x : A) :
  x ∈ List.filter f l ↔ f x = true ∧ x ∈ l.
Proof.
  rewrite !list_elem_of_In, filter_In. tauto.
Qed.

(** ** The batch loop *)

Section BatchFacts.
Import EmailSender.
Variable self : sender.
Variable world : nat -> send_env.
Variable clock : nat -> Z -> option exn.
Variables cv_path applicant_name : list N.
Variable delay_seconds : Z.
Variable total_emails : nat.

Lemma send_application_email_returns env to_email company_name email_body :
  ∃ b, send_application_email self env to_email company_name email_body
         cv_path applicant_name = Ok b.
Proof.
  unfold send_application_email.
  destruct (_create_email_message _ _ _ _ _ _ _) as [msg|e]; simpl.
  - destruct (with_smtp _ _) as [[]|e]; simpl; [eauto|].
    destruct e; eauto.
  - destruct e; eauto.
Qed.

Lemma time_sleep_returns i secs st :
  sleep_returns (clock i) secs →
  time_sleep (clock i) secs st
  = (Ok tt, {| results := results st; trace := trace st ++ [EvSleep secs] |}).
Proof.
  intros [[Hlo Hhi] Hclock]. unfold time_sleep. rewrite Hclock.
  destruct (Z.ltb_spec sleep_max secs); [lia|].
  destruct (Z.ltb_spec secs (- sleep_max)); [unfold sleep_max in *; lia|].
  destruct (Z.ltb_spec secs 0); [lia|]. reflexivity.
Qed.

Lemma file_outcomes_nil r : file_outcomes [] r = r.
Proof.
  destruct r. unfold file_outcomes, sent_names, failed_names. simpl.
  rewrite !app_nil_r, !Nat.add_0_r. reflexivity.
Qed.

Lemma file_outcomes_cons o outs r :
  file_outcomes (o :: outs) r = file_outcomes outs (file_outcomes [o] r).
Proof.
  destruct o as [n b]. unfold file_outcomes, sent_names, failed_names. simpl.
  destruct b; simpl; rewrite ?app_nil_r, ?Nat.add_0_r, <- ?app_assoc; simpl;
    f_equal; try reflexivity; rewrite <- Nat.add_assoc; reflexivity.
Qed.

Lemma pause_returns i secs st :
  sleep_returns (clock i) secs →
  when (Z.of_nat i <? Z.of_nat total_emails - 1)%Z (time_sleep (clock i) secs) st
  = (Ok tt, {| results := results st;
               trace := trace st ++ pause total_emails i secs |}).
Proof.
  intros Hs. unfold when, pause.
  destruct (Z.of_nat i <? Z.of_nat total_emails - 1)%Z.
  - apply time_sleep_returns, Hs.
  - destruct st. unfold ret. simpl. rewrite app_nil_r. reflexivity.
Qed.

Hypothesis delay_ok : takes_delay clock delay_seconds.

Lemma iteration_spec i company_info email_body st :
  iteration self world clock cv_path applicant_name delay_seconds total_emails
            i company_info email_body st
  = (Ok tt,
     {| results :=
          file_outcomes
            [(name_of company_info,
              turn_sent self world cv_path applicant_name i company_info email_body)]
            (results st);
        trace :=
          trace st ++ turn_events self world cv_path applicant_name
                        delay_seconds total_emails i company_info email_body |}).
Proof.
  unfold iteration, try_catch, turn_events, turn_sent, name_of, recipient, getitem.
  destruct (company_info !! K_sirket_adi) as [company_name|] eqn:Hn; simpl.
  - destruct (company_info !! K_email) as [to_email|] eqn:He; simpl.
    + destruct (send_application_email_returns (world i) to_email company_name
                  email_body) as [b Hb].
      unfold bind, ret, lift, log. rewrite Hb.
      destruct b; unfold record_success, record_failed.
      all: rewrite pause_returns by apply delay_ok; simpl.
      all: unfold file_outcomes, sent_names, failed_names; simpl.
      all: rewrite ?app_nil_r, ?Nat.add_0_r, <- ?app_assoc; reflexivity.
    + unfold bind, ret, raise, record_failed.
      rewrite pause_returns by apply delay_ok; simpl.
      unfold file_outcomes, sent_names, failed_names; simpl.
      rewrite ?app_nil_r, ?Nat.add_0_r. reflexivity.
  - unfold bind, raise, record_failed.
    rewrite pause_returns by apply delay_ok; simpl.
    unfold file_outcomes, sent_names, failed_names; simpl.
    rewrite ?app_nil_r, ?Nat.add_0_r. reflexivity.
Qed.

Lemma loop_spec pairs : ∀ i st,
  loop self world clock cv_path applicant_name delay_seconds total_emails i
       pairs st
  = (Ok tt,
     {| results :=
          file_outcomes
            (outcomes self world cv_path applicant_name i pairs) (results st);
        trace :=
          trace st ++ events self world cv_path applicant_name delay_seconds
                        total_emails i pairs |}).
Proof.
  induction pairs as [|[company_info email_body] rest IH]; intros i st; simpl.
  - rewrite file_outcomes_nil, app_nil_r. destruct st; reflexivity.
  - unfold bind. rewrite iteration_spec, IH. simpl.
    rewrite <- file_outcomes_cons, <- app_assoc. reflexivity.
Qed.

End BatchFacts.

Section BatchTheorems.
Import EmailSender.
Variable self : sender.
Variable world : nat -> send_env.
Variables cv_path applicant_name : list N.

Lemma send_batch_emails_spec clock companies_data email_bodies delay_seconds :
  takes_delay clock delay_seconds →
  companies_data ≠ [] →
  send_batch_emails self world clock companies_data email_bodies cv_path
                    applicant_name delay_seconds
  = (Ok (file_outcomes
           (outcomes self world cv_path applicant_name 0
                     (zip companies_data email_bodies))
           empty_results),
     events self world cv_path applicant_name delay_seconds
            (length companies_data) 0 (zip companies_data email_bodies)
       ++ [EvRate (length (sent_names
                     (outcomes self world cv_path applicant_name 0
                               (zip companies_data email_bodies))))
                  (length companies_data)]).
Proof.
  intros Hd Hne. unfold send_batch_emails, bind.
  rewrite loop_spec by exact Hd. unfold summary. simpl.
  destruct companies_data as [|c cs]; [congruence|]. simpl.
  reflexivity.
Qed.

Lemma length_outcomes pairs : ∀ i,
  length (outcomes self world cv_path applicant_name i pairs) = length pairs.
Proof.
  induction pairs as [|[c b] rest IH]; intros i; simpl; [|rewrite IH]; reflexivity.
Qed.

Lemma outcomes_names pairs : ∀ i,
  (outcomes self world cv_path applicant_name i pairs).*1
  = name_of <$> pairs.*1.
Proof.
  induction pairs as [|[c b] rest IH]; intros i; simpl; [|rewrite IH]; reflexivity.
Qed.

Lemma outcomes_lookup pairs : ∀ i k c b,
  pairs !! k = Some (c, b) →
  outcomes self world cv_path applicant_name i pairs !! k
  = Some (name_of c, turn_sent self world cv_path applicant_name (i + k) c b).
Proof.
  induction pairs as [|[c0 b0] rest IH]; intros i k c b Hk; [done|].
  destruct k as [|k]; simpl in *.
  - inversion Hk; subst. rewrite Nat.add_0_r. reflexivity.
  - rewrite (IH (S i) k c b Hk).
    replace (S i + k) with (i + S k) by lia. reflexivity.
Qed.

End BatchTheorems.

Lemma sent_failed_length (outs : list (list N * bool)) :
  length (EmailSender.sent_names outs) + length (EmailSender.failed_names outs)
  = length outs.
Proof.
  unfold EmailSender.sent_names, EmailSender.failed_names.
  induction outs as [|[n b] outs IH]; simpl; [reflexivity|].
  rewrite !length_fmap in *.
  destruct b; simpl; lia.
Qed.

Lemma sent_failed_perm (outs : list (list N * bool)) :
  EmailSender.sent_names outs ++ EmailSender.failed_names outs ≡ₚ outs.*1.
Proof.
  unfold EmailSender.sent_names, EmailSender.failed_names.
  induction outs as [|[n b] outs IH]; simpl; [reflexivity|].
  destruct b; simpl.
  - constructor. exact IH.
  - rewrite <- Permutation_middle. constructor. exact IH.
Qed.

Lemma zip_fst_take {A B} (l : list A) : ∀ k : list B,
  (zip l k).*1 = take (length k) l.
Proof.
  induction l as [|a l IH]; intros [|b k]; simpl; try reflexivity.
  rewrite IH. reflexivity.
Qed.

Section TraceFacts.
Import EmailSender.
Variable self : sender.
Variable world : nat -> send_env.
Variables cv_path applicant_name : list N.
Variable delay_seconds : Z.
Variable total_emails : nat.

Local Abbreviation events_from := (events self world cv_path applicant_name
                                      delay_seconds total_emails).
Local Abbreviation turn_events_at := (turn_events self world cv_path applicant_name
                                              delay_seconds total_emails).

Lemma sends_app tr1 tr2 : sends (tr1 ++ tr2) = sends tr1 ++ sends tr2.
Proof. apply omap_app. Qed.

Lemma sleeps_app tr1 tr2 : sleeps (tr1 ++ tr2) = sleeps tr1 ++ sleeps tr2.
Proof. apply omap_app. Qed.

Lemma sends_pause i secs : sends (pause total_emails i secs) = [].
Proof. unfold pause. destruct (_ <? _)%Z; reflexivity. Qed.

Lemma sends_turn_events i c b :
  sends (turn_events_at i c b)
  = match recipient c with Some _ => [i] | None => [] end.
Proof.
  unfold turn_events. destruct (recipient c) as [[n e]|]; simpl.
  - unfold sends at 1. simpl. fold (sends (pause total_emails i delay_seconds)).
    rewrite sends_pause. reflexivity.
  - apply sends_pause.
Qed.

Lemma sleeps_turn_events i c b :
  sleeps (turn_events_at i c b)
  = if (Z.of_nat i <? Z.of_nat total_emails - 1)%Z
    then [delay_after delay_seconds c] else [].
Proof.
  unfold turn_events, delay_after, pause.
  destruct (recipient c) as [[n e]|]; destruct (_ <? _)%Z; reflexivity.
Qed.

Lemma sends_events_sublist pairs : ∀ i,
  sends (events_from i pairs) `sublist_of` seq i (length pairs).
Proof.
  induction pairs as [|[c b] rest IH]; intros i; simpl; [constructor|].
  rewrite sends_app, sends_turn_events.
  destruct (recipient c); simpl.
  - apply sublist_skip, IH.
  - apply sublist_cons, IH.
Qed.

Lemma sends_events_all pairs : ∀ i,
  Forall (fun p => is_Some (recipient p.1)) pairs →
  sends (events_from i pairs) = seq i (length pairs).
Proof.
  induction pairs as [|[c b] rest IH]; intros i Hall; simpl; [reflexivity|].
  apply Forall_cons in Hall as [[x Hc] Hall]. simpl in Hc.
  rewrite sends_app, sends_turn_events, Hc, IH by exact Hall. reflexivity.
Qed.

Lemma sends_events_elem pairs : ∀ i k c b,
  pairs !! k = Some (c, b) → is_Some (recipient c) →
  i + k ∈ sends (events_from i pairs).
Proof.
  induction pairs as [|[c0 b0] rest IH]; intros i k c b Hk Hc; [done|].
  simpl. rewrite sends_app, sends_turn_events.
  destruct k as [|k]; simpl in Hk.
  - inversion Hk; subst. destruct Hc as [x Hc]. rewrite Hc, Nat.add_0_r.
    apply elem_of_app. left. apply list_elem_of_singleton. reflexivity.
  - apply elem_of_app. right.
    replace (i + S k) with (S i + k) by lia. eapply IH; eassumption.
Qed.

Lemma events_send_inv pairs : ∀ i j to_email company_name email_body success,
  EvSend j to_email company_name email_body success ∈ events_from i pairs →
  ∃ c, i <= j ∧ pairs !! (j - i) = Some (c, email_body)
       ∧ recipient c = Some (company_name, to_email)
       ∧ success = turn_sent self world cv_path applicant_name j c email_body.
Proof.
  induction pairs as [|[c b] rest IH]; intros i j e n b' ok Hin; simpl in Hin.
  - apply elem_of_nil in Hin. contradiction.
  - apply elem_of_app in Hin as [Hin|Hin].
    + unfold turn_events, pause in Hin.
      destruct (recipient c) as [[n0 e0]|] eqn:Hc.
      * apply elem_of_cons in Hin as [Heq|Hin].
        -- inversion Heq; subst. exists c. rewrite Nat.sub_diag. simpl.
           repeat split; [lia|exact Hc].
        -- destruct (_ <? _)%Z; [|apply elem_of_nil in Hin; contradiction].
           apply list_elem_of_singleton in Hin. discriminate.
      * destruct (_ <? _)%Z; [|apply elem_of_nil in Hin; contradiction].
        apply list_elem_of_singleton in Hin. discriminate.
    + destruct (IH _ _ _ _ _ _ Hin) as (c' & Hle & Hk & Hc' & Hok).
      exists c'. split; [lia|]. split; [|split; assumption].
      replace (j - i) with (S (j - S i)) by lia. exact Hk.
Qed.

Lemma sleeps_events pairs : ∀ i,
  sleeps (events_from i pairs)
  = delay_after delay_seconds <$> take (total_emails - 1 - i) pairs.*1.
Proof.
  induction pairs as [|[c b] rest IH]; intros i; simpl.
  - rewrite take_nil. reflexivity.
  - rewrite sleeps_app, sleeps_turn_events, IH.
    destruct (Z.ltb_spec (Z.of_nat i) (Z.of_nat total_emails - 1)).
    + replace (total_emails - 1 - i) with (S (total_emails - 1 - S i)) by lia.
      reflexivity.
    + replace (total_emails - 1 - i) with 0 by lia.
      replace (total_emails - 1 - S i) with 0 by lia.
      rewrite take_0. reflexivity.
Qed.

End TraceFacts.

Section BatchClaims.
Import EmailSender.

(** C2 (as amended): a batch run with a delay on which [time.sleep]
    returns, for the delay and for its half, in every turn, over
    a non-empty [companies_data], returns a result in which
    [total_sent + total_failed] is the number of zipped pairs, the two
    counters are the lengths of the two sequences, the two sequences
    together hold the names of the attempted companies, each as often as it
    was attempted, and, when these names are pairwise different, every
    attempted name is in exactly one of the two sequences and the sequences
    are disjoint. *)
Theorem batch_result_invariant
    (self : sender) (world : nat -> send_env) (clock : nat -> Z -> option exn)
    (companies_data : list (gmap (list N) (list N))) (email_bodies : list (list N))
    (cv_path applicant_name : list N) (delay_seconds : Z) :
  takes_delay clock delay_seconds →
  companies_data ≠ [] →
  let attempted := name_of <$> take (length email_bodies) companies_data in
  ∃ r tr,
    send_batch_emails self world clock companies_data email_bodies cv_path
                      applicant_name delay_seconds = (Ok r, tr)
    ∧ total_sent r + total_failed r
      = min (length companies_data) (length email_bodies)
    ∧ total_sent r = length (successful r)
    ∧ total_failed r = length (failed r)
    ∧ successful r ++ failed r ≡ₚ attempted
    ∧ (NoDup attempted →
       (∀ x, x ∈ attempted →
             (x ∈ successful r ∧ x ∉ failed r) ∨ (x ∈ failed r ∧ x ∉ successful r))
       ∧ (∀ x, x ∈ successful r → x ∉ failed r)).
Proof.
  intros Hd Hne attempted.
  rewrite (send_batch_emails_spec self world cv_path applicant_name _ _ _ _ Hd Hne).
  set (outs := outcomes self world cv_path applicant_name 0
                 (zip companies_data email_bodies)).
  assert (Hnames : outs.*1 = attempted).
  { unfold outs, attempted. rewrite outcomes_names, zip_fst_take. reflexivity. }
  assert (Hperm : sent_names outs ++ failed_names outs ≡ₚ attempted).
  { rewrite <- Hnames. apply sent_failed_perm. }
  eexists _, _. split; [reflexivity|]. simpl.
  split.
  { rewrite sent_failed_length. unfold outs.
    rewrite length_outcomes, length_zip_with. reflexivity. }
  do 2 (split; [reflexivity|]).
  split; [exact Hperm|].
  intros Hnd. rewrite <- Hperm in Hnd. apply NoDup_app in Hnd as (_ & Hdisj & _).
  split; [|exact Hdisj].
  intros x Hx. rewrite <- Hperm in Hx. apply elem_of_app in Hx as [Hx|Hx].
  - left. split; [exact Hx|apply Hdisj, Hx].
  - right. split; [exact Hx|]. intros Hs. exact (Hdisj x Hs Hx).
Qed.

(** Witness of [batch_result_invariant]: three companies, the first send
    accepted and the others refused, thirty seconds between sends. *)
Lemma batch_result_invariant_witness :
  let attempted :=
    name_of <$> take (length Examples.bodies3) Examples.three_companies in
  ∃ r tr,
    send_batch_emails Examples.me Examples.first_ok Examples.clock_ok
                      Examples.three_companies Examples.bodies3 Examples.cv
                      Examples.applicant 30
    = (Ok r, tr)
    ∧ total_sent r + total_failed r
      = min (length Examples.three_companies) (length Examples.bodies3)
    ∧ total_sent r = length (successful r)
    ∧ total_failed r = length (failed r)
    ∧ successful r ++ failed r ≡ₚ attempted
    ∧ (NoDup attempted →
       (∀ x, x ∈ attempted →
             (x ∈ successful r ∧ x ∉ failed r) ∨ (x ∈ failed r ∧ x ∉ successful r))
       ∧ (∀ x, x ∈ successful r → x ∉ failed r)).
Proof.
  apply (batch_result_invariant Examples.me Examples.first_ok
           Examples.clock_ok Examples.three_companies Examples.bodies3
           Examples.cv Examples.applicant 30).
  - delay_taken.
  - discriminate.
Defined.

(** C2, counterexample: two contacts of one company, the first send
    accepted and the second refused.  The name is in [successful] and in
    [failed]. *)
Lemma batch_result_not_disjoint :
  send_batch_emails Examples.me Examples.first_ok Examples.clock_ok
                    Examples.two_contacts [u "Merhaba"; u "Merhaba"]
                    Examples.cv Examples.applicant 30
  = (Ok {| successful := [u "Acme"]; failed := [u "Acme"];
           total_sent := 1; total_failed := 1 |},
     [EvSend 0 (u "hr@acme.com") (u "Acme") (u "Merhaba") true;
      EvSleep 30;
      EvSend 1 (u "info@acme.com") (u "Acme") (u "Merhaba") false;
      EvRate 1 2]).
Proof. vm_compute. reflexivity. Qed.

End BatchClaims.

Section BatchClaims2.
Import EmailSender.

(** C5 (as amended): whatever the world does on each send (the relay
    refusing, the CV unreadable, a dictionary without a key), a batch over
    a non-empty [companies_data] with a delay on which [time.sleep]
    returns, for the delay and for its half, in every turn, returns its
    result; every zipped pair has its outcome filed, under [successful] when
    its send returned [True] and under [failed] otherwise; every pair with
    both keys has its send made; and the sends are made once each, in the
    order of the input. *)
Theorem batch_never_aborts
    (self : sender) (world : nat -> send_env) (clock : nat -> Z -> option exn)
    (companies_data : list (gmap (list N) (list N))) (email_bodies : list (list N))
    (cv_path applicant_name : list N) (delay_seconds : Z) :
  takes_delay clock delay_seconds →
  companies_data ≠ [] →
  let pairs := zip companies_data email_bodies in
  ∃ r tr,
    send_batch_emails self world clock companies_data email_bodies cv_path
                      applicant_name delay_seconds = (Ok r, tr)
    ∧ length (successful r) + length (failed r) = length pairs
    ∧ (∀ k company_info email_body,
         pairs !! k = Some (company_info, email_body) →
         (if turn_sent self world cv_path applicant_name k company_info email_body
          then name_of company_info ∈ successful r
          else name_of company_info ∈ failed r)
         ∧ (is_Some (recipient company_info) → k ∈ sends tr))
    ∧ sends tr `sublist_of` seq 0 (length pairs).
Proof.
  intros Hd Hne pairs.
  rewrite (send_batch_emails_spec self world cv_path applicant_name _ _ _ _ Hd Hne).
  fold pairs.
  set (outs := outcomes self world cv_path applicant_name 0 pairs).
  eexists _, _. split; [reflexivity|]. simpl.
  split.
  { rewrite sent_failed_length. apply length_outcomes. }
  split.
  - intros k c b Hk. split.
    + pose proof (outcomes_lookup self world cv_path applicant_name pairs 0 k c b Hk)
        as Hout.
      fold outs in Hout. simpl in Hout.
      apply list_elem_of_lookup_2 in Hout.
      unfold sent_names, failed_names.
      destruct (turn_sent self world cv_path applicant_name k c b) eqn:Hs.
      * apply list_elem_of_fmap. exists (name_of c, true). split; [reflexivity|].
        apply elem_of_List_filter. split; [reflexivity|exact Hout].
      * apply list_elem_of_fmap. exists (name_of c, false). split; [reflexivity|].
        apply elem_of_List_filter. split; [reflexivity|exact Hout].
    + intros Hc. rewrite sends_app. apply elem_of_app. left.
      apply (sends_events_elem self world cv_path applicant_name delay_seconds
               (length companies_data) pairs 0 k c b Hk Hc).
  - rewrite sends_app. simpl. rewrite app_nil_r. apply sends_events_sublist.
Qed.

(** Witness of [batch_never_aborts]: three companies, the second without an
    ['email'] key, every send refused by the relay. *)
Lemma batch_never_aborts_witness :
  let pairs := zip Examples.one_without_email Examples.bodies3 in
  ∃ r tr,
    send_batch_emails Examples.me (fun _ => Examples.env_refused)
                      Examples.clock_ok
                      Examples.one_without_email Examples.bodies3 Examples.cv
                      Examples.applicant 31 = (Ok r, tr)
    ∧ length (successful r) + length (failed r) = length pairs
    ∧ (∀ k company_info email_body,
         pairs !! k = Some (company_info, email_body) →
         (if turn_sent Examples.me (fun _ => Examples.env_refused) Examples.cv
                       Examples.applicant k company_info email_body
          then name_of company_info ∈ successful r
          else name_of company_info ∈ failed r)
         ∧ (is_Some (recipient company_info) → k ∈ sends tr))
    ∧ sends tr `sublist_of` seq 0 (length pairs).
Proof.
  apply (batch_never_aborts Examples.me (fun _ => Examples.env_refused)
           Examples.clock_ok
           Examples.one_without_email Examples.bodies3 Examples.cv
           Examples.applicant 31).
  - delay_taken.
  - discriminate.
Defined.

(** C5, counterexample: three companies, every send refused by the relay,
    and a delay of minus one second.  The first send fails, the sleep after
    it raises, the handler's sleep raises out of the call: no result is
    returned and the second and the third company are never worked on. *)
Lemma batch_aborts_after_failed_send :
  send_batch_emails Examples.me (fun _ => Examples.env_refused)
                    Examples.clock_ok Examples.three_companies
                    Examples.bodies3 Examples.cv Examples.applicant (-1)
  = (Raise ValueError,
     [EvSend 0 (u "hr@acme.com") (u "Acme") (u "Merhaba A") false]).
Proof. vm_compute. reflexivity. Qed.

(** C6 (as amended): in a batch over lists of one length, with a delay on
    which [time.sleep] returns, the trace is that of the turns, one after
    the other, followed by the logged rate, where a turn is its send (when
    both keys are there) followed by its sleep; there is one sleep after
    every turn but the last, of [delay_seconds] when the send was reached
    (accepted or refused alike) and of [delay_seconds // 2] when the turn
    raised before it. *)
Theorem batch_sleeps
    (self : sender) (world : nat -> send_env) (clock : nat -> Z -> option exn)
    (companies_data : list (gmap (list N) (list N))) (email_bodies : list (list N))
    (cv_path applicant_name : list N) (delay_seconds : Z) :
  takes_delay clock delay_seconds →
  companies_data ≠ [] →
  length companies_data = length email_bodies →
  ∃ r,
    send_batch_emails self world clock companies_data email_bodies cv_path
                      applicant_name delay_seconds
    = (Ok r,
       events self world cv_path applicant_name delay_seconds
              (length companies_data) 0 (zip companies_data email_bodies)
         ++ [EvRate (total_sent r) (length companies_data)])
    ∧ sleeps (send_batch_emails self world clock companies_data email_bodies
                                cv_path applicant_name delay_seconds).2
      = delay_after delay_seconds
          <$> take (length companies_data - 1) companies_data.
Proof.
  intros Hd Hne Hlen.
  rewrite (send_batch_emails_spec self world cv_path applicant_name _ _ _ _ Hd Hne).
  exists (file_outcomes
            (outcomes self world cv_path applicant_name 0
                      (zip companies_data email_bodies))
            empty_results).
  split; [reflexivity|]. simpl.
  rewrite sleeps_app, sleeps_events. simpl. rewrite app_nil_r, Nat.sub_0_r.
  rewrite zip_fst_take, take_take. f_equal. f_equal. lia.
Qed.

(** Witness of [batch_sleeps]: the three companies of the examples. *)
Lemma batch_sleeps_witness :
  ∃ r,
    send_batch_emails Examples.me Examples.first_ok Examples.clock_ok
                      Examples.three_companies Examples.bodies3 Examples.cv
                      Examples.applicant 30
    = (Ok r,
       events Examples.me Examples.first_ok Examples.cv Examples.applicant 30
              (length Examples.three_companies) 0
              (zip Examples.three_companies Examples.bodies3)
         ++ [EvRate (total_sent r) (length Examples.three_companies)])
    ∧ sleeps (send_batch_emails Examples.me Examples.first_ok Examples.clock_ok
                Examples.three_companies Examples.bodies3 Examples.cv
                Examples.applicant 30).2
      = delay_after 30
          <$> take (length Examples.three_companies - 1)
                   Examples.three_companies.
Proof.
  apply (batch_sleeps Examples.me Examples.first_ok Examples.clock_ok
           Examples.three_companies Examples.bodies3 Examples.cv
           Examples.applicant 30).
  - delay_taken.
  - discriminate.
  - reflexivity.
Defined.

(** C6, counterexample: three companies and three bodies, every send
    refused, the second dictionary without its ['email'] key; the three
    turns are filed as failed, the first is followed by a sleep of 31
    seconds and the second by one of 15. *)
Lemma batch_sleeps_not_as_claimed :
  send_batch_emails Examples.me (fun _ => Examples.env_refused)
                    Examples.clock_ok
                    Examples.one_without_email Examples.bodies3 Examples.cv
                    Examples.applicant 31
  = (Ok {| successful := []; failed := [u "Acme"; u "Bora"; u "Cem"];
           total_sent := 0; total_failed := 3 |},
     [EvSend 0 (u "hr@acme.com") (u "Acme") (u "Merhaba A") false;
      EvSleep 31;
      EvSleep 15;
      EvSend 2 (u "info@cem.com.tr") (u "Cem") (u "Merhaba C") false;
      EvRate 0 3]).
Proof. vm_compute. reflexivity. Qed.

(** C9 (as amended): a batch with a delay on which [time.sleep] returns,
    for the delay and for its half, in every turn, over a non-empty
    [companies_data], files [min(len(companies_data), len(email_bodies))]
    outcomes; a send of the trace with index [i] is that of the [i]-th
    dictionary with the [i]-th body, and the indices of the sends are indices
    of zipped pairs, in order; when every dictionary has both keys the sends
    are exactly those of indices [0 .. min - 1]; every filed name is that of
    one of the first [min] dictionaries; and the rate that is logged last
    divides [total_sent] by [len(companies_data)]. *)
Theorem batch_pairs_by_position
    (self : sender) (world : nat -> send_env) (clock : nat -> Z -> option exn)
    (companies_data : list (gmap (list N) (list N))) (email_bodies : list (list N))
    (cv_path applicant_name : list N) (delay_seconds : Z) :
  takes_delay clock delay_seconds →
  companies_data ≠ [] →
  let n := min (length companies_data) (length email_bodies) in
  ∃ r tr,
    send_batch_emails self world clock companies_data email_bodies cv_path
                      applicant_name delay_seconds = (Ok r, tr)
    ∧ length (successful r) + length (failed r) = n
    ∧ (∀ i to_email company_name email_body success,
         EvSend i to_email company_name email_body success ∈ tr →
         ∃ company_info,
           companies_data !! i = Some company_info
           ∧ email_bodies !! i = Some email_body
           ∧ company_info !! K_sirket_adi = Some company_name
           ∧ company_info !! K_email = Some to_email)
    ∧ sends tr `sublist_of` seq 0 n
    ∧ (Forall (fun c => is_Some (recipient c)) companies_data →
       sends tr = seq 0 n)
    ∧ (∀ x, x ∈ successful r ++ failed r →
            x ∈ name_of <$> take n companies_data)
    ∧ last tr = Some (EvRate (total_sent r) (length companies_data)).
Proof.
  intros Hd Hne n.
  rewrite (send_batch_emails_spec self world cv_path applicant_name _ _ _ _ Hd Hne).
  set (pairs := zip companies_data email_bodies).
  set (outs := outcomes self world cv_path applicant_name 0 pairs).
  assert (Hlen : length pairs = n) by apply length_zip_with.
  eexists _, _. split; [reflexivity|]. simpl.
  split.
  { rewrite sent_failed_length. unfold outs. rewrite length_outcomes. exact Hlen. }
  split.
  { intros i e nm b ok Hin. apply elem_of_app in Hin as [Hin|Hin].
    - apply events_send_inv in Hin as (c & _ & Hk & Hc & _).
      rewrite Nat.sub_0_r in Hk. unfold pairs in Hk.
      apply lookup_zip_with_Some in Hk as (c' & b' & Heq & Hci & Hbi).
      inversion Heq; subst. exists c'. split; [exact Hci|]. split; [exact Hbi|].
      unfold recipient in Hc.
      destruct (c' !! K_sirket_adi); [|discriminate].
      destruct (c' !! K_email); [|discriminate].
      inversion Hc; subst. split; reflexivity.
    - apply list_elem_of_singleton in Hin. discriminate. }
  split.
  { rewrite sends_app. simpl. rewrite app_nil_r, <- Hlen.
    apply sends_events_sublist. }
  split.
  { intros Hall. rewrite sends_app. simpl. rewrite app_nil_r, <- Hlen.
    apply sends_events_all. unfold pairs.
    apply Forall_forall. intros [c b] Hin.
    apply elem_of_zip_l in Hin. simpl.
    rewrite Forall_forall in Hall. apply Hall, Hin. }
  split.
  { intros x Hx.
    rewrite (sent_failed_perm outs) in Hx. unfold outs in Hx.
    rewrite outcomes_names in Hx. unfold pairs in Hx.
    rewrite zip_fst_take in Hx.
    replace (take n companies_data)
      with (take (length email_bodies) companies_data); [exact Hx|].
    unfold n. destruct (Nat.min_spec (length companies_data) (length email_bodies))
      as [[Hlt ->]|[Hle ->]]; [|reflexivity].
    rewrite !take_ge by lia. reflexivity. }
  rewrite last_snoc. reflexivity.
Qed.

(** Witness of [batch_pairs_by_position]: three companies and two bodies. *)
Lemma batch_pairs_by_position_witness :
  let n := min (length Examples.three_companies) 2 in
  ∃ r tr,
    send_batch_emails Examples.me Examples.first_ok Examples.clock_ok
                      Examples.three_companies
                      [u "Merhaba A"; u "Merhaba B"] Examples.cv
                      Examples.applicant 30 = (Ok r, tr)
    ∧ length (successful r) + length (failed r) = n
    ∧ (∀ i to_email company_name email_body success,
         EvSend i to_email company_name email_body success ∈ tr →
         ∃ company_info,
           Examples.three_companies !! i = Some company_info
           ∧ [u "Merhaba A"; u "Merhaba B"] !! i = Some email_body
           ∧ company_info !! K_sirket_adi = Some company_name
           ∧ company_info !! K_email = Some to_email)
    ∧ sends tr `sublist_of` seq 0 n
    ∧ (Forall (fun c => is_Some (recipient c)) Examples.three_companies →
       sends tr = seq 0 n)
    ∧ (∀ x, x ∈ successful r ++ failed r →
            x ∈ name_of <$> take n Examples.three_companies)
    ∧ last tr = Some (EvRate (total_sent r) (length Examples.three_companies)).
Proof.
  apply (batch_pairs_by_position Examples.me Examples.first_ok
           Examples.clock_ok
           Examples.three_companies [u "Merhaba A"; u "Merhaba B"] Examples.cv
           Examples.applicant 30).
  - delay_taken.
  - discriminate.
Defined.

(** The run of [batch_pairs_by_position_witness], evaluated: the third
    company is not attempted, and the rate is 1 of 3. *)
Example batch_three_companies_two_bodies :
  send_batch_emails Examples.me Examples.first_ok Examples.clock_ok
                      Examples.three_companies
                    [u "Merhaba A"; u "Merhaba B"] Examples.cv
                    Examples.applicant 30
  = (Ok {| successful := [u "Acme"]; failed := [u "Bora"];
           total_sent := 1; total_failed := 1 |},
     [EvSend 0 (u "hr@acme.com") (u "Acme") (u "Merhaba A") true;
      EvSleep 30;
      EvSend 1 (u "ik@bora.com.tr") (u "Bora") (u "Merhaba B") false;
      EvSleep 30;
      EvRate 1 3]).
Proof. vm_compute. reflexivity. Qed.

(** C9, counterexample: three companies, three bodies and a delay of minus
    one second.  One send is made, not three: the sleep after it raises
    inside the [try], the handler's sleep raises out of the call, and no
    rate is logged. *)
Lemma batch_attempts_fewer_than_min :
  min (length Examples.three_companies) (length Examples.bodies3) = 3
  ∧ send_batch_emails Examples.me Examples.first_ok Examples.clock_ok
                      Examples.three_companies Examples.bodies3 Examples.cv
                      Examples.applicant (-1)
    = (Raise ValueError,
       [EvSend 0 (u "hr@acme.com") (u "Acme") (u "Merhaba A") true]).
Proof. split; vm_compute; reflexivity. Qed.

End BatchClaims2.

(** ** The placeholder of the e-mail body *)

Section Placeholder.
(** A pattern [\[ inside \]] and a replacement without brackets that is no
    part of the inside. *)
Variables inside new : list N.
Hypothesis new_open : 91%N ∉ new.
Hypothesis new_close : 93%N ∉ new.
Hypothesis new_not_inside : contains new inside = false.

Local Abbreviation pat := (91%N :: inside ++ [93%N]).
#[local] Arguments N.eqb : simpl never.






End Placeholder.

Section PlaceholderClaim.
Import EmailSender.





End PlaceholderClaim.

(** ** One send, and the summary *)

Section SendClaims.
Import EmailSender.

(** The message is built unless its body cannot be encoded, or the CV is at
    a path that exists and cannot be read. *)
Lemma create_email_message_built
    (self : sender) (env : send_env)
    (to_email company_name email_body cv_path applicant_name : list N) :
  (∃ msg, _create_email_message self env to_email company_name email_body
            cv_path applicant_name = Ok msg)
  ↔ encodable (replace placeholder applicant_name email_body) = true
    ∧ (cv_path = [] ∨ path_exists env = false
       ∨ ∃ payload, read_cv env = Ok payload).
Proof.
  unfold _create_email_message, _attach_cv.
  destruct (encodable _); simpl.
  2:{ split; [intros [msg H]; discriminate|intros [H _]; discriminate]. }
  destruct (bool_decide_reflect (cv_path = [])) as [Hcv|Hcv]; simpl.
  - split; eauto.
  - destruct (path_exists env); simpl.
    + destruct (read_cv env) as [payload|e]; simpl.
      * split; eauto.
      * split.
        -- intros [msg H]. discriminate.
        -- intros [_ [H|[H|[p H]]]]; [contradiction|discriminate|discriminate].
    + split; eauto.
Qed.

(** C10 (as amended): [send_application_email] returns a boolean in every
    world: with a body that cannot be encoded, with the CV missing, with
    the CV unreadable, with any step of the SMTP session raising any
    exception.  The boolean is [True] exactly when the message was built
    and every step of the session, from the connection to its closing,
    returned. *)
Theorem send_application_email_total
    (self : sender) (env : send_env)
    (to_email company_name email_body cv_path applicant_name : list N) :
  ∃ b,
    send_application_email self env to_email company_name email_body
                           cv_path applicant_name = Ok b
    ∧ (b = true ↔
       encodable (replace placeholder applicant_name email_body) = true
       ∧ (cv_path = [] ∨ path_exists env = false
          ∨ ∃ payload, read_cv env = Ok payload)
       ∧ smtp_connect env = None ∧ smtp_starttls env = None
       ∧ smtp_login env = None ∧ smtp_sendmail env = None
       ∧ smtp_quit env = None).
Proof.
  pose proof (create_email_message_built self env to_email company_name
                email_body cv_path applicant_name) as Hbuilt.
  unfold send_application_email.
  destruct (_create_email_message _ _ _ _ _ _ _) as [msg|e]; simpl.
  - assert (Hb : encodable (replace placeholder applicant_name email_body) = true
                 ∧ (cv_path = [] ∨ path_exists env = false
                    ∨ ∃ payload, read_cv env = Ok payload))
      by (apply Hbuilt; eauto).
    destruct Hb as [Henc Hcv].
    unfold with_smtp, step.
    destruct (smtp_connect env) as [e1|]; simpl.
    { exists false. split; [destruct e1; reflexivity|].
      split; [discriminate|]. intros (_ & _ & H & _). discriminate. }
    destruct (smtp_starttls env) as [e2|]; simpl.
    { exists false. split.
      - destruct (smtp_quit env) as [e5|]; simpl;
          [destruct e5; reflexivity|destruct e2; reflexivity].
      - split; [discriminate|]. intros (_ & _ & _ & H & _). discriminate. }
    destruct (smtp_login env) as [e3|]; simpl.
    { exists false. split.
      - destruct (smtp_quit env) as [e5|]; simpl;
          [destruct e5; reflexivity|destruct e3; reflexivity].
      - split; [discriminate|]. intros (_ & _ & _ & _ & H & _). discriminate. }
    destruct (smtp_sendmail env) as [e4|]; simpl.
    { exists false. split.
      - destruct (smtp_quit env) as [e5|]; simpl;
          [destruct e5; reflexivity|destruct e4; reflexivity].
      - split; [discriminate|]. intros (_ & _ & _ & _ & _ & H & _). discriminate. }
    destruct (smtp_quit env) as [e5|]; simpl.
    { exists false. split; [destruct e5; reflexivity|].
      split; [discriminate|]. intros (_ & _ & _ & _ & _ & _ & H). discriminate. }
    exists true. split; [reflexivity|]. split; [|reflexivity].
    intros _. repeat split; try reflexivity; assumption.
  - exists false. split; [destruct e; reflexivity|].
    split; [discriminate|].
    intros (Henc & Hcv & _).
    destruct (proj2 Hbuilt (conj Henc Hcv)) as [msg Hmsg]. discriminate.
Qed.

(** C10, counterexample: the relay takes the message and answers the
    closing [QUIT] of the session with a code that is not 221.  The
    transmission is complete, every step up to [sendmail] returned, and
    [send_application_email] returns [False]. *)
Lemma send_application_email_false_after_sendmail :
  let env :=
    {| path_exists := true; read_cv := Ok [37; 80; 68; 70]%N;
       smtp_connect := None; smtp_starttls := None; smtp_login := None;
       smtp_sendmail := None; smtp_quit := Some SMTPResponseException |} in
  smtp_sendmail env = None
  ∧ send_application_email Examples.me env (u "hr@acme.com") (u "Acme")
                           (u "Merhaba") Examples.cv Examples.applicant
    = Ok false.
Proof. split; vm_compute; reflexivity. Qed.

(** A body with a lone surrogate cannot be encoded: no session is opened
    and [False] is returned. *)
Example send_application_email_surrogate :
  send_application_email Examples.me Examples.env_ok (u "hr@acme.com")
                         (u "Acme") [77; 55357]%N Examples.cv Examples.applicant
  = Ok false.
Proof. vm_compute. reflexivity. Qed.

(** The three worlds of the examples: a send that goes through, a
    recipient the relay refuses, and a missing CV, with which the message
    leaves without its attachment. *)
Example send_application_email_examples :
  send_application_email Examples.me Examples.env_ok (u "hr@acme.com")
                         (u "Acme") (u "Merhaba") Examples.cv Examples.applicant
  = Ok true
  ∧ send_application_email Examples.me Examples.env_refused (u "hr@acme.com")
                           (u "Acme") (u "Merhaba") Examples.cv Examples.applicant
    = Ok false
  ∧ send_application_email Examples.me Examples.env_no_cv (u "hr@acme.com")
                           (u "Acme") (u "Merhaba") Examples.cv Examples.applicant
    = Ok true.
Proof. repeat split; vm_compute; reflexivity. Qed.

End SendClaims.

Section SummaryClaims.
Import EmailSender InternshipAutomation.

(** C3 (as amended): [save_results] has no guard of its own.  For results
    with [total_sent + total_failed] other than zero it writes the whole
    report, with the rate [total_sent / (total_sent + total_failed) * 100],
    and logs nothing; for results with both counters at zero the division
    raises [ZeroDivisionError] inside the [try], the handler logs it, no
    exception leaves [save_results], and the report stops after the two
    lines of totals. *)
Theorem save_results_rate (now : list N) (results : BatchResult) :
  save_results now results
  = if (total_sent results + total_failed results =? 0)%nat
    then ([LTitle; LRule 50; LDate now; LTotalSent (total_sent results);
           LTotalFailed (total_failed results)],
          Some ZeroDivisionError)
    else ([LTitle; LRule 50; LDate now; LTotalSent (total_sent results);
           LTotalFailed (total_failed results);
           LRate (total_sent results)
                 (total_sent results + total_failed results);
           LSuccessfulHeader; LRule 30]
            ++ (LSuccessful <$> successful results)
            ++ [LFailedHeader; LRule 30]
            ++ (LFailed <$> failed results),
          None).
Proof.
  unfold save_results, truediv.
  destruct (total_sent results + total_failed results =? 0)%nat; reflexivity.
Qed.

(** C3, counterexample: on the results of a batch without a send the
    report ends before its rate, and the handler has a [ZeroDivisionError]
    to log. *)
Lemma save_results_divides_by_zero :
  save_results (u "2025-01-01 12:00:00") empty_results
  = ([LTitle; LRule 50; LDate (u "2025-01-01 12:00:00"); LTotalSent 0;
      LTotalFailed 0],
     Some ZeroDivisionError).
Proof. vm_compute. reflexivity. Qed.

(** The rate logged at the end of [send_batch_emails] divides by
    [len(companies_data)], and there the exception leaves the call. *)
Example send_batch_emails_empty :
  send_batch_emails Examples.me Examples.first_ok Examples.clock_ok [] []
                    Examples.cv Examples.applicant 30
  = (Raise ZeroDivisionError, []).
Proof. vm_compute. reflexivity. Qed.

(** After a batch that had a pair to work on, the counters are not both
    zero and the report is written whole: this is where the flow of
    [send_emails], which returns early on nothing to send, keeps the division
    from its zero. *)
Lemma save_results_after_batch
    (self : sender) (world : nat -> send_env) (clock : nat -> Z -> option exn)
    (companies_data : list (gmap (list N) (list N))) (email_bodies : list (list N))
    (cv_path applicant_name now : list N) (delay_seconds : Z) :
  takes_delay clock delay_seconds →
  companies_data ≠ [] → email_bodies ≠ [] →
  ∃ r tr,
    send_batch_emails self world clock companies_data email_bodies cv_path
                      applicant_name delay_seconds = (Ok r, tr)
    ∧ total_sent r + total_failed r ≠ 0
    ∧ (save_results now r).2 = None.
Proof.
  intros Hd Hc Hb.
  rewrite (send_batch_emails_spec self world cv_path applicant_name _ _ _ _ Hd Hc).
  eexists _, _. split; [reflexivity|].
  assert (Hpos : total_sent
                   (file_outcomes
                      (outcomes self world cv_path applicant_name 0
                                (zip companies_data email_bodies))
                      empty_results)
                 + total_failed
                     (file_outcomes
                        (outcomes self world cv_path applicant_name 0
                                  (zip companies_data email_bodies))
                        empty_results) ≠ 0).
  { simpl. rewrite sent_failed_length, length_outcomes, length_zip_with.
    destruct companies_data; [congruence|].
    destruct email_bodies; [congruence|]. simpl. lia. }
  split; [exact Hpos|].
  unfold save_results, truediv.
  destruct (Nat.eqb_spec
              (total_sent
                 (file_outcomes
                    (outcomes self world cv_path applicant_name 0
                              (zip companies_data email_bodies))
                    empty_results)
               + total_failed
                   (file_outcomes
                      (outcomes self world cv_path applicant_name 0
                                (zip companies_data email_bodies))
                      empty_results)) 0); [contradiction|reflexivity].
Qed.

End SummaryClaims.

(** ** The readers *)

Section StaticReader.
Import Static.
Variable lower : list N -> list N.

Lemma read_rows_sendable (rows : list (gmap (option (list N)) pyval)) :
  match read_rows lower rows with
  | Ok sirketler => Forall (sendable lower) sirketler
  | Raise _ => True
  end.
Proof.
  induction rows as [|row rest IH]; simpl; [constructor|].
  destruct (get_strip row K_sirket_adi) as [name|]; simpl; [|exact I].
  destruct (bool_decide (name = [])); [exact IH|].
  destruct (get_strip row K_adres) as [a|]; simpl; [|exact I].
  destruct (get_strip row K_numara) as [n|]; simpl; [|exact I].
  destruct (get_strip row K_web_sitesi) as [w|]; simpl; [|exact I].
  destruct (get_strip row K_mail) as [m|]; simpl; [|exact I].
  destruct (get_strip row K_durum) as [d|]; simpl; [|exact I].
  destruct (get_strip row K_notlar) as [nt|]; simpl; [|exact I].
  destruct (bool_decide_reflect (m = [])) as [Hm|Hm]; simpl; [exact IH|].
  destruct (bool_decide_reflect (m ∈ placeholders)) as [Hp|Hp]; simpl; [exact IH|].
  destruct (already_sent lower d) eqn:Hd; [exact IH|].
  destruct (read_rows lower rest) as [sirketler|]; simpl; [|exact I].
  constructor; [|exact IH].
  unfold sendable. simpl. auto.
Qed.

Lemma csv_dosyasini_oku_sendable (store : csv_store) :
  match csv_dosyasini_oku lower store with
  | Ok sirketler => Forall (sendable lower) sirketler
  | Raise e => e = SystemExit1
  end.
Proof.
  unfold csv_dosyasini_oku.
  pose proof (read_rows_sendable (DictReader store)) as H.
  destruct (read_rows lower (DictReader store)); simpl; [exact H|reflexivity].
Qed.

(** *** The reader returns on records that are not short *)

Lemma dict_zip_text_valued (fieldnames row : list (list N)) :
  text_valued (dict_zip fieldnames row).
Proof.
  unfold dict_zip.
  assert (H : ∀ (l : list (list N * list N)) (d : gmap (option (list N)) pyval),
             text_valued d →
             text_valued (foldl (fun d kv => <[Some kv.1 := VStr kv.2]> d) d l)).
  { induction l as [|[k v] l IH]; intros d Hd; simpl; [exact Hd|].
    apply IH. intros key v' Hl.
    destruct (decide (k = key)) as [->|Hne].
    - rewrite lookup_insert_eq in Hl. inversion Hl. eauto.
    - rewrite lookup_insert_ne in Hl by congruence. eapply Hd, Hl. }
  apply H. intros key v Hl. rewrite lookup_empty in Hl. discriminate.
Qed.

Lemma DictReader_row_text_valued (fieldnames row : list (list N)) :
  length fieldnames <= length row →
  text_valued (DictReader_row fieldnames row).
Proof.
  intros Hlen. unfold DictReader_row.
  destruct (Nat.ltb_spec (length fieldnames) (length row)).
  - intros key v Hl. rewrite lookup_insert_ne in Hl by discriminate.
    eapply dict_zip_text_valued, Hl.
  - destruct (Nat.ltb_spec (length row) (length fieldnames)); [lia|].
    apply dict_zip_text_valued.
Qed.

Lemma get_strip_returns (d : gmap (option (list N)) pyval) (key : list N) :
  text_valued d → ∃ s, get_strip d key = Ok s.
Proof.
  intros Hd. unfold get_strip.
  destruct (d !! Some key) as [v|] eqn:Hl; simpl; [|eauto].
  destruct (Hd key v Hl) as [s ->]. eauto.
Qed.

Lemma read_rows_returns (rows : list (gmap (option (list N)) pyval)) :
  Forall text_valued rows → ∃ sirketler, read_rows lower rows = Ok sirketler.
Proof.
  induction rows as [|row rest IH]; intros Hall; simpl; [eauto|].
  apply Forall_cons in Hall as [Hrow Hall]. specialize (IH Hall).
  destruct (get_strip_returns row K_sirket_adi Hrow) as [name ->]; simpl.
  destruct (bool_decide (name = [])); [exact IH|].
  destruct (get_strip_returns row K_adres Hrow) as [a ->]; simpl.
  destruct (get_strip_returns row K_numara Hrow) as [n ->]; simpl.
  destruct (get_strip_returns row K_web_sitesi Hrow) as [w ->]; simpl.
  destruct (get_strip_returns row K_mail Hrow) as [m ->]; simpl.
  destruct (get_strip_returns row K_durum Hrow) as [d ->]; simpl.
  destruct (get_strip_returns row K_notlar Hrow) as [nt ->]; simpl.
  destruct (_ || _); [exact IH|].
  destruct (already_sent lower d); [exact IH|].
  destruct IH as [sirketler ->]. simpl. eauto.
Qed.

Lemma csv_dosyasini_oku_returns (store : csv_store) :
  Forall (fun r => length (header store) <= length r) (records store) →
  ∃ sirketler, csv_dosyasini_oku lower store = Ok sirketler.
Proof.
  intros Hall. unfold csv_dosyasini_oku.
  destruct (read_rows_returns (DictReader store)) as [sirketler ->]; [|simpl; eauto].
  unfold DictReader. apply Forall_fmap.
  apply Forall_forall. intros r Hr. simpl.
  apply elem_of_List_filter in Hr as [_ Hr].
  apply DictReader_row_text_valued.
  rewrite Forall_forall in Hall. apply Hall, Hr.
Qed.

End StaticReader.

Section FrameReader.
Import DataProcessor.

Lemma drop_duplicates_subseteq (df : list row) : ∀ seen r,
  r ∈ drop_duplicates seen df → r ∈ df.
Proof.
  induction df as [|r0 rest IH]; intros seen r Hr; simpl in Hr; [exact Hr|].
  destruct (bool_decide (mail r0 ∈ seen)).
  - right. eapply IH, Hr.
  - apply elem_of_cons in Hr as [->|Hr]; [left|right; eapply IH, Hr].
Qed.

Lemma drop_duplicates_NoDup (df : list row) : ∀ seen,
  NoDup (mail <$> drop_duplicates seen df)
  ∧ ∀ m, m ∈ seen → m ∉ mail <$> drop_duplicates seen df.
Proof.
  induction df as [|r rest IH]; intros seen; simpl.
  - split; [constructor|]. intros m _ H. apply elem_of_nil in H. exact H.
  - destruct (bool_decide_reflect (mail r ∈ seen)) as [Hin|Hnin].
    + apply IH.
    + destruct (IH (mail r :: seen)) as [Hnd Hseen]. simpl. split.
      * constructor; [|exact Hnd]. apply Hseen. left.
      * intros m Hm Hin. apply elem_of_cons in Hin as [->|Hin].
        -- contradiction.
        -- apply (Hseen m); [right; exact Hm|exact Hin].
Qed.

Lemma valid_email_not_placeholder (e : list N) :
  Re.fullmatch Re.email_pattern e = true → e ∉ Static.placeholders.
Proof.
  intros Hm Hin. unfold Static.placeholders in Hin.
  apply elem_of_cons in Hin as [->|Hin]; [vm_compute in Hm; discriminate|].
  apply list_elem_of_singleton in Hin as ->. vm_compute in Hm. discriminate.
Qed.

Lemma clean_data_rows (df : list row) :
  Forall (fun r => ∃ e, mail r = Some e ∧ e ≠ []
                        ∧ Re.fullmatch Re.email_pattern e = true
                        ∧ (e ∉ Static.placeholders))
         (_clean_data df)
  ∧ NoDup (mail <$> _clean_data df).
Proof.
  unfold _clean_data. split; [|apply drop_duplicates_NoDup].
  apply Forall_forall. intros r Hr.
  apply drop_duplicates_subseteq in Hr.
  unfold _validate_emails in Hr. apply elem_of_List_filter in Hr as [Hv _].
  unfold is_valid_email in Hv.
  destruct (mail r) as [e|]; [|discriminate].
  destruct (bool_decide_reflect (e = [])) as [He|He]; [discriminate|].
  exists e. repeat split; try assumption.
  apply valid_email_not_placeholder, Hv.
Qed.

End FrameReader.

(** C1 (as amended): the two readers keep what each of them tests.  The
    reader of the static variant, [csv_dosyasini_oku], returns only rows with
    a non-empty e-mail that is none of the placeholders and whose status,
    when not empty, has no ['gönderildi'] in its lower-case form (or it ends
    the process); it does not look for duplicates.  The reader of the
    generative variant, [_clean_data], returns only rows whose e-mail is
    present, not empty, of the shape of an address (so none of the
    placeholders), and no two rows with one e-mail; it does not read the
    status. *)
Theorem readers_sendable_set (lower : list N -> list N) :
  (∀ store,
     match Static.csv_dosyasini_oku lower store with
     | Ok sirketler => Forall (Static.sendable lower) sirketler
     | Raise e => e = SystemExit1
     end)
  ∧ (∀ df,
       Forall (fun r => ∃ e, DataProcessor.mail r = Some e ∧ e ≠ []
                             ∧ Re.fullmatch Re.email_pattern e = true
                             ∧ (e ∉ Static.placeholders))
              (DataProcessor._clean_data df)
       ∧ NoDup (DataProcessor.mail <$> DataProcessor._clean_data df)).
Proof.
  split.
  - apply csv_dosyasini_oku_sendable.
  - apply clean_data_rows.
Qed.

(** C1, counterexample: from the companies file of the examples the static
    reader returns the two rows of the address [hr@acme.com]. *)
Lemma static_reader_keeps_duplicates :
  ∃ a b,
    Static.csv_dosyasini_oku lower_latin Examples.companies_file = Ok [a; b]
    ∧ Static.sirket_adi a = u "Acme"
    ∧ Static.sirket_adi b = u "Acme Ar-Ge"
    ∧ Static.mail a = u "hr@acme.com"
    ∧ Static.mail b = u "hr@acme.com".
Proof.
  eexists _, _. split; [vm_compute; reflexivity|].
  repeat split; vm_compute; reflexivity.
Qed.

(** The generative reader on the frame of the examples: the first row stays
    although its status says sent, the second goes as a duplicate of its
    address, the third for its placeholder. *)
Example clean_data_keeps_sent :
  DataProcessor._clean_data Examples.frame
  = [ {| DataProcessor.sirket_adi := Some (u "Acme");
         DataProcessor.adres := None; DataProcessor.numara := None;
         DataProcessor.web_sitesi := Some (u "acme.com");
         DataProcessor.mail := Some (u "hr@acme.com");
         DataProcessor.durum := Some (u "Sent");
         DataProcessor.notlar := None |} ].
Proof. vm_compute. reflexivity. Qed.

(** ** The status update *)

Section StatusUpdate.
Import Static.
Variables sirket_adi durum : list N.

Lemma set_durum_record (a b c d e f g : list N) :
  ∃ row,
    set_durum sirket_adi durum (DictReader_row fieldnames [a; b; c; d; e; f; g])
    = Ok row
    ∧ wrong_fields row = false
    ∧ _dict_to_list row = with_durum sirket_adi durum [a; b; c; d; e; f; g].
Proof.
  unfold set_durum, get_strip, with_durum.
  assert (Hname : DictReader_row fieldnames [a; b; c; d; e; f; g]
                    !! Some K_sirket_adi = Some (VStr a))
    by (vm_compute; reflexivity).
  rewrite Hname. simpl.
  destruct (bool_decide (strip a = sirket_adi)).
  - eexists. split; [reflexivity|]. split; vm_compute; reflexivity.
  - eexists. split; [reflexivity|]. split; vm_compute; reflexivity.
Qed.

Lemma update_records (records : list (list (list N))) :
  Forall (fun r => length r = 7) records →
  ∃ veriler,
    mapM (set_durum sirket_adi durum)
         (map (DictReader_row fieldnames)
              (List.filter (fun r => negb (bool_decide (r = []))) records))
    = Ok veriler
    ∧ writerows veriler = with_durum sirket_adi durum <$> records.
Proof.
  induction records as [|r rest IH]; intros Hall.
  - exists []. split; reflexivity.
  - apply Forall_cons in Hall as [Hr Hall].
    destruct (IH Hall) as (veriler & Hm & Hw).
    destruct r as [|a [|b [|c [|d [|e [|f [|g [|h r]]]]]]]]; try discriminate.
    destruct (set_durum_record a b c d e f g) as (row & Hrow & Hwrong & Hlist).
    exists (row :: veriler). split.
    + simpl List.filter. simpl map. simpl mapM.
      rewrite Hrow. simpl. rewrite Hm. reflexivity.
    + simpl. rewrite Hwrong, Hlist, Hw. reflexivity.
Qed.

End StatusUpdate.

(** C8 (as amended): on a companies file whose header is the seven columns
    [Şirket Adı, Adres, Numara, Web Sitesi, Mail, Durum, Notlar] in this
    order and whose records have seven fields each, [csv_durumunu_guncelle]
    keeps the header, the number and the order of the records, leaves every
    record whose stripped name is not the key as it is, and changes nothing
    but the sixth field, the status, of the records whose stripped name is
    the key. *)
Theorem csv_durumunu_guncelle_frame
    (store : Static.csv_store) (sirket_adi durum : list N) :
  Static.header store = Static.fieldnames →
  Forall (fun r => length r = 7) (Static.records store) →
  Static.csv_durumunu_guncelle store sirket_adi durum
  = {| Static.header := Static.header store;
       Static.records :=
         Static.with_durum sirket_adi durum <$> Static.records store |}.
Proof.
  intros Hh Hall. unfold Static.csv_durumunu_guncelle, Static.DictReader.
  rewrite Hh.
  destruct (update_records sirket_adi durum (Static.records store) Hall)
    as (veriler & Hm & Hw).
  rewrite Hm, Hw. reflexivity.
Qed.

(** Witness of [csv_durumunu_guncelle_frame]: the companies file of the
    examples, updated for [Acme]. *)
Lemma csv_durumunu_guncelle_frame_witness :
  Static.csv_durumunu_guncelle Examples.companies_file (u "Acme")
                               (u "Turkce mail gönderildi")
  = {| Static.header := Static.header Examples.companies_file;
       Static.records :=
         Static.with_durum (u "Acme") (u "Turkce mail gönderildi")
           <$> Static.records Examples.companies_file |}.
Proof.
  apply (csv_durumunu_guncelle_frame Examples.companies_file (u "Acme")
           (u "Turkce mail gönderildi")).
  - reflexivity.
  - repeat constructor.
Defined.

(** C8, counterexample: a file with the columns [Mail, Şirket Adı, Durum].
    After the update for [Acme] the header is the fixed one of seven columns
    and every record, the one of [Bora] too, has its fields in that
    order. *)
Lemma csv_durumunu_guncelle_reorders :
  Static.header Examples.reordered_file = [u "Mail"; u "Şirket Adı"; u "Durum"]
  ∧ Static.records Examples.reordered_file
    = [ [u "hr@acme.com"; u "Acme"; u ""];
        [u "ik@bora.com.tr"; u "Bora"; u ""] ]
  ∧ Static.csv_durumunu_guncelle Examples.reordered_file (u "Acme")
                                 (u "Turkce mail gönderildi")
    = {| Static.header :=
           [u "Şirket Adı"; u "Adres"; u "Numara"; u "Web Sitesi"; u "Mail";
            u "Durum"; u "Notlar"];
         Static.records :=
           [ [u "Acme"; u ""; u ""; u ""; u "hr@acme.com";
              u "Turkce mail gönderildi"; u ""];
             [u "Bora"; u ""; u ""; u ""; u "ik@bora.com.tr"; u ""; u ""] ] |}.
Proof. repeat split; vm_compute; reflexivity. Qed.

(** ** The cleanup of the generated text *)

Section Strip.

Lemma lstrip_suffix (s : list N) : ∃ w, s = w ++ lstrip s.
Proof.
  induction s as [|c t [w IH]]; simpl; [exists []; reflexivity|].
  destruct (isspace c).
  - exists (c :: w). simpl. rewrite <- IH. reflexivity.
  - exists []. reflexivity.
Qed.

Lemma rstrip_prefix (s : list N) : ∃ w, s = rstrip s ++ w.
Proof.
  unfold rstrip. destruct (lstrip_suffix (rev s)) as [w Hw].
  exists (rev w). rewrite <- rev_app_distr, <- Hw, rev_involutive. reflexivity.
Qed.

Lemma contains_strip (p s : list N) :
  contains p (strip s) = true → contains p s = true.
Proof.
  intros H. apply contains_spec in H as (l & r & H).
  unfold strip in H.
  destruct (lstrip_suffix s) as [w1 H1].
  destruct (rstrip_prefix (lstrip s)) as [w2 H2].
  apply contains_spec. exists (w1 ++ l), (r ++ w2).
  rewrite H1 at 1. rewrite H2 at 1. rewrite H.
  rewrite <- !app_assoc. reflexivity.
Qed.

Lemma strip_lstrip_nil (s : list N) : lstrip s = [] → strip s = [].
Proof. unfold strip, rstrip. intros ->. reflexivity. Qed.

Lemma split_no_sep (sep : N) (s : list N) :
  Forall (fun l => sep ∉ l) (split sep s).
Proof.
  induction s as [|c t IH]; simpl.
  - constructor; [|constructor]. intros H. apply elem_of_nil in H. exact H.
  - destruct (N.eqb_spec c sep) as [->|Hne].
    + constructor; [|exact IH]. intros H. apply elem_of_nil in H. exact H.
    + destruct (split sep t) as [|l ls].
      * constructor; [|constructor]. intros H.
        apply list_elem_of_singleton in H. congruence.
      * apply Forall_cons in IH as [Hl Hls]. constructor; [|exact Hls].
        intros H. apply elem_of_cons in H as [H|H]; [congruence|contradiction].
Qed.

Lemma join_cons_app (sep l : list N) (rest : list (list N)) :
  ∃ Y, join sep (l :: rest) = l ++ Y.
Proof.
  destruct rest as [|l' rest]; simpl.
  - exists []. rewrite app_nil_r. reflexivity.
  - eauto.
Qed.

End Strip.

Section BlankLines.
Import Re.
#[local] Arguments N.eqb : simpl never.

Lemma ws_then_nl_line (l X : list N) :
  strip l ≠ [] → (NL ∉ l) → ws_then_nl (l ++ X) = None.
Proof.
  intros Hs Hn.
  assert (Hl : lstrip l ≠ []) by (intros H; apply Hs, strip_lstrip_nil, H).
  clear Hs. induction l as [|c t IH]; [contradiction|].
  simpl app. simpl. simpl in Hl.
  destruct (isspace c); [|reflexivity].
  rewrite IH; [| |exact Hl].
  - destruct (N.eqb_spec c NL) as [->|Hne]; [|reflexivity].
    exfalso. apply Hn. left.
  - intros H. apply Hn. right. exact H.
Qed.

Lemma sub_blank_no_match (s : list N) :
  no_match s = true → sub_blank_lines s = s.
Proof.
  unfold sub_blank_lines. induction s as [|c t IH]; intros H; [reflexivity|].
  simpl in H. apply andb_true_iff in H as [Hc Ht]. simpl.
  destruct (c =? NL)%N.
  - apply negb_true_iff, bool_decide_eq_false in Hc.
    destruct (ws_then_nl t) as [k|]; [exfalso; apply Hc; eauto|].
    rewrite IH by exact Ht. reflexivity.
  - rewrite IH by exact Ht. reflexivity.
Qed.

Lemma no_match_line (l : list N) : (NL ∉ l) → no_match l = true.
Proof.
  induction l as [|c t IH]; intros Hn; [reflexivity|]. simpl.
  destruct (N.eqb_spec c NL) as [->|Hne]; [exfalso; apply Hn; left|].
  apply IH. intros H. apply Hn. right. exact H.
Qed.

Lemma no_match_app_line (l X : list N) :
  (NL ∉ l) → no_match (l ++ X) = no_match X.
Proof.
  induction l as [|c t IH]; intros Hn; [reflexivity|]. simpl.
  destruct (N.eqb_spec c NL) as [->|Hne]; [exfalso; apply Hn; left|].
  apply IH. intros H. apply Hn. right. exact H.
Qed.

Lemma no_match_join (ls : list (list N)) :
  Forall good_line ls → no_match (join [NL] ls) = true.
Proof.
  induction ls as [|l rest IH]; intros Hall; [reflexivity|].
  apply Forall_cons in Hall as [[Hs Hn] Hall].
  destruct rest as [|l' rest]; [apply no_match_line, Hn|].
  change (join [NL] (l :: l' :: rest))
    with (l ++ NL :: join [NL] (l' :: rest)).
  rewrite no_match_app_line by exact Hn.
  specialize (IH Hall).
  destruct (join_cons_app [NL] l' rest) as [Y HY].
  apply Forall_cons in Hall as [[Hs' Hn'] _].
  remember (join [NL] (l' :: rest)) as J eqn:HJ.
  change (no_match (NL :: J))
    with ((if (NL =? NL)%N
           then negb (bool_decide (is_Some (ws_then_nl J))) else true)
          && no_match J).
  rewrite IH, andb_true_r, N.eqb_refl, HY, ws_then_nl_line by assumption.
  apply negb_true_iff, bool_decide_eq_false. intros [k Hk]. discriminate.
Qed.

Lemma no_match_no_blank_line (s : list N) :
  no_match s = true → contains [NL; NL] s = false.
Proof.
  induction s as [|c t IH]; intros H; [reflexivity|].
  simpl in H. apply andb_true_iff in H as [Hc Ht].
  rewrite contains_cons, (IH Ht), orb_false_r.
  destruct t as [|c' t'].
  - simpl. apply andb_false_r.
  - simpl. rewrite andb_true_r.
    destruct (N.eqb_spec NL c) as [<-|Hne]; [|reflexivity].
    destruct (N.eqb_spec NL c') as [<-|Hne']; [|reflexivity].
    exfalso. rewrite N.eqb_refl in Hc.
    apply negb_true_iff, bool_decide_eq_false in Hc. apply Hc.
    simpl. destruct (ws_then_nl t'); eauto.
Qed.

End BlankLines.

Section CleanResponse.
Import LLMManager.
Variable lower : list N -> list N.

(** What [_clean_response] does on every text: the lines that stay are the
    lines of the stripped text that have no label in their lower-case form and
    are not blank; the substitution of the blank lines finds nothing to
    replace; and the result has no blank line at all. *)
Lemma clean_response_lines (response : list N) :
  let kept := List.filter (keeps lower) (split NL (strip response)) in
  _clean_response lower response = strip (join [NL] kept)
  ∧ Forall (fun l => should_skip lower l = false ∧ strip l ≠ [] ∧ (NL ∉ l)) kept
  ∧ contains [NL; NL] (_clean_response lower response) = false.
Proof.
  intros kept.
  assert (Hkept : Forall (fun l => should_skip lower l = false ∧ strip l ≠ []
                                   ∧ (NL ∉ l)) kept).
  { apply Forall_forall. intros l Hl.
    apply elem_of_List_filter in Hl as [Hk Hl].
    unfold keeps in Hk. apply andb_true_iff in Hk as [H1 H2].
    apply negb_true_iff in H1.
    apply negb_true_iff, bool_decide_eq_false in H2.
    pose proof (split_no_sep NL (strip response)) as Hsep.
    rewrite Forall_forall in Hsep. auto. }
  assert (Hnm : Re.no_match (join [NL] kept) = true).
  { apply no_match_join. eapply Forall_impl; [exact Hkept|].
    intros l (_ & H2 & H3). split; assumption. }
  assert (Hout : _clean_response lower response = strip (join [NL] kept)).
  { unfold _clean_response. fold kept.
    rewrite sub_blank_no_match by exact Hnm. reflexivity. }
  split; [exact Hout|]. split; [exact Hkept|].
  rewrite Hout.
  destruct (contains [NL; NL] (strip (join [NL] kept))) eqn:E; [|reflexivity].
  apply contains_strip in E.
  rewrite (no_match_no_blank_line _ Hnm) in E. discriminate.
Qed.

End CleanResponse.

(** C4, at the failing input: the generated text of three paragraphs, one
    blank line between them, comes out of [_clean_response] without any
    blank line; the claim has one blank line for each run. *)
Theorem clean_response_drops_blank_lines :
  LLMManager._clean_response lower_latin Examples.three_paragraphs
  = u "Sayın Yetkili," ++ [NL] ++ u "Staj başvurusu yapıyorum."
      ++ [NL] ++ u "Saygılarımla," ++ [NL] ++ u "[AD SOYAD]".
Proof. vm_compute. reflexivity. Qed.

(** The substitution alone does what the comment above it says: a run of
    blank lines becomes one blank line. *)
Example sub_blank_lines_collapses :
  Re.sub_blank_lines (u "a" ++ [NL; NL; 32; NL; NL]%N ++ u "b")
  = u "a" ++ [NL; NL] ++ u "b".
Proof. vm_compute. reflexivity. Qed.

(** Lines with a label go, in either language and in either case. *)
Example clean_response_drops_labels :
  LLMManager._clean_response lower_latin
    (u "KONU: Staj" ++ [NL] ++ u "Subject: Internship" ++ [NL]
       ++ u "Merhaba" ++ [NL] ++ u "  Kime: ik@bora.com.tr")
  = u "Merhaba".
Proof. vm_compute. reflexivity. Qed.

(** * Further properties *)

(** ** The static reader on files of the seven columns *)

Section StaticFiles.
Import Static.
Variable lower : list N -> list N.

Lemma read_row_seven (a b c d e f g : list N)
    (rest : list (gmap (option (list N)) pyval)) :
  read_rows lower (DictReader_row fieldnames [a; b; c; d; e; f; g] :: rest)
  = match keep_record lower [a; b; c; d; e; f; g] with
    | None => read_rows lower rest
    | Some sirket =>
        match read_rows lower rest with
        | Ok sirketler => Ok (sirket :: sirketler)
        | Raise e => Raise e
        end
    end.
Proof.
  simpl read_rows. unfold get_strip, keep_record, sirket_of_record.
  columns (DictReader_row fieldnames [a; b; c; d; e; f; g]).
  simpl.
  destruct (bool_decide (strip a = [])); [reflexivity|].
  destruct (bool_decide (strip e = []) || bool_decide (strip e ∈ placeholders));
    [reflexivity|].
  destruct (already_sent lower (strip f)); reflexivity.
Qed.

Lemma read_rows_seven (records : list (list (list N))) :
  Forall (fun r => length r = 7) records →
  read_rows lower (map (DictReader_row fieldnames) records)
  = Ok (omap (keep_record lower) records).
Proof.
  induction records as [|r rest IH]; intros Hall; [reflexivity|].
  apply Forall_cons in Hall as [Hr Hall].
  destruct r as [|a [|b [|c [|d [|e [|f [|g [|h r]]]]]]]]; try discriminate.
  simpl map. rewrite read_row_seven, (IH Hall).
  simpl omap. destruct (keep_record lower [a; b; c; d; e; f; g]); reflexivity.
Qed.

Lemma filter_seven (records : list (list (list N))) :
  Forall (fun r => length r = 7) records →
  List.filter (fun r => negb (bool_decide (r = []))) records = records.
Proof.
  induction records as [|r rest IH]; intros Hall; [reflexivity|].
  apply Forall_cons in Hall as [Hr Hall].
  destruct r; [discriminate|]. simpl. rewrite (IH Hall). reflexivity.
Qed.

Lemma oku_records (records : list (list (list N))) :
  Forall (fun r => length r = 7) records →
  try_except
    (read_rows lower
       (map (DictReader_row fieldnames)
            (List.filter (fun r => negb (bool_decide (r = []))) records)))
    (fun _ => Raise SystemExit1)
  = Ok (omap (keep_record lower) records).
Proof.
  intros Hall. rewrite (filter_seven _ Hall), (read_rows_seven _ Hall).
  reflexivity.
Qed.

(** X1.  On a file whose header is the seven columns and whose records have
    seven fields each, [csv_dosyasini_oku] does not end the process; it
    returns, in the order of the file, the records with a name, with an
    e-mail that is no placeholder and without the sent marker, each with its
    seven fields stripped. *)
Theorem csv_dosyasini_oku_seven (store : csv_store) :
  header store = fieldnames →
  Forall (fun r => length r = 7) (records store) →
  csv_dosyasini_oku lower store
  = Ok (omap (keep_record lower) (records store)).
Proof.
  intros Hh Hall. unfold csv_dosyasini_oku, DictReader.
  rewrite Hh. apply oku_records, Hall.
Qed.

End StaticFiles.

(** Witness of [csv_dosyasini_oku_seven]: the companies file of the
    examples. *)
Lemma csv_dosyasini_oku_seven_witness :
  Static.csv_dosyasini_oku lower_latin Examples.companies_file
  = Ok (omap (Static.keep_record lower_latin)
             (Static.records Examples.companies_file)).
Proof.
  apply (csv_dosyasini_oku_seven lower_latin Examples.companies_file).
  - reflexivity.
  - repeat constructor.
Defined.

Section StaticExit.
Import Static.
Variable lower : list N -> list N.

(** A record of one to six fields: passed over when its name is blank,
    and otherwise the [strip] of a missing field raises. *)
Lemma read_row_short (r : list (list N))
    (rest : list (gmap (option (list N)) pyval)) :
  1 <= length r < 7 →
  read_rows lower (DictReader_row fieldnames r :: rest)
  = if bool_decide (strip (r !!! 0) = []) then read_rows lower rest
    else Raise AttributeError.
Proof.
  intros [Hlo Hhi].
  destruct r as [|a [|b [|c [|d [|e [|f [|g r]]]]]]]; simpl in Hlo, Hhi; try lia.
  all: simpl read_rows; unfold get_strip.
  - columns (DictReader_row fieldnames [a]). simpl.
    destruct (bool_decide (strip a = [])); reflexivity.
  - columns (DictReader_row fieldnames [a; b]). simpl.
    destruct (bool_decide (strip a = [])); reflexivity.
  - columns (DictReader_row fieldnames [a; b; c]). simpl.
    destruct (bool_decide (strip a = [])); reflexivity.
  - columns (DictReader_row fieldnames [a; b; c; d]). simpl.
    destruct (bool_decide (strip a = [])); reflexivity.
  - columns (DictReader_row fieldnames [a; b; c; d; e]). simpl.
    destruct (bool_decide (strip a = [])); reflexivity.
  - columns (DictReader_row fieldnames [a; b; c; d; e; f]). simpl.
    destruct (bool_decide (strip a = [])); reflexivity.
Qed.

(** A row whose columns all hold a text raises nothing of its own. *)
Lemma read_row_text (row : gmap (option (list N)) pyval)
    (rest : list (gmap (option (list N)) pyval)) :
  text_valued row →
  (∃ l, read_rows lower (row :: rest) = Ok l)
  ↔ (∃ l, read_rows lower rest = Ok l).
Proof.
  intros Hrow. simpl.
  destruct (get_strip_returns row K_sirket_adi Hrow) as [name ->]; simpl.
  destruct (bool_decide (name = [])); [reflexivity|].
  destruct (get_strip_returns row K_adres Hrow) as [a ->]; simpl.
  destruct (get_strip_returns row K_numara Hrow) as [n ->]; simpl.
  destruct (get_strip_returns row K_web_sitesi Hrow) as [w ->]; simpl.
  destruct (get_strip_returns row K_mail Hrow) as [m ->]; simpl.
  destruct (get_strip_returns row K_durum Hrow) as [d ->]; simpl.
  destruct (get_strip_returns row K_notlar Hrow) as [nt ->]; simpl.
  destruct (_ || _); [reflexivity|].
  destruct (already_sent lower d); [reflexivity|].
  destruct (read_rows lower rest) as [l|e]; simpl.
  - split; eauto.
  - split; intros [l H]; discriminate.
Qed.

Lemma read_rows_readable (records : list (list (list N))) :
  (∃ l, read_rows lower
          (map (DictReader_row fieldnames)
               (List.filter (fun r => negb (bool_decide (r = []))) records))
        = Ok l)
  ↔ Forall readable records.
Proof.
  induction records as [|r rest IH].
  - split; [constructor|]. intros _. exists []. reflexivity.
  - rewrite Forall_cons.
    destruct r as [|a r'].
    { simpl List.filter. rewrite IH. unfold readable. intuition. }
    change (List.filter (fun r => negb (bool_decide (r = []))) ((a :: r') :: rest))
      with ((a :: r') :: List.filter (fun r => negb (bool_decide (r = []))) rest).
    simpl map.
    destruct (Nat.lt_ge_cases (length (a :: r')) 7) as [Hlt|Hge].
    + rewrite read_row_short by (simpl in *; lia).
      change ((a :: r') !!! 0) with a.
      destruct (bool_decide_reflect (strip a = [])) as [Hb|Hb].
      * rewrite IH. unfold readable. intuition.
      * split.
        -- intros [l H]. discriminate.
        -- intros [[H|[H|H]] _]; [discriminate|lia|contradiction].
    + rewrite read_row_text.
      * rewrite IH. unfold readable. intuition.
      * apply DictReader_row_text_valued. exact Hge.
Qed.

(** X2.  Under the header of the seven columns, [csv_dosyasini_oku]
    returns exactly when every record is a blank line, has at least seven
    fields, or has a blank name; one record of fewer fields with a name ends
    the process with [sys.exit(1)], whatever the other records are. *)
Theorem csv_dosyasini_oku_exits (store : csv_store) :
  header store = fieldnames →
  match csv_dosyasini_oku lower store with
  | Ok _ => Forall readable (records store)
  | Raise e => e = SystemExit1 ∧ ¬ Forall readable (records store)
  end.
Proof.
  intros Hh. pose proof (read_rows_readable (records store)) as Hiff.
  unfold csv_dosyasini_oku, DictReader. rewrite Hh.
  destruct (read_rows lower _) as [l|e]; simpl.
  - apply Hiff. eauto.
  - split; [reflexivity|]. intros Hall. apply Hiff in Hall as [l Hl].
    discriminate.
Qed.

End StaticExit.

(** Witness of [csv_dosyasini_oku_exits]: a file whose second record stops
    after the name. *)
Lemma csv_dosyasini_oku_exits_witness :
  match Static.csv_dosyasini_oku lower_latin Examples.short_record_file with
  | Ok _ => Forall Static.readable (Static.records Examples.short_record_file)
  | Raise e =>
      e = SystemExit1
      ∧ ¬ Forall Static.readable (Static.records Examples.short_record_file)
  end.
Proof.
  apply (csv_dosyasini_oku_exits lower_latin Examples.short_record_file).
  reflexivity.
Defined.

Example csv_dosyasini_oku_short_record :
  Static.csv_dosyasini_oku lower_latin Examples.short_record_file
  = Raise SystemExit1.
Proof. vm_compute. reflexivity. Qed.

(** ** The status update, read back *)

Section UpdateRead.
Import Static.
Variable lower : list N -> list N.
Variables sirket_adi durum : list N.

Lemma omap_cons_eq {A B} (f : A -> option B) (x : A) (l : list A) :
  omap f (x :: l)
  = match f x with Some y => y :: omap f l | None => omap f l end.
Proof. reflexivity. Qed.

Lemma guncelle_seven (store : csv_store) :
  header store = fieldnames →
  Forall (fun r => length r = 7) (records store) →
  csv_durumunu_guncelle store sirket_adi durum
  = {| header := fieldnames;
       records := with_durum sirket_adi durum <$> records store |}.
Proof.
  intros Hh Hall. unfold csv_durumunu_guncelle, DictReader. rewrite Hh.
  destruct (update_records sirket_adi durum (records store) Hall)
    as (veriler & Hm & Hw).
  rewrite Hm, Hw. reflexivity.
Qed.

Lemma with_durum_length (r : list (list N)) :
  length (with_durum sirket_adi durum r) = length r.
Proof.
  unfold with_durum. destruct (bool_decide _); [apply length_insert|reflexivity].
Qed.

Lemma with_durum_seven (records : list (list (list N))) :
  Forall (fun r => length r = 7) records →
  Forall (fun r => length r = 7) (with_durum sirket_adi durum <$> records).
Proof.
  intros Hall. apply Forall_fmap. eapply Forall_impl; [exact Hall|].
  intros r Hr. simpl. rewrite with_durum_length. exact Hr.
Qed.

Lemma keep_record_name (r : list (list N)) (s : SirketBilgisi) :
  keep_record lower r = Some s → Static.sirket_adi s = strip (r !!! 0).
Proof.
  unfold keep_record. intros H.
  destruct (bool_decide _); [discriminate|].
  destruct (_ || _); [discriminate|].
  destruct (already_sent _ _); [discriminate|].
  inversion H. reflexivity.
Qed.

Hypothesis durum_says_sent : already_sent lower (strip durum) = true.

Lemma keep_with_durum (r : list (list N)) :
  length r = 7 →
  keep_record lower (with_durum sirket_adi durum r)
  = if bool_decide (strip (r !!! 0) = sirket_adi) then None
    else keep_record lower r.
Proof.
  intros Hr.
  destruct r as [|a [|b [|c [|d [|e [|f [|g [|h r]]]]]]]]; try discriminate.
  unfold with_durum. simpl.
  destruct (bool_decide (strip a = sirket_adi)); [|reflexivity].
  unfold keep_record, sirket_of_record. simpl.
  rewrite durum_says_sent.
  destruct (bool_decide (strip a = [])); [reflexivity|].
  destruct (_ || _); reflexivity.
Qed.

Lemma omap_keep_with_durum (records : list (list (list N))) :
  Forall (fun r => length r = 7) records →
  omap (keep_record lower) (with_durum sirket_adi durum <$> records)
  = List.filter (fun s => negb (bool_decide (Static.sirket_adi s = sirket_adi)))
                (omap (keep_record lower) records).
Proof.
  induction records as [|r rest IH]; intros Hall; [reflexivity|].
  apply Forall_cons in Hall as [Hr Hall].
  rewrite fmap_cons, !omap_cons_eq, (keep_with_durum r Hr), (IH Hall).
  destruct (keep_record lower r) as [s|] eqn:Hk.
  - apply keep_record_name in Hk. simpl List.filter. rewrite Hk.
    destruct (bool_decide (strip (r !!! 0) = sirket_adi)); reflexivity.
  - destruct (bool_decide _); reflexivity.
Qed.

(** X3.  On a file of the seven columns, after [csv_durumunu_guncelle]
    with a status that the reader takes for sent, [csv_dosyasini_oku] returns
    what it returned before without the companies of the updated name, the
    others as they were and in their order. *)
Theorem update_then_read (store : csv_store) :
  header store = fieldnames →
  Forall (fun r => length r = 7) (records store) →
  ∃ before,
    csv_dosyasini_oku lower store = Ok before
    ∧ csv_dosyasini_oku lower (csv_durumunu_guncelle store sirket_adi durum)
      = Ok (List.filter
              (fun s => negb (bool_decide (Static.sirket_adi s = sirket_adi)))
              before).
Proof.
  intros Hh Hall. exists (omap (keep_record lower) (records store)).
  split.
  - unfold csv_dosyasini_oku, DictReader.
    rewrite Hh. apply oku_records, Hall.
  - rewrite (guncelle_seven store Hh Hall).
    unfold csv_dosyasini_oku, DictReader. simpl header. simpl records.
    rewrite oku_records by apply with_durum_seven, Hall.
    rewrite (omap_keep_with_durum _ Hall). reflexivity.
Qed.

End UpdateRead.

(** Witness of [update_then_read]: the companies file of the examples,
    updated for [Acme] with the status that a Turkish mail leaves. *)
Lemma update_then_read_witness :
  ∃ before,
    Static.csv_dosyasini_oku lower_latin Examples.companies_file = Ok before
    ∧ Static.csv_dosyasini_oku lower_latin
        (Static.csv_durumunu_guncelle Examples.companies_file (u "Acme")
                                      (u "Turkce mail gönderildi"))
      = Ok (List.filter
              (fun s => negb (bool_decide (Static.sirket_adi s = u "Acme")))
              before).
Proof.
  apply (update_then_read lower_latin (u "Acme") (u "Turkce mail gönderildi")).
  - vm_compute. reflexivity.
  - reflexivity.
  - repeat constructor.
Defined.

Section UpdateAgain.
Import Static.
Variables sirket_adi durum : list N.

Lemma with_durum_again (r : list (list N)) :
  length r = 7 →
  with_durum sirket_adi durum (with_durum sirket_adi durum r)
  = with_durum sirket_adi durum r.
Proof.
  intros Hr.
  destruct r as [|a [|b [|c [|d [|e [|f [|g [|h r]]]]]]]]; try discriminate.
  unfold with_durum. simpl.
  destruct (bool_decide (strip a = sirket_adi)) eqn:E; simpl; rewrite E;
    reflexivity.
Qed.

Lemma with_durum_other (r : list (list N)) :
  strip (r !!! 0) ≠ sirket_adi → with_durum sirket_adi durum r = r.
Proof.
  intros Hne. unfold with_durum.
  destruct (bool_decide_reflect (strip (r !!! 0) = sirket_adi));
    [contradiction|reflexivity].
Qed.

(** X4.  On a file of the seven columns, [csv_durumunu_guncelle] for a name
    that no record has leaves the file as it is, and an update made a second
    time changes nothing more. *)
Theorem update_unknown_or_again (store : csv_store) :
  header store = fieldnames →
  Forall (fun r => length r = 7) (records store) →
  (Forall (fun r => strip (r !!! 0) ≠ sirket_adi) (records store) →
   csv_durumunu_guncelle store sirket_adi durum = store)
  ∧ csv_durumunu_guncelle
      (csv_durumunu_guncelle store sirket_adi durum) sirket_adi durum
    = csv_durumunu_guncelle store sirket_adi durum.
Proof.
  intros Hh Hall. rewrite (guncelle_seven sirket_adi durum store Hh Hall).
  split.
  - intros Hother. destruct store as [h rs]. simpl in *. subst h. f_equal.
    clear Hall. induction rs as [|r rs IH]; [reflexivity|].
    apply Forall_cons in Hother as [Hr Hrs].
    rewrite fmap_cons, (with_durum_other r Hr), (IH Hrs). reflexivity.
  - rewrite guncelle_seven;
      [|reflexivity|apply with_durum_seven, Hall].
    simpl records. f_equal. rewrite <- list_fmap_compose.
    apply Forall_fmap_ext. eapply Forall_impl; [exact Hall|].
    intros r Hr. simpl. apply with_durum_again, Hr.
Qed.

End UpdateAgain.

(** Witness of [update_unknown_or_again]: the companies file of the
    examples and a name that is not in it. *)
Lemma update_unknown_or_again_witness :
  (Forall (fun r => strip (r !!! 0) ≠ u "Zafer")
          (Static.records Examples.companies_file) →
   Static.csv_durumunu_guncelle Examples.companies_file (u "Zafer")
                                (u "Turkce mail gönderildi")
   = Examples.companies_file)
  ∧ Static.csv_durumunu_guncelle
      (Static.csv_durumunu_guncelle Examples.companies_file (u "Zafer")
                                    (u "Turkce mail gönderildi"))
      (u "Zafer") (u "Turkce mail gönderildi")
    = Static.csv_durumunu_guncelle Examples.companies_file (u "Zafer")
                                   (u "Turkce mail gönderildi").
Proof.
  apply (update_unknown_or_again (u "Zafer") (u "Turkce mail gönderildi")
           Examples.companies_file).
  - reflexivity.
  - repeat constructor.
Defined.

(** ** The status update on records that are too long *)

Section UpdateLoss.
Import Static.
Variables sirket_adi durum : list N.

Lemma mapM_app {A B} (f : A -> result B) (l1 l2 : list A) : ∀ v1 v2,
  mapM f l1 = Ok v1 → mapM f l2 = Ok v2 → mapM f (l1 ++ l2) = Ok (v1 ++ v2).
Proof.
  induction l1 as [|x l1 IH]; intros v1 v2 H1 H2; simpl in *.
  - inversion H1; subst. exact H2.
  - destruct (f x) as [y|]; [|discriminate]. simpl in *.
    destruct (mapM f l1) as [ys|]; [|discriminate]. simpl in *.
    inversion H1; subst. rewrite (IH ys v2 eq_refl H2). reflexivity.
Qed.

Lemma name_column (a : list N) (r : list (list N)) :
  DictReader_row fieldnames (a :: r) !! Some K_sirket_adi = Some (VStr a).
Proof.
  destruct r as [|b [|c [|d [|e [|f [|g [|h r]]]]]]]; vm_compute; reflexivity.
Qed.

Lemma set_durum_returns (a : list N) (r : list (list N)) :
  set_durum sirket_adi durum (DictReader_row fieldnames (a :: r))
  = Ok (if bool_decide (strip a = sirket_adi)
        then <[Some K_durum := VStr durum]> (DictReader_row fieldnames (a :: r))
        else DictReader_row fieldnames (a :: r)).
Proof.
  unfold set_durum, get_strip. rewrite name_column. reflexivity.
Qed.

Lemma set_durum_all (records : list (list (list N))) :
  ∃ veriler,
    mapM (set_durum sirket_adi durum)
         (map (DictReader_row fieldnames)
              (List.filter (fun r => negb (bool_decide (r = []))) records))
    = Ok veriler.
Proof.
  induction records as [|r rest [veriler IH]]; [exists []; reflexivity|].
  destruct r as [|a r]; [exists veriler; exact IH|].
  change (List.filter (fun r => negb (bool_decide (r = []))) ((a :: r) :: rest))
    with ((a :: r) :: List.filter (fun r => negb (bool_decide (r = []))) rest).
  simpl map. simpl mapM. rewrite set_durum_returns, IH. simpl. eauto.
Qed.

Lemma long_record_wrong_fields (a b c d e f g h : list N) (r : list (list N)) :
  ∃ row,
    set_durum sirket_adi durum
              (DictReader_row fieldnames (a :: b :: c :: d :: e :: f :: g :: h :: r))
    = Ok row
    ∧ wrong_fields row = true.
Proof.
  rewrite set_durum_returns.
  destruct (bool_decide (strip a = sirket_adi)).
  - eexists. split; [reflexivity|]. vm_compute. reflexivity.
  - eexists. split; [reflexivity|]. vm_compute. reflexivity.
Qed.

(** X5.  On a file with the header of the seven columns, a record of more
    than seven fields makes [csv_durumunu_guncelle] fail while it writes:
    the file is left with the header and the records before that one, and
    the record itself and all the records after it are lost. *)
Theorem update_loses_records
    (store : csv_store) (pre post : list (list (list N))) (long : list (list N)) :
  header store = fieldnames →
  records store = pre ++ long :: post →
  Forall (fun r => length r = 7) pre →
  7 < length long →
  csv_durumunu_guncelle store sirket_adi durum
  = {| header := fieldnames;
       records := with_durum sirket_adi durum <$> pre |}.
Proof.
  intros Hh Hrec Hpre Hlong.
  unfold csv_durumunu_guncelle, DictReader. rewrite Hh, Hrec.
  rewrite List.filter_app, List.map_app.
  destruct (update_records sirket_adi durum pre Hpre) as (v1 & Hm1 & Hw1).
  destruct long as [|a [|b [|c [|d [|e [|f [|g [|h r]]]]]]]];
    simpl in Hlong; try lia.
  destruct (long_record_wrong_fields a b c d e f g h r) as (row & Hrow & Hwrong).
  destruct (set_durum_all post) as [v2 Hm2].
  change (List.filter (fun r => negb (bool_decide (r = [])))
            ((a :: b :: c :: d :: e :: f :: g :: h :: r) :: post))
    with ((a :: b :: c :: d :: e :: f :: g :: h :: r)
            :: List.filter (fun r => negb (bool_decide (r = []))) post).
  simpl map.
  assert (Hall : mapM (set_durum sirket_adi durum)
            (map (DictReader_row fieldnames)
                 (List.filter (fun r => negb (bool_decide (r = []))) pre)
             ++ DictReader_row fieldnames
                  (a :: b :: c :: d :: e :: f :: g :: h :: r)
                :: map (DictReader_row fieldnames)
                     (List.filter (fun r => negb (bool_decide (r = []))) post))
          = Ok (v1 ++ row :: v2)).
  { apply mapM_app; [exact Hm1|]. simpl. rewrite Hrow. simpl.
    rewrite Hm2. reflexivity. }
  rewrite Hall. f_equal. rewrite <- Hw1.
  clear -Hwrong. induction v1 as [|x v1 IH]; simpl.
  - rewrite Hwrong. reflexivity.
  - destruct (wrong_fields x); [reflexivity|]. rewrite IH. reflexivity.
Qed.

End UpdateLoss.

(** Witness of [update_loses_records]: a file whose second record has an
    eighth field. *)
Lemma update_loses_records_witness :
  Static.csv_durumunu_guncelle Examples.long_record_file (u "Acme")
                               (u "Turkce mail gönderildi")
  = {| Static.header := Static.fieldnames;
       Static.records :=
         Static.with_durum (u "Acme") (u "Turkce mail gönderildi")
           <$> [ [u "Acme"; u "Ankara"; u "0312"; u "acme.com"; u "hr@acme.com";
                  u ""; u ""] ] |}.
Proof.
  apply (update_loses_records (u "Acme") (u "Turkce mail gönderildi")
           Examples.long_record_file
           [ [u "Acme"; u "Ankara"; u "0312"; u "acme.com"; u "hr@acme.com";
              u ""; u ""] ]
           [ [u "Cem"; u "İzmir"; u "0232"; u "cem.com.tr"; u "info@cem.com.tr";
              u ""; u ""] ]
           [u "Bora"; u "Elazığ"; u "Merkez"; u "0424"; u "bora.com.tr";
            u "ik@bora.com.tr"; u ""; u ""]).
  - reflexivity.
  - reflexivity.
  - repeat constructor.
  - simpl. lia.
Defined.

(** ** [strip] *)

Section StripFacts.

Lemma lstrip_snoc (l : list N) (c : N) :
  lstrip (l ++ [c])
  = match lstrip l with
    | [] => if isspace c then [] else [c]
    | y => y ++ [c]
    end.
Proof.
  induction l as [|a l IH]; simpl.
  - destruct (isspace c); reflexivity.
  - destruct (isspace a); [exact IH|reflexivity].
Qed.

Lemma rstrip_cons (c : N) (t : list N) :
  rstrip (c :: t)
  = match rstrip t with
    | [] => if isspace c then [] else [c]
    | y => c :: y
    end.
Proof.
  unfold rstrip. simpl rev. rewrite lstrip_snoc.
  destruct (lstrip (rev t)) as [|y ys] eqn:E.
  - simpl. destruct (isspace c); reflexivity.
  - rewrite rev_app_distr. change (rev [c]) with [c].
    remember (rev (y :: ys)) as z eqn:E'. destruct z; [|reflexivity].
    apply (f_equal (@length N)) in E'. rewrite length_rev in E'. discriminate.
Qed.

Lemma lstrip_head (s : list N) (c : N) (t : list N) :
  lstrip s = c :: t → isspace c = false.
Proof.
  induction s as [|a s IH]; simpl; [discriminate|].
  destruct (isspace a) eqn:E; [exact IH|].
  intros H. inversion H; subst. exact E.
Qed.

Lemma lstrip_idem (s : list N) : lstrip (lstrip s) = lstrip s.
Proof.
  destruct (lstrip s) as [|c t] eqn:E; [reflexivity|].
  apply lstrip_head in E. simpl. rewrite E. reflexivity.
Qed.

Lemma rstrip_idem (s : list N) : rstrip (rstrip s) = rstrip s.
Proof.
  unfold rstrip. rewrite rev_involutive, lstrip_idem. reflexivity.
Qed.

Lemma lstrip_rstrip_head (c : N) (t : list N) :
  isspace c = false → lstrip (rstrip (c :: t)) = rstrip (c :: t).
Proof.
  intros Hc. rewrite rstrip_cons.
  destruct (rstrip t); rewrite ?Hc; simpl; rewrite Hc; reflexivity.
Qed.

(** [s.strip().strip() == s.strip()] *)
Lemma strip_idem (s : list N) : strip (strip s) = strip s.
Proof.
  unfold strip at 1. unfold strip.
  destruct (lstrip s) as [|c t] eqn:E; [reflexivity|].
  apply lstrip_head in E.
  rewrite (lstrip_rstrip_head c t E). apply rstrip_idem.
Qed.

End StripFacts.

(** ** The frame reader, once more *)

Section FrameFacts.
Import DataProcessor.

Lemma clean_data_unfold (df : list row) :
  _clean_data df = drop_duplicates [] (cleaned_valid df).
Proof. reflexivity. Qed.

Lemma drop_duplicates_sublist (df : list row) : ∀ seen,
  drop_duplicates seen df `sublist_of` df.
Proof.
  induction df as [|r rest IH]; intros seen; simpl; [constructor|].
  destruct (bool_decide _); [apply sublist_cons|apply sublist_skip]; apply IH.
Qed.

(** A row stays after [drop_duplicates] exactly when no row before it has
    its e-mail. *)
Lemma drop_duplicates_first (df : list row) : ∀ seen r,
  r ∈ drop_duplicates seen df
  ↔ ∃ pre post, df = pre ++ r :: post
                ∧ (mail r ∉ seen) ∧ (mail r ∉ mail <$> pre).
Proof.
  induction df as [|r0 rest IH]; intros seen r; simpl.
  - split.
    + intros H. apply elem_of_nil in H. contradiction.
    + intros (pre & post & H & _). destruct pre; discriminate.
  - destruct (bool_decide_reflect (mail r0 ∈ seen)) as [Hin|Hnin].
    + rewrite IH. split.
      * intros (pre & post & -> & Hs & Hp). exists (r0 :: pre), post.
        split; [reflexivity|]. split; [exact Hs|].
        rewrite fmap_cons. intros H. apply elem_of_cons in H as [H|H];
          [|contradiction]. apply Hs. rewrite H. exact Hin.
      * intros (pre & post & H & Hs & Hp). destruct pre as [|p pre].
        -- simpl in H. inversion H; subst. contradiction.
        -- simpl in H. inversion H; subst. exists pre, post.
           split; [reflexivity|]. split; [exact Hs|].
           intros Hm. apply Hp. rewrite fmap_cons. right. exact Hm.
    + rewrite elem_of_cons, IH. split.
      * intros [->|(pre & post & -> & Hs & Hp)].
        -- exists [], rest. split; [reflexivity|]. split; [exact Hnin|].
           intros H. apply elem_of_nil in H. contradiction.
        -- exists (r0 :: pre), post. split; [reflexivity|].
           split; [intros H; apply Hs; right; exact H|].
           rewrite fmap_cons. intros H. apply elem_of_cons in H as [H|H];
             [|contradiction]. apply Hs. rewrite H. left.
      * intros (pre & post & H & Hs & Hp). destruct pre as [|p pre].
        -- simpl in H. inversion H; subst. left. reflexivity.
        -- simpl in H. inversion H; subst. right. exists pre, post.
           split; [reflexivity|]. split.
           ++ intros Hm. apply elem_of_cons in Hm as [Hm|Hm]; [|contradiction].
              apply Hp. rewrite fmap_cons, Hm. left.
           ++ intros Hm. apply Hp. rewrite fmap_cons. right. exact Hm.
Qed.

(** X6.  [_clean_data] keeps, of the cleaned rows with a valid e-mail, the
    first of each address and no other: the rows that stay are in their old
    order, a row stays exactly when no row before it has its e-mail, and
    every address of a cleaned valid row is still the address of a row. *)
Theorem clean_data_first_of_each (df : list row) :
  _clean_data df `sublist_of` cleaned_valid df
  ∧ (∀ r, r ∈ _clean_data df
          ↔ ∃ pre post, cleaned_valid df = pre ++ r :: post
                        ∧ (mail r ∉ mail <$> pre))
  ∧ (∀ r, r ∈ cleaned_valid df → mail r ∈ mail <$> _clean_data df).
Proof.
  rewrite clean_data_unfold. split; [apply drop_duplicates_sublist|]. split.
  - intros r. rewrite drop_duplicates_first. split.
    + intros (pre & post & H & _ & Hp). eauto.
    + intros (pre & post & H & Hp). exists pre, post.
      split; [exact H|]. split; [|exact Hp].
      intros Hn. apply elem_of_nil in Hn. contradiction.
  - generalize (cleaned_valid df). intros l.
    assert (H : ∀ seen r, r ∈ l →
                (mail r ∈ seen) ∨ (mail r ∈ mail <$> drop_duplicates seen l)).
    { induction l as [|r0 rest IH]; intros seen r Hr.
      - apply elem_of_nil in Hr. contradiction.
      - simpl. apply elem_of_cons in Hr as [->|Hr].
        + destruct (bool_decide_reflect (mail r0 ∈ seen)); [left; assumption|].
          right. rewrite fmap_cons. left.
        + destruct (bool_decide_reflect (mail r0 ∈ seen)) as [Hin|Hnin].
          * apply IH, Hr.
          * destruct (IH (mail r0 :: seen) r Hr) as [Hs|Hd].
            -- apply elem_of_cons in Hs as [Hs|Hs]; [|left; exact Hs].
               right. rewrite fmap_cons, Hs. left.
            -- right. rewrite fmap_cons. right. exact Hd. }
    intros r Hr. destruct (H [] r Hr) as [Hn|Hd]; [|exact Hd].
    apply elem_of_nil in Hn. contradiction.
Qed.

End FrameFacts.

(** ** The dictionary of a company *)

Section CompanyInfo.
Import DataProcessor.

Lemma clean_cell_stripped (c : option (list N)) (s : list N) :
  clean_cell c = Some s → strip s = s.
Proof.
  unfold clean_cell. destruct (bool_decide _); [discriminate|].
  intros H. inversion H. apply strip_idem.
Qed.

Lemma clean_data_stripped (df : list row) (r : row) :
  r ∈ _clean_data df →
  info_value (sirket_adi r) = default [] (sirket_adi r)
  ∧ info_value (mail r) = default [] (mail r)
  ∧ is_valid_email (mail r) = true.
Proof.
  intros Hr. unfold _clean_data in Hr. apply drop_duplicates_subseteq in Hr.
  unfold _validate_emails in Hr. apply elem_of_List_filter in Hr as [Hv Hr].
  apply list_elem_of_In, in_map_iff in Hr as (r0 & <- & _).
  split; [|split; [|exact Hv]]; simpl.
  - destruct (clean_cell (sirket_adi r0)) as [s|] eqn:E; [|reflexivity].
    simpl. apply (clean_cell_stripped _ _ E).
  - destruct (clean_cell (mail r0)) as [s|] eqn:E; [|reflexivity].
    simpl. apply (clean_cell_stripped _ _ E).
Qed.

Lemma get_company_info_keys (df : list row) (index : nat) (r : row) :
  df !! index = Some r →
  ∃ info, get_company_info df index = Some info
    ∧ info !! C_sirket_adi = Some (info_value (sirket_adi r))
    ∧ info !! C_email = Some (info_value (mail r))
    ∧ EmailSender.recipient info
      = Some (info_value (sirket_adi r), info_value (mail r))
    ∧ EmailSender.name_of info = info_value (sirket_adi r).
Proof.
  intros Hr. unfold get_company_info. rewrite Hr. eexists. split; [reflexivity|].
  assert (H1 : ∀ a b c d e f : list N,
             (<[C_telefon := f]> (<[C_adres := e]> (<[C_notlar := d]>
               (<[C_web_sitesi := c]> (<[C_email := b]>
                 (<[C_sirket_adi := a]> (∅ : gmap (list N) (list N))))))))
               !! C_sirket_adi = Some a).
  { intros. vm_compute. reflexivity. }
  assert (H2 : ∀ a b c d e f : list N,
             (<[C_telefon := f]> (<[C_adres := e]> (<[C_notlar := d]>
               (<[C_web_sitesi := c]> (<[C_email := b]>
                 (<[C_sirket_adi := a]> (∅ : gmap (list N) (list N))))))))
               !! C_email = Some b).
  { intros. vm_compute. reflexivity. }
  unfold EmailSender.recipient, EmailSender.name_of.
  change EmailSender.K_sirket_adi with C_sirket_adi.
  change EmailSender.K_email with C_email.
  rewrite H1, H2. repeat split.
Qed.

(** X7.  [get_company_info] on the frame [_clean_data] returns: past the
    end of the frame the index raises; at a row of the frame the dictionary
    has the row's e-mail under ['email'], an address that passed the
    validation, and the row's name under ['sirket_adi'] (the empty text for
    a missing name), so a turn of the batch on it reaches the send. *)
Theorem company_info_of_cleaned (df : list row) (index : nat) :
  (length (_clean_data df) <= index ↔
     get_company_info (_clean_data df) index = None)
  ∧ (∀ r, _clean_data df !! index = Some r →
       ∃ e info,
         mail r = Some e
         ∧ is_valid_email (Some e) = true
         ∧ get_company_info (_clean_data df) index = Some info
         ∧ info !! C_email = Some e
         ∧ info !! C_sirket_adi = Some (default [] (sirket_adi r))
         ∧ EmailSender.recipient info = Some (default [] (sirket_adi r), e)).
Proof.
  split.
  - unfold get_company_info. rewrite <- lookup_ge_None.
    destruct (_clean_data df !! index); split; congruence.
  - intros r Hr.
    destruct (clean_data_stripped df r) as (Hn & Hm & Hv).
    { eapply list_elem_of_lookup_2, Hr. }
    destruct (get_company_info_keys _ _ _ Hr) as (info & Hi & Hk1 & Hk2 & Hrec & _).
    destruct (mail r) as [e|] eqn:He; [|discriminate].
    exists e, info. simpl default in Hm. rewrite Hn, Hm in Hrec.
    rewrite Hn in Hk1. rewrite Hm in Hk2.
    repeat split; assumption.
Qed.

End CompanyInfo.

(** ** From the generated bodies to the batch *)

Section SendEmails.
Import EmailSender InternshipAutomation.
Variable self : sender.
Variable world : nat -> send_env.
Variable clock : nat -> Z -> option exn.
Variables now cv_path applicant_name : list N.
Variable delay_between_emails : Z.
Variable companies_df : list DataProcessor.row.

Local Abbreviation nonblank :=
  (fun ib : nat * list N => negb (bool_decide (strip ib.2 = []))).

Local Abbreviation info_of :=
  (fun (ib : nat * list N) (company_info : gmap (list N) (list N)) =>
     DataProcessor.get_company_info companies_df ib.1 = Some company_info).

Lemma collect_valid_spec (generated_emails : list (list N)) :
  ∀ i valid_data valid_emails,
  i + length generated_emails <= length companies_df →
  ∃ infos,
    collect_valid companies_df i generated_emails valid_data valid_emails
    = Some (valid_data ++ infos,
            valid_emails
              ++ (List.filter nonblank
                    (zip (seq i (length generated_emails)) generated_emails)).*2)
    ∧ Forall2 info_of
        (List.filter nonblank
           (zip (seq i (length generated_emails)) generated_emails))
        infos.
Proof.
  induction generated_emails as [|email_body rest IH];
    intros i valid_data valid_emails Hlen; simpl.
  - exists []. rewrite !app_nil_r. split; [reflexivity|constructor].
  - simpl in Hlen. destruct (bool_decide (strip email_body = [])); simpl.
    + apply IH. lia.
    + destruct (DataProcessor.get_company_info companies_df i)
        as [company_info|] eqn:Hi.
      * destruct (IH (S i) (valid_data ++ [company_info])
                     (valid_emails ++ [email_body])) as (infos & Hc & Hall);
          [lia|].
        exists (company_info :: infos). rewrite Hc, <- !app_assoc. simpl.
        split; [reflexivity|]. constructor; [exact Hi|exact Hall].
      * exfalso. unfold DataProcessor.get_company_info in Hi.
        destruct (companies_df !! i) eqn:Hr; [discriminate|].
        apply lookup_ge_None in Hr. lia.
Qed.

Lemma info_of_recipient (l : list (nat * list N)) infos :
  Forall2 info_of l infos →
  Forall (fun p : gmap (list N) (list N) * list N => is_Some (recipient p.1))
         (zip infos l.*2).
Proof.
  induction 1 as [|ib info l infos Hi _ IH]; simpl; constructor; [|exact IH].
  simpl. unfold DataProcessor.get_company_info in Hi.
  destruct (companies_df !! ib.1) as [r|] eqn:Hr; [|discriminate].
  destruct (get_company_info_keys _ _ _ Hr) as (info' & Hi' & _ & _ & Hrec & _).
  unfold DataProcessor.get_company_info in Hi'. rewrite Hr in Hi'.
  rewrite Hi in Hi'. inversion Hi'; subst. eauto.
Qed.

Lemma info_of_lookup (l : list (nat * list N)) infos :
  Forall2 info_of l infos →
  ∀ j c body, zip infos l.*2 !! j = Some (c, body) →
  ∃ i r, l !! j = Some (i, body) ∧ companies_df !! i = Some r
         ∧ recipient c
           = Some (DataProcessor.info_value (DataProcessor.sirket_adi r),
                   DataProcessor.info_value (DataProcessor.mail r)).
Proof.
  induction 1 as [|[i b] info l infos Hi _ IH]; intros j c body Hj;
    [discriminate|].
  destruct j as [|j]; simpl in Hj.
  - inversion Hj; subst. simpl in Hi.
    unfold DataProcessor.get_company_info in Hi.
    destruct (companies_df !! i) as [r|] eqn:Hr; [|discriminate].
    destruct (get_company_info_keys _ _ _ Hr) as (info' & Hi' & _ & _ & Hrec & _).
    unfold DataProcessor.get_company_info in Hi'. rewrite Hr in Hi'.
    rewrite Hi in Hi'. inversion Hi'; subst. exists i, r. auto.
  - apply IH, Hj.
Qed.

Hypothesis delay_ok : takes_delay clock delay_between_emails.

Lemma send_emails_nothing (generated_emails : list (list N)) :
  length generated_emails <= length companies_df →
  numbered_valid generated_emails = [] →
  send_emails self world clock now cv_path applicant_name delay_between_emails
              companies_df generated_emails = NothingToSend.
Proof.
  intros Hlen Hnone. unfold send_emails.
  destruct (collect_valid_spec generated_emails 0 [] []) as (infos & Hc & Hall);
    [simpl; lia|].
  unfold numbered_valid in Hnone. rewrite Hnone in Hc, Hall.
  inversion Hall; subst. rewrite Hc. reflexivity.
Qed.

Lemma send_emails_sent (generated_emails : list (list N)) :
  length generated_emails <= length companies_df →
  numbered_valid generated_emails ≠ [] →
  ∃ results tr,
    send_emails self world clock now cv_path applicant_name delay_between_emails
                companies_df generated_emails
    = Sent results tr (save_results now results)
    ∧ total_sent results + total_failed results
      = length (numbered_valid generated_emails)
    ∧ (save_results now results).2 = None
    ∧ sends tr = seq 0 (length (numbered_valid generated_emails))
    ∧ ∀ j to_email company_name email_body success,
        EvSend j to_email company_name email_body success ∈ tr →
        ∃ i r,
          numbered_valid generated_emails !! j = Some (i, email_body)
          ∧ companies_df !! i = Some r
          ∧ to_email = DataProcessor.info_value (DataProcessor.mail r)
          ∧ company_name
            = DataProcessor.info_value (DataProcessor.sirket_adi r).
Proof.
  intros Hlen Hsome. unfold send_emails, numbered_valid in *.
  destruct (collect_valid_spec generated_emails 0 [] []) as (infos & Hc & Hall);
    [simpl; lia|].
  rewrite Hc. simpl app.
  set (l := List.filter nonblank
              (zip (seq 0 (length generated_emails)) generated_emails)) in *.
  clearbody l. pose proof (Forall2_length _ _ _ Hall) as Hlen2.
  assert (Hne : infos ≠ []).
  { intros ->. destruct l; [congruence|discriminate]. }
  assert (Hb : l.*2 ≠ []).
  { destruct l; [congruence|discriminate]. }
  destruct (bool_decide_reflect (infos = [])) as [He|_]; [contradiction|].
  destruct (save_results_after_batch self world clock infos l.*2 cv_path
              applicant_name now delay_between_emails delay_ok Hne Hb)
    as (r & tr & Hrun & Htot & Hrep).
  rewrite Hrun. exists r, tr. split; [reflexivity|].
  rewrite (send_batch_emails_spec self world cv_path applicant_name
             _ _ _ _ delay_ok Hne) in Hrun.
  inversion Hrun as [[Hr Htr]]. clear Hrun.
  assert (Hzip : length (zip infos l.*2) = length l).
  { rewrite length_zip, length_fmap. lia. }
  split.
  { simpl. rewrite sent_failed_length, length_outcomes. exact Hzip. }
  split; [rewrite Hr; exact Hrep|].
  split.
  { rewrite sends_app, sends_events_all by (apply info_of_recipient, Hall).
    simpl. rewrite app_nil_r, Hzip. reflexivity. }
  intros j to_email company_name email_body success Hin.
  apply elem_of_app in Hin as [Hin|Hin];
    [|apply list_elem_of_singleton in Hin; discriminate].
  apply events_send_inv in Hin as (c & _ & Hj & Hc' & _).
  rewrite Nat.sub_0_r in Hj.
  destruct (info_of_lookup _ _ Hall _ _ _ Hj) as (i & r0 & Hl & Hr0 & Hrec).
  exists i, r0. rewrite Hrec in Hc'. inversion Hc'. auto.
Qed.

(** X8.  [send_emails] with a body for no more companies than the frame
    has, and a delay on which [time.sleep] returns, for the delay and for
    its half, in every turn of the batch.  Without a body that is not blank
    it returns before the batch.  Otherwise it returns the results of a
    batch that worked on one pair for each body that is not blank, with
    the whole report written; the sends of the batch are one for each such
    body, in the order of the bodies, and the [j]-th of them goes to the
    address and the name of the row that has the index of the [j]-th such
    body. *)
Theorem send_emails_pairs (generated_emails : list (list N)) :
  length generated_emails <= length companies_df →
  match send_emails self world clock now cv_path applicant_name
                    delay_between_emails companies_df generated_emails with
  | NothingToSend => numbered_valid generated_emails = []
  | SendRaised _ _ => False
  | Sent results tr report =>
      numbered_valid generated_emails ≠ []
      ∧ total_sent results + total_failed results
        = length (numbered_valid generated_emails)
      ∧ report = save_results now results
      ∧ report.2 = None
      ∧ sends tr = seq 0 (length (numbered_valid generated_emails))
      ∧ ∀ j to_email company_name email_body success,
          EvSend j to_email company_name email_body success ∈ tr →
          ∃ i r,
            numbered_valid generated_emails !! j = Some (i, email_body)
            ∧ companies_df !! i = Some r
            ∧ to_email = DataProcessor.info_value (DataProcessor.mail r)
            ∧ company_name
              = DataProcessor.info_value (DataProcessor.sirket_adi r)
  end.
Proof.
  intros Hlen.
  destruct (numbered_valid generated_emails) as [|ib l] eqn:Hv.
  - rewrite (send_emails_nothing _ Hlen Hv). reflexivity.
  - assert (Hne : numbered_valid generated_emails ≠ []) by (rewrite Hv; discriminate).
    destruct (send_emails_sent _ Hlen Hne)
      as (results & tr & -> & Htot & Hrep & Hsends & Hev).
    rewrite Hv in Htot, Hsends, Hev.
    repeat split; try assumption; discriminate.
Qed.

End SendEmails.

(** Witness of [send_emails_pairs]: three rows, the body of the second one
    blank. *)
Lemma send_emails_pairs_witness :
  match InternshipAutomation.send_emails Examples.me Examples.first_ok
          Examples.clock_ok
          (u "2025-01-01 10:00:00") Examples.cv Examples.applicant 30
          Examples.three_rows Examples.bodies_one_blank with
  | InternshipAutomation.NothingToSend =>
      InternshipAutomation.numbered_valid Examples.bodies_one_blank = []
  | InternshipAutomation.SendRaised _ _ => False
  | InternshipAutomation.Sent results tr report =>
      InternshipAutomation.numbered_valid Examples.bodies_one_blank ≠ []
      ∧ EmailSender.total_sent results + EmailSender.total_failed results
        = length (InternshipAutomation.numbered_valid Examples.bodies_one_blank)
      ∧ report = InternshipAutomation.save_results (u "2025-01-01 10:00:00") results
      ∧ report.2 = None
      ∧ EmailSender.sends tr
        = seq 0 (length (InternshipAutomation.numbered_valid
                           Examples.bodies_one_blank))
      ∧ ∀ j to_email company_name email_body success,
          EmailSender.EvSend j to_email company_name email_body success ∈ tr →
          ∃ i r,
            InternshipAutomation.numbered_valid Examples.bodies_one_blank !! j
            = Some (i, email_body)
            ∧ Examples.three_rows !! i = Some r
            ∧ to_email = DataProcessor.info_value (DataProcessor.mail r)
            ∧ company_name
              = DataProcessor.info_value (DataProcessor.sirket_adi r)
  end.
Proof.
  apply (send_emails_pairs Examples.me Examples.first_ok Examples.clock_ok
           (u "2025-01-01 10:00:00") Examples.cv Examples.applicant 30
           Examples.three_rows).
  - delay_taken.
  - simpl. lia.
Defined.

(** The batch of the witness: the first and the third row get their own
    bodies, the second row gets nothing. *)
Example send_emails_one_blank :
  ∃ results report,
    InternshipAutomation.send_emails Examples.me Examples.first_ok
          Examples.clock_ok
      (u "2025-01-01 10:00:00") Examples.cv Examples.applicant 30
      Examples.three_rows Examples.bodies_one_blank
    = InternshipAutomation.Sent results
        [EmailSender.EvSend 0 (u "hr@acme.com") (u "Acme") (u "Merhaba A") true;
         EmailSender.EvSleep 30;
         EmailSender.EvSend 1 (u "info@cem.com.tr") (u "Cem") (u "Merhaba C")
                            false;
         EmailSender.EvRate 1 2]
        report.
Proof. eexists _, _. vm_compute. reflexivity. Qed.

(** ** The whole run *)

Section Run.
Import EmailSender InternshipAutomation.
Variable lower : list N -> list N.
Variable self : sender.
Variable tags : result Z.
Variable smtp_check : send_env.
Variable csv_file : result (list DataProcessor.row).
Variable llm : nat -> llm_env.
Variable inputs : list (list N).
Variable world : nat -> send_env.
Variable clock : nat -> Z -> option exn.
Variables now cv_path applicant_name : list N.
Variable delay_between_emails : Z.

#[local] Arguments generate_emails : simpl never.

Local Abbreviation unrecognised :=
  (fun line : list N =>
     (lower line ∉ yes_answers) ∧ (lower line ∉ no_answers)).

Local Abbreviation the_run :=
  (run lower self tags smtp_check csv_file llm inputs world clock
       now cv_path applicant_name delay_between_emails).

Lemma review_emails_spec (typed : list (list N)) :
  match review_emails lower typed with
  | (Some true, rest) =>
      ∃ pre line, typed = pre ++ line :: rest ∧ Forall unrecognised pre
                  ∧ lower line ∈ yes_answers
  | (Some false, rest) =>
      ∃ pre line, typed = pre ++ line :: rest ∧ Forall unrecognised pre
                  ∧ (lower line ∉ yes_answers) ∧ lower line ∈ no_answers
  | (None, rest) => rest = [] ∧ Forall unrecognised typed
  end.
Proof.
  induction typed as [|line rest IH]; simpl.
  - split; [reflexivity|constructor].
  - destruct (bool_decide_reflect (lower line ∈ yes_answers)) as [Hy|Hy].
    { exists [], line. repeat split; [constructor|exact Hy]. }
    destruct (bool_decide_reflect (lower line ∈ no_answers)) as [Hn|Hn].
    { exists [], line. repeat split; [constructor|exact Hy|exact Hn]. }
    destruct (review_emails lower rest) as [[[|]|] rest'].
    + destruct IH as (pre & l & -> & Hpre & Hl).
      exists (line :: pre), l. repeat split; [constructor; auto|exact Hl].
    + destruct IH as (pre & l & -> & Hpre & Hl1 & Hl2).
      exists (line :: pre), l. repeat split; [constructor; auto|exact Hl1|exact Hl2].
    + destruct IH as [-> Hall]. split; [reflexivity|constructor; auto].
Qed.






Lemma batch_events_app (l1 l2 : list action) :
  batch_events (l1 ++ l2) = batch_events l1 ++ batch_events l2.
Proof. unfold batch_events. apply omap_app. Qed.


Lemma run_system_checks_spec :
  (run_system_checks tags smtp_check).1
  = LLMManager.check_connection tags && test_connection smtp_check
  ∧ batch_events (run_system_checks tags smtp_check).2 = [].
Proof.
  unfold run_system_checks.
  destruct (LLMManager.check_connection tags); simpl; [|auto].
  destruct (test_connection smtp_check); simpl; auto.
Qed.

Lemma generate_emails_no_batch (companies_df : list DataProcessor.row) :
  batch_events (generate_emails lower companies_df llm).2 = [].
Proof.
  unfold generate_emails. cbn [snd]. generalize (seq 0 (length companies_df)).
  intros l. induction l as [|i l IH]; [reflexivity|]. simpl.
  destruct (generated (llm i)); simpl; exact IH.
Qed.

Local Abbreviation checked := ((run_system_checks tags smtp_check).2).

Lemma run_unfold :
  the_run
  = if negb (LLMManager.check_connection tags && test_connection smtp_check)
    then (ChecksFailed, checked, None)
    else
      match csv_file with
      | Raise _ => (Exit1, checked, None)
      | Ok df =>
          let g := generate_emails lower (DataProcessor._clean_data df) llm in
          match (review_emails lower inputs).1 with
          | None => (Exit1, checked ++ g.2, None)
          | Some false => (Stopped, checked ++ g.2, None)
          | Some true =>
              match send_emails self world clock now cv_path applicant_name
                                delay_between_emails
                                (DataProcessor._clean_data df) g.1 with
              | NothingToSend => (Exit1, checked ++ g.2, None)
              | SendRaised _ tr =>
                  (Exit1, checked ++ g.2 ++ (ABatch <$> tr), None)
              | Sent results tr report =>
                  (match truediv (total_sent results)
                                 (total_sent results + total_failed results) with
                   | Raise _ => Exit1
                   | Ok _ => Completed results
                   end,
                   checked ++ g.2 ++ (ABatch <$> tr), Some report)
              end
          end
      end.
Proof.
  unfold run. rewrite <- (proj1 run_system_checks_spec).
  destruct (run_system_checks tags smtp_check) as [passed done].
  cbn [fst snd]. destruct passed; cbn [negb]; [|reflexivity].
  destruct csv_file as [df|e]; [|reflexivity]. cbv zeta.
  destruct (generate_emails lower (DataProcessor._clean_data df) llm)
    as [bodies generating].
  cbn [fst snd].
  destruct (review_emails lower inputs) as [[[|]|] rest]; reflexivity.
Qed.

Lemma checked_quiet (generating : list action) :
  batch_events generating = [] → batch_events (checked ++ generating) = [].
Proof.
  intros H. rewrite batch_events_app, (proj2 run_system_checks_spec), H.
  reflexivity.
Qed.

(** X9.  [run] hands an e-mail of the batch to the relay, sleeps between
    two of them or writes its report only after both system checks passed,
    the companies file was loaded, and the operator typed an answer that
    reads, in lower case, [e], [evet], [yes] or [y], every line typed
    before it being none of the eight answers [review_emails] knows.
    What [run] does before that is the request to the model's server, the
    login of [test_connection] to the relay, and the calls of the model
    with their pauses of two seconds. *)
Theorem run_sends_after_review :
  batch_events the_run.1.2 ≠ [] ∨ the_run.2 ≠ None →
  LLMManager.check_connection tags = true
  ∧ test_connection smtp_check = true
  ∧ (∃ df, csv_file = Ok df)
  ∧ ∃ pre line rest,
      inputs = pre ++ line :: rest
      ∧ Forall unrecognised pre
      ∧ lower line ∈ yes_answers.
Proof.
  rewrite run_unfold.
  assert (Hnot : ∀ (e : ending) (generating : list action),
            batch_events generating = [] →
            ¬ (batch_events (e, checked ++ generating, @None (list line * option exn)).1.2 ≠ []
               ∨ (e, checked ++ generating, @None (list line * option exn)).2 ≠ None)).
  { intros e generating Hg [H|H]; apply H; [|reflexivity].
    cbn [fst snd]. apply checked_quiet, Hg. }
  destruct (LLMManager.check_connection tags); cbn [andb negb];
    [|intros H; exfalso; rewrite <- (app_nil_r checked) in H;
      exact (Hnot _ [] eq_refl H)].
  destruct (test_connection smtp_check); cbn [andb negb];
    [|intros H; exfalso; rewrite <- (app_nil_r checked) in H;
      exact (Hnot _ [] eq_refl H)].
  destruct csv_file as [df|e];
    [|intros H; exfalso; rewrite <- (app_nil_r checked) in H;
      exact (Hnot _ [] eq_refl H)].
  cbv zeta.
  pose proof (generate_emails_no_batch (DataProcessor._clean_data df)) as Hgen.
  pose proof (review_emails_spec inputs) as Hrev.
  destruct (review_emails lower inputs) as [[[|]|] rest]; cbn [fst];
    [|intros H; exfalso; exact (Hnot _ _ Hgen H)
     |intros H; exfalso; exact (Hnot _ _ Hgen H)].
  intros _. destruct Hrev as (pre & line & Hin & Hpre & Hline).
  split; [reflexivity|]. split; [reflexivity|]. split; [eauto|]. eauto 10.
Qed.

Hypothesis delay_ok : takes_delay clock delay_between_emails.


End Run.

(** Witness of [run_sends_after_review]: a run over three rows whose
    operator types a line that is no answer and then [E]. *)
Lemma run_sends_after_review_witness :
  LLMManager.check_connection (Ok 200%Z) = true
  ∧ EmailSender.test_connection Examples.env_ok = true
  ∧ (∃ df, Ok Examples.three_rows = Ok df)
  ∧ ∃ pre line rest,
      Examples.typed = pre ++ line :: rest
      ∧ Forall (fun line : list N =>
                  (lower_latin line ∉ InternshipAutomation.yes_answers)
                  ∧ (lower_latin line ∉ InternshipAutomation.no_answers)) pre
      ∧ lower_latin line ∈ InternshipAutomation.yes_answers.
Proof.
  apply (run_sends_after_review lower_latin Examples.me (Ok 200%Z)
           Examples.env_ok (Ok Examples.three_rows) Examples.llm3
           Examples.typed Examples.first_ok Examples.clock_ok Examples.today
           Examples.cv Examples.applicant 30).
  left. vm_compute. discriminate.
Defined.

(** The run of the witnesses: the two checks, the three calls of the model
    with a pause after each that returned, and the batch; the subject line
    of the first answer is taken out, the second company has no body and
    gets nothing. *)
Example run_three_rows :
  ∃ results report,
    InternshipAutomation.run lower_latin Examples.me (Ok 200%Z)
      Examples.env_ok (Ok Examples.three_rows) Examples.llm3 Examples.typed
      Examples.first_ok Examples.clock_ok Examples.today Examples.cv
      Examples.applicant 30
    = (InternshipAutomation.Completed results,
       [InternshipAutomation.ATags; InternshipAutomation.ASmtpTest;
        InternshipAutomation.AGenerate 0; InternshipAutomation.APause 2;
        InternshipAutomation.AGenerate 1;
        InternshipAutomation.AGenerate 2; InternshipAutomation.APause 2;
        InternshipAutomation.ABatch
          (EmailSender.EvSend 0 (u "hr@acme.com") (u "Acme") (u "Merhaba A")
                              true);
        InternshipAutomation.ABatch (EmailSender.EvSleep 30);
        InternshipAutomation.ABatch
          (EmailSender.EvSend 1 (u "info@cem.com.tr") (u "Cem")
                              (u "Merhaba C") false);
        InternshipAutomation.ABatch (EmailSender.EvRate 1 2)],
       Some report).
Proof. eexists _, _. vm_compute. reflexivity. Qed.

(** When the operator says no, the relay has been logged in to by
    [test_connection] and the model has been called, and nothing else. *)
Example run_stopped :
  InternshipAutomation.run lower_latin Examples.me (Ok 200%Z)
    Examples.env_ok (Ok Examples.three_rows) Examples.llm3 [u "h"]
    Examples.first_ok Examples.clock_ok Examples.today Examples.cv
    Examples.applicant 30
  = (InternshipAutomation.Stopped,
     [InternshipAutomation.ATags; InternshipAutomation.ASmtpTest;
      InternshipAutomation.AGenerate 0; InternshipAutomation.APause 2;
      InternshipAutomation.AGenerate 1;
      InternshipAutomation.AGenerate 2; InternshipAutomation.APause 2],
     None).
Proof. vm_compute. reflexivity. Qed.

(** When no answer of the model leaves a body, the operator's yes ends the
    run with [sys.exit(1)]. *)
Example run_nothing_generated :
  InternshipAutomation.run lower_latin Examples.me (Ok 200%Z)
    Examples.env_ok (Ok Examples.three_rows)
    (fun _ => {| InternshipAutomation.api_response := Raise OtherException;
                 InternshipAutomation.saved := Ok tt |})
    Examples.typed Examples.first_ok Examples.clock_ok Examples.today
    Examples.cv Examples.applicant 30
  = (InternshipAutomation.Exit1,
     [InternshipAutomation.ATags; InternshipAutomation.ASmtpTest;
      InternshipAutomation.AGenerate 0; InternshipAutomation.AGenerate 1;
      InternshipAutomation.AGenerate 2],
     None).
Proof. vm_compute. reflexivity. Qed.


(** ** The static variant: sending and the loop over the companies *)

Section StaticSend.
Import Static.
Variable self : otomasyon.

Lemma smtp_session_calls (env : gonder_env) (msg msg' : mesaj) (ok : bool) :
  (CSendMessage msg', ok) ∈ (smtp_session self env msg).2 → msg' = msg.
Proof.
  unfold smtp_session, and_then, made.
  destruct (on_connect env), (on_starttls env), (on_login env),
    (on_send_message env), (on_quit env); simpl;
    rewrite ?elem_of_cons, ?elem_of_nil; intuition congruence.
Qed.

Lemma smtp_session_ok (env : gonder_env) (msg : mesaj) :
  (∃ u, (smtp_session self env msg).1 = Ok u)
  ↔ on_connect env = None ∧ on_starttls env = None ∧ on_login env = None
    ∧ on_send_message env = None ∧ on_quit env = None.
Proof.
  unfold smtp_session, and_then, made.
  destruct (on_connect env), (on_starttls env), (on_login env),
    (on_send_message env), (on_quit env); simpl; split;
    try (intros [u H]; discriminate);
    try (intros (H1 & H2 & H3 & H4 & H5); discriminate);
    eauto 10.
Qed.

Lemma smtp_session_sent (env : gonder_env) (msg : mesaj) (u : unit) :
  (smtp_session self env msg).1 = Ok u →
  (smtp_session self env msg).2
  = [(CConnect (smtp_server self) (smtp_port self), true); (CStartTLS, true);
     (CLogin (gonderici_email self) (gonderici_sifre self), true);
     (CSendMessage msg, true); (CQuit, true)].
Proof.
  unfold smtp_session, and_then, made.
  destruct (on_connect env), (on_starttls env), (on_login env),
    (on_send_message env), (on_quit env); simpl; intros H;
    try discriminate; reflexivity.
Qed.

(** X11.  [eposta_gonder] never sends an e-mail without the CV.  When the
    CV file is missing or cannot be read it returns [False] and no call is
    made to the relay; every message that is handed to the relay goes from
    the sender's address to the company's, with the subject and the body of
    the template and with the content of the CV file attached; and [True]
    is returned exactly when the CV was read and the five steps of the
    session, closing included, returned, the calls being then the five of
    a whole session. *)
Theorem eposta_gonder_with_cv (env : gonder_env) (sirket : SirketBilgisi)
    (eposta_icerigi : eposta) :
  let result := eposta_gonder self env sirket eposta_icerigi in
  (cv_exists env = false ∨ (∃ e, cv_bytes env = Raise e) →
   result = (false, []))
  ∧ (∀ msg ok, (CSendMessage msg, ok) ∈ result.2 →
       ∃ content,
         cv_exists env = true ∧ cv_bytes env = Ok content
         ∧ msg = {| msg_from := gonderici_email self; msg_to := mail sirket;
                    msg_subject := konu eposta_icerigi;
                    msg_body := govde eposta_icerigi;
                    msg_cv := Some (cv_dosya_yolu self, content) |})
  ∧ (result.1 = true
     ↔ cv_exists env = true ∧ (∃ content, cv_bytes env = Ok content)
       ∧ on_connect env = None ∧ on_starttls env = None
       ∧ on_login env = None ∧ on_send_message env = None
       ∧ on_quit env = None)
  ∧ (result.1 = true →
     ∃ msg,
       result.2
       = [(CConnect (smtp_server self) (smtp_port self), true);
          (CStartTLS, true);
          (CLogin (gonderici_email self) (gonderici_sifre self), true);
          (CSendMessage msg, true); (CQuit, true)]).
Proof.
  intros result. subst result. unfold eposta_gonder, cv_dosyasini_ekle.
  destruct (cv_exists env); simpl.
  2:{ split; [reflexivity|]. split.
      - intros msg ok H. apply elem_of_nil in H. contradiction.
      - split; [|discriminate]. split; [discriminate|].
        intros (H & _). discriminate. }
  destruct (cv_bytes env) as [content|e]; simpl.
  2:{ split; [reflexivity|]. split.
      - intros msg ok H. apply elem_of_nil in H. contradiction.
      - split; [|discriminate]. split; [discriminate|].
        intros (_ & [c H] & _). discriminate. }
  set (msg := {| msg_from := gonderici_email self; msg_to := mail sirket;
                 msg_subject := konu eposta_icerigi;
                 msg_body := govde eposta_icerigi;
                 msg_cv := Some (cv_dosya_yolu self, content) |}).
  pose proof (smtp_session_ok env msg) as Hok.
  pose proof (smtp_session_sent env msg) as Hsent.
  pose proof (smtp_session_calls env msg) as Hcalls.
  destruct (smtp_session self env msg) as [[[]|e] calls]; simpl in *.
  - split; [intros [H|[e H]]; discriminate|]. split.
    + intros msg' ok H. exists content. rewrite (Hcalls _ _ H). auto.
    + split.
      * split; [intros _|reflexivity].
        destruct Hok as [Hok _]. destruct Hok as (H1 & H2 & H3 & H4 & H5); eauto 10.
      * intros _. exists msg. apply (Hsent tt). reflexivity.
  - split; [intros [H|[e' H]]; discriminate|]. split.
    + intros msg' ok H. exists content. rewrite (Hcalls _ _ H). auto.
    + split; [|discriminate]. split; [discriminate|].
      intros (_ & _ & H). apply Hok in H as [u H]. discriminate.
Qed.

End StaticSend.

(** A session whose closing raises after the relay took the message:
    [eposta_gonder] returns [False] for an e-mail that was sent. *)
Example eposta_gonder_sent_but_false :
  ∃ msg,
    Static.eposta_gonder
      {| Static.smtp_server := u "smtp.gmail.com"; Static.smtp_port := 587;
         Static.gonderici_email := u "me@example.org";
         Static.gonderici_sifre := u "secret";
         Static.cv_dosya_yolu := u "cv.pdf" |}
      {| Static.cv_exists := true; Static.cv_bytes := Ok [37; 80; 68; 70]%N;
         Static.on_connect := None; Static.on_starttls := None;
         Static.on_login := None; Static.on_send_message := None;
         Static.on_quit := Some SMTPResponseException |}
      {| Static.sirket_adi := u "Acme"; Static.adres := []; Static.numara := [];
         Static.web_sitesi := []; Static.mail := u "hr@acme.com";
         Static.durum := []; Static.notlar := [] |}
      {| Static.konu := u "Staj"; Static.govde := u "Merhaba" |}
    = (false,
       [(Static.CConnect (u "smtp.gmail.com") 587, true);
        (Static.CStartTLS, true);
        (Static.CLogin (u "me@example.org") (u "secret"), true);
        (Static.CSendMessage msg, true); (Static.CQuit, false)]).
Proof. eexists. vm_compute. reflexivity. Qed.

Section StaticLoop.
Import Static.
Variable self : otomasyon.
Variables turkce_eposta_olustur ingilizce_eposta_olustur : SirketBilgisi -> eposta.
Variable world : nat -> gonder_env.

Local Abbreviation loop_from :=
  (toplu_loop self turkce_eposta_olustur ingilizce_eposta_olustur world).

Local Abbreviation choices :=
  (fun inputs : list (list N) => length (List.filter is_choice inputs)).

Local Abbreviation total :=
  (fun n : sayac =>
     basarili_gonderim n + basarisiz_gonderim n + atlanan_gonderim n).

Lemma dil_secimi_yap_spec (inputs : list (list N)) :
  match dil_secimi_yap inputs with
  | (None, _) => choices inputs = 0
  | (Some _, rest) => choices inputs = S (choices rest)
  end.
Proof.
  induction inputs as [|line rest IH]; [reflexivity|].
  simpl. unfold is_choice at 1 3 5.
  destruct (bool_decide_reflect (strip line = [49%N])) as [E|E1].
  { rewrite E. reflexivity. }
  destruct (bool_decide_reflect (strip line = [50%N])) as [E|E2].
  { rewrite E. reflexivity. }
  destruct (bool_decide_reflect (strip line = [51%N])) as [E|E3].
  { rewrite E. reflexivity. }
  destruct (bool_decide_reflect (strip line ∈ [[49%N]; [50%N]; [51%N]]))
    as [Hin|_]; [|exact IH].
  exfalso. rewrite !elem_of_cons, elem_of_nil in Hin. tauto.
Qed.

Lemma gonderilenler_app (l1 l2 : list olay) :
  gonderilenler (l1 ++ l2) = gonderilenler l1 ++ gonderilenler l2.
Proof. unfold gonderilenler. apply omap_app. Qed.

Lemma toplu_loop_counts (sirketler : list SirketBilgisi) :
  ∀ i inputs store n done,
  match loop_from i sirketler inputs store n done with
  | (Some n', _, done') =>
      total n' = total n + length sirketler
      ∧ basarili_gonderim n' + length (gonderilenler done)
        = basarili_gonderim n + length (gonderilenler done')
      ∧ length sirketler <= choices inputs
  | (None, _, _) => choices inputs < length sirketler
  end.
Proof.
  induction sirketler as [|sirket rest IH]; intros i inputs store n done.
  - simpl. lia.
  - simpl toplu_loop. pose proof (dil_secimi_yap_spec inputs) as Hsec.
    destruct (dil_secimi_yap inputs) as [[[d|]|] inputs'].
    + destruct (eposta_gonder self (world i) sirket _) as [[|] calls].
      * match goal with |- context [loop_from ?i ?l ?inp ?st ?n ?d] =>
          specialize (IH i inp st n d);
          destruct (loop_from i l inp st n d) as [[[n'|] store'] done']
        end.
        -- rewrite gonderilenler_app, length_app in IH. simpl in IH.
           simpl length. lia.
        -- simpl length. lia.
      * match goal with |- context [loop_from ?i ?l ?inp ?st ?n ?d] =>
          specialize (IH i inp st n d);
          destruct (loop_from i l inp st n d) as [[[n'|] store'] done']
        end.
        -- rewrite gonderilenler_app, length_app in IH. simpl in IH.
           simpl length. lia.
        -- simpl length. lia.
    + match goal with |- context [loop_from ?i ?l ?inp ?st ?n ?d] =>
        specialize (IH i inp st n d);
        destruct (loop_from i l inp st n d) as [[[n'|] store'] done']
      end; simpl in IH; simpl length; lia.
    + simpl length. lia.
Qed.

(** X12.  [toplu_gonderim_yap] reaches its report exactly when the
    operator types at least as many choices ([1], [2] or [3], spaces
    aside) as there are companies; the input ending before that leaves the
    loop with [EOFError].  In the report the three counters add up to the
    number of companies, and the count of successes is the number of sends
    that returned [True]. *)
Theorem toplu_gonderim_yap_counts (sirketler : list SirketBilgisi)
    (inputs : list (list N)) (store : csv_store) :
  match toplu_gonderim_yap self turkce_eposta_olustur ingilizce_eposta_olustur
          world sirketler inputs store with
  | (Some n, _, done) =>
      length sirketler <= length (List.filter is_choice inputs)
      ∧ basarili_gonderim n + basarisiz_gonderim n + atlanan_gonderim n
        = length sirketler
      ∧ basarili_gonderim n = length (gonderilenler done)
  | (None, _, _) => length (List.filter is_choice inputs) < length sirketler
  end.
Proof.
  unfold toplu_gonderim_yap.
  pose proof (toplu_loop_counts sirketler 0 inputs store
                {| basarili_gonderim := 0; basarisiz_gonderim := 0;
                   atlanan_gonderim := 0 |} []) as H.
  destruct (loop_from 0 sirketler inputs store _ []) as [[[n|] store'] done];
    simpl in H; [|exact H].
  lia.
Qed.

End StaticLoop.

Section StaticResume.
Import Static.
Variable lower : list N -> list N.
Variable self : otomasyon.
Variables turkce_eposta_olustur ingilizce_eposta_olustur : SirketBilgisi -> eposta.
Variable world : nat -> gonder_env.

Local Abbreviation loop_from :=
  (toplu_loop self turkce_eposta_olustur ingilizce_eposta_olustur world).

Local Abbreviation not_among :=
  (fun (names : list (list N)) (s : SirketBilgisi) =>
     negb (bool_decide (sirket_adi s ∈ names))).

Local Abbreviation seven :=
  (fun store : csv_store =>
     header store = fieldnames ∧ Forall (fun r => length r = 7) (records store)).

Lemma filter_not_among (name : list N) (names : list (list N))
    (l : list SirketBilgisi) :
  List.filter (not_among names)
    (List.filter (fun s => negb (bool_decide (sirket_adi s = name))) l)
  = List.filter (not_among (name :: names)) l.
Proof.
  induction l as [|s l IH]; [reflexivity|]. simpl.
  destruct (bool_decide_reflect (sirket_adi s = name)) as [E|E]; simpl.
  - rewrite IH. destruct (bool_decide_reflect (sirket_adi s ∈ name :: names))
      as [_|H]; [reflexivity|].
    exfalso. apply H. rewrite E. left.
  - rewrite IH.
    destruct (bool_decide_reflect (sirket_adi s ∈ names)) as [H|H];
      destruct (bool_decide_reflect (sirket_adi s ∈ name :: names)) as [H'|H'];
      simpl; try reflexivity.
    + exfalso. apply H'. right. exact H.
    + exfalso. apply elem_of_cons in H' as [H'|H']; contradiction.
Qed.

Lemma filter_not_among_nil (l : list SirketBilgisi) :
  List.filter (not_among []) l = l.
Proof.
  induction l as [|s l IH]; [reflexivity|]. simpl.
  destruct (bool_decide_reflect (sirket_adi s ∈ [])) as [H|_].
  - apply elem_of_nil in H. contradiction.
  - simpl. f_equal. exact IH.
Qed.

Hypothesis durum_says_sent : ∀ d, already_sent lower (strip (durum_of d)) = true.

Lemma toplu_loop_file (sirketler : list SirketBilgisi) :
  ∀ i inputs store n done,
  seven store →
  seven (loop_from i sirketler inputs store n done).1.2
  ∧ ∃ new,
      (loop_from i sirketler inputs store n done).2 = done ++ new
      ∧ omap (keep_record lower)
             (records (loop_from i sirketler inputs store n done).1.2)
        = List.filter (not_among (gonderilenler new))
                      (omap (keep_record lower) (records store)).
Proof.
  induction sirketler as [|sirket rest IH]; intros i inputs store n done Hs.
  - simpl. split; [exact Hs|]. exists []. rewrite app_nil_r.
    split; [reflexivity|]. simpl. rewrite filter_not_among_nil. reflexivity.
  - simpl toplu_loop.
    destruct (dil_secimi_yap inputs) as [[[d|]|] inputs'].
    + destruct (eposta_gonder self (world i) sirket _) as [[|] calls].
      * destruct Hs as [Hh Hall].
        rewrite (guncelle_seven (sirket_adi sirket) (durum_of d) store Hh Hall).
        match goal with |- context [loop_from ?i ?l ?inp ?st ?n ?d] =>
          destruct (IH i inp st n d) as (Hs' & new & Hdone & Hread)
        end.
        { split; [reflexivity|]. simpl. apply with_durum_seven, Hall. }
        split; [exact Hs'|].
        exists ([OGonder i sirket d calls true; OSleep 2] ++ new).
        rewrite Hdone, <- app_assoc. split; [reflexivity|].
        rewrite Hread. simpl records.
        rewrite (omap_keep_with_durum lower _ _ (durum_says_sent d) _ Hall).
        rewrite filter_not_among. reflexivity.
      * match goal with |- context [loop_from ?i ?l ?inp ?st ?n ?d] =>
          destruct (IH i inp st n d Hs) as (Hs' & new & Hdone & Hread)
        end.
        split; [exact Hs'|].
        exists ([OGonder i sirket d calls false] ++ new).
        rewrite Hdone, <- app_assoc. split; [reflexivity|]. exact Hread.
    + apply IH, Hs.
    + simpl. split; [exact Hs|]. exists []. rewrite app_nil_r.
      split; [reflexivity|]. simpl. rewrite filter_not_among_nil. reflexivity.
Qed.

(** X13.  Resumption of the static variant.  On a file of the seven
    columns, whatever the companies worked on, the operator's choices and
    the outcomes of the sends, [toplu_gonderim_yap] leaves a file of the
    seven columns from which [csv_dosyasini_oku] returns what it returned
    before the run without the companies that have the name of a company
    a send returned [True] for; this holds also when the run is cut by the
    end of the input.  The two statuses must read as sent in lower
    case. *)
Theorem toplu_then_read (sirketler : list SirketBilgisi)
    (inputs : list (list N)) (store : csv_store) :
  header store = fieldnames →
  Forall (fun r => length r = 7) (records store) →
  let result :=
    toplu_gonderim_yap self turkce_eposta_olustur ingilizce_eposta_olustur
                       world sirketler inputs store in
  header result.1.2 = fieldnames
  ∧ Forall (fun r => length r = 7) (records result.1.2)
  ∧ ∃ before,
      csv_dosyasini_oku lower store = Ok before
      ∧ csv_dosyasini_oku lower result.1.2
        = Ok (List.filter
                (fun s => negb (bool_decide
                                  (sirket_adi s ∈ gonderilenler result.2)))
                before).
Proof.
  intros Hh Hall result. subst result. unfold toplu_gonderim_yap.
  destruct (toplu_loop_file sirketler 0 inputs store
              {| basarili_gonderim := 0; basarisiz_gonderim := 0;
                 atlanan_gonderim := 0 |} [] (conj Hh Hall))
    as ([Hh' Hall'] & new & Hdone & Hread).
  split; [exact Hh'|]. split; [exact Hall'|].
  exists (omap (keep_record lower) (records store)).
  unfold csv_dosyasini_oku, DictReader. rewrite Hh, Hh'.
  rewrite (oku_records lower _ Hall), (oku_records lower _ Hall').
  split; [reflexivity|]. rewrite Hread, Hdone. reflexivity.
Qed.

End StaticResume.

(** Witness of [toplu_then_read]: the companies file of the examples, a
    Turkish mail to [Acme] and the second company skipped. *)
Lemma toplu_then_read_witness :
  let result :=
    Static.toplu_gonderim_yap Examples.otomasyon_me Examples.sablon
      Examples.sablon (fun _ => Examples.gonder_ok) Examples.two_sirket
      Examples.secimler Examples.companies_file in
  Static.header result.1.2 = Static.fieldnames
  ∧ Forall (fun r => length r = 7) (Static.records result.1.2)
  ∧ ∃ before,
      Static.csv_dosyasini_oku lower_latin Examples.companies_file = Ok before
      ∧ Static.csv_dosyasini_oku lower_latin result.1.2
        = Ok (List.filter
                (fun s => negb (bool_decide
                                  (Static.sirket_adi s
                                   ∈ Static.gonderilenler result.2)))
                before).
Proof.
  apply (toplu_then_read lower_latin Examples.otomasyon_me Examples.sablon
           Examples.sablon (fun _ => Examples.gonder_ok)).
  - intros []; vm_compute; reflexivity.
  - reflexivity.
  - repeat constructor.
Defined.

(** The run of the witness: one send, the status of [Acme] written, and
    the next read offers [Acme Ar-Ge] alone. *)
Example toplu_two_sirket :
  ∃ calls store,
    Static.toplu_gonderim_yap Examples.otomasyon_me Examples.sablon
      Examples.sablon (fun _ => Examples.gonder_ok) Examples.two_sirket
      Examples.secimler Examples.companies_file
    = (Some {| Static.basarili_gonderim := 1; Static.basarisiz_gonderim := 0;
               Static.atlanan_gonderim := 1 |},
       store,
       [Static.OGonder 0 (Examples.sirket_of "Acme" "hr@acme.com")
                       Static.turkce calls true;
        Static.OSleep 2])
    ∧ Static.sirket_adi <$> default []
        (match Static.csv_dosyasini_oku lower_latin store with
         | Ok l => Some l
         | Raise _ => None
         end)
      = [u "Acme Ar-Ge"].
Proof. eexists _, _. split; vm_compute; reflexivity. Qed.

(** ** The files of the generated e-mails *)

Section SaveFacts.
Import LLMManager.
Variable isalnum : N -> bool.

Lemma replace_space (s : list N) :
  replace [32%N] [95%N] s
  = map (fun c => if (c =? 32)%N then 95%N else c) s.
Proof.
  unfold replace. induction s as [|c t IH]; [reflexivity|].
  rewrite replace_from_cons.
  change (startswith [32%N] (c :: t)) with ((32 =? c)%N && true).
  change (drop (length [32%N] - 1) t) with t.
  rewrite IH, andb_true_r, N.eqb_sym.
  change (map ?f (c :: t)) with (f c :: map f t). cbv beta.
  destruct (c =? 32)%N; reflexivity.
Qed.

Lemma rstrip_elem (c : N) (s : list N) : c ∈ rstrip s → c ∈ s.
Proof.
  intros H. destruct (rstrip_prefix s) as [w Hw]. rewrite Hw.
  apply elem_of_app. left. exact H.
Qed.

Lemma safe_name_elem (company_name : list N) (c : N) :
  c ∈ safe_name isalnum company_name →
  c ≠ 32%N ∧ (isalnum c = true ∨ c = 45%N ∨ c = 95%N).
Proof.
  unfold safe_name. rewrite replace_space. intros H.
  change (map ?f ?l) with (f <$> l) in H.
  apply list_elem_of_fmap in H as (c0 & Hc & H0).
  apply rstrip_elem, elem_of_List_filter in H0 as [Hk _].
  destruct (N.eqb_spec c0 32) as [Heq|Hne]; subst c.
  - split; [discriminate|]. right. right. reflexivity.
  - split; [exact Hne|].
    apply orb_true_iff in Hk as [Hk|Hk]; [left; exact Hk|].
    apply bool_decide_eq_true in Hk.
    rewrite !elem_of_cons, elem_of_nil in Hk.
    destruct Hk as [Hk|[Hk|[Hk|[]]]]; [contradiction|auto|auto].
Qed.

(** X14.  The file name [save_generated_email] makes of a company name
    holds only characters that [isalnum] accepts, hyphens and underscores,
    and no space.  As no path separator is alphanumeric, whatever the name
    of the company in the file (a name with [/] or [..] in it), the e-mail
    is written to a file directly inside [save_dir], with the extension
    [.txt]. *)
Theorem save_generated_email_path
    (save_dir company_name timestamp : list N) :
  isalnum 47%N = false →
  (47%N ∉ timestamp) →
  Forall (fun c => c ≠ 32%N ∧ (isalnum c = true ∨ c = 45%N ∨ c = 95%N))
         (safe_name isalnum company_name)
  ∧ ∃ filename,
      filename = safe_name isalnum company_name ++ [95%N] ++ timestamp ++ txt
      ∧ (47%N ∉ filename)
      ∧ filepath isalnum save_dir company_name timestamp
        = (if bool_decide (save_dir = []) || bool_decide (last save_dir = Some 47%N)
           then save_dir else save_dir ++ [47%N]) ++ filename.
Proof.
  intros Hsep Hts. split.
  { apply Forall_forall. intros c. apply safe_name_elem. }
  eexists. split; [reflexivity|].
  assert (Hno : 47%N ∉ safe_name isalnum company_name ++ [95%N] ++ timestamp ++ txt).
  { rewrite !elem_of_app. intros [H|[H|[H|H]]].
    - apply safe_name_elem in H as [_ [H|[H|H]]];
        [congruence|discriminate|discriminate].
    - apply list_elem_of_singleton in H. discriminate.
    - contradiction.
    - unfold txt in H. rewrite !elem_of_cons, elem_of_nil in H.
      destruct H as [H|[H|[H|[H|[]]]]]; discriminate. }
  split; [exact Hno|].
  unfold filepath, path_join.
  destruct (startswith [47%N] _) eqn:Hs.
  - exfalso. apply startswith_spec in Hs as [r Hr]. apply Hno.
    rewrite Hr. left.
  - destruct (_ || _); [reflexivity|]. rewrite <- app_assoc. reflexivity.
Qed.

End SaveFacts.

(** Witness of [save_generated_email_path]: a name that climbs out of the
    directory, with a table of [isalnum] for the Latin letters and the
    digits. *)
Lemma save_generated_email_path_witness :
  Forall (fun c => c ≠ 32%N
                   ∧ (Examples.isalnum_latin c = true ∨ c = 45%N ∨ c = 95%N))
         (LLMManager.safe_name Examples.isalnum_latin (u "../../etc/Acme A.S. "))
  ∧ ∃ filename,
      filename
      = LLMManager.safe_name Examples.isalnum_latin (u "../../etc/Acme A.S. ")
          ++ [95%N] ++ u "20250101_100000" ++ LLMManager.txt
      ∧ (47%N ∉ filename)
      ∧ LLMManager.filepath Examples.isalnum_latin (u "generated_emails")
          (u "../../etc/Acme A.S. ") (u "20250101_100000")
        = (if bool_decide (u "generated_emails" = [])
              || bool_decide (last (u "generated_emails") = Some 47%N)
           then u "generated_emails" else u "generated_emails" ++ [47%N])
            ++ filename.
Proof.
  apply (save_generated_email_path Examples.isalnum_latin).
  - reflexivity.
  - intros H. apply list_elem_of_In in H. vm_compute in H.
    repeat (destruct H as [H|H]; [discriminate|]). exact H.
Defined.

(** The path of the witness, and two companies that get one file name. *)
Example save_generated_email_paths :
  LLMManager.filepath Examples.isalnum_latin (u "generated_emails")
    (u "../../etc/Acme A.S. ") (u "20250101_100000")
  = u "generated_emails/etcAcme_AS_20250101_100000.txt"
  ∧ LLMManager.safe_name Examples.isalnum_latin (u "A.B")
    = LLMManager.safe_name Examples.isalnum_latin (u "AB").
Proof. split; vm_compute; reflexivity. Qed.

(** ** The companies that are left without a body *)

Section BlankBodies.
Import LLMManager InternshipAutomation.
Variable lower : list N -> list N.

Lemma lstrip_nil_iff (s : list N) :
  lstrip s = [] ↔ Forall (fun c => isspace c = true) s.
Proof.
  induction s as [|c t IH]; simpl.
  - split; [constructor|reflexivity].
  - destruct (isspace c) eqn:E.
    + rewrite IH. split; [intros H; constructor; assumption|].
      intros H. apply Forall_cons in H as [_ H]. exact H.
    + split; [discriminate|]. intros H. apply Forall_cons in H as [H _].
      congruence.
Qed.

Lemma strip_nil_iff (s : list N) :
  strip s = [] ↔ Forall (fun c => isspace c = true) s.
Proof.
  rewrite <- lstrip_nil_iff. split; [|apply strip_lstrip_nil].
  unfold strip. destruct (lstrip s) as [|c t] eqn:E; [reflexivity|].
  apply lstrip_head in E. rewrite rstrip_cons.
  destruct (rstrip t); [rewrite E|]; discriminate.
Qed.

Lemma filter_nil_iff {A} (f : A -> bool) (l : list A) :
  List.filter f l = [] ↔ Forall (fun x => f x = false) l.
Proof.
  induction l as [|x l IH]; simpl.
  - split; [constructor|reflexivity].
  - destruct (f x) eqn:E.
    + split; [discriminate|]. intros H. apply Forall_cons in H as [H _].
      congruence.
    + rewrite IH. split; [intros H; constructor; assumption|].
      intros H. apply Forall_cons in H as [_ H]. exact H.
Qed.

Lemma clean_response_nil_iff (response : list N) :
  _clean_response lower response = []
  ↔ Forall (fun line => should_skip lower line = true ∨ strip line = [])
           (split NL (strip response)).
Proof.
  destruct (clean_response_lines lower response) as (Hout & Hkept & _).
  rewrite Hout.
  set (kept := List.filter (keeps lower) (split NL (strip response))) in *.
  assert (Hiff : strip (join [NL] kept) = [] ↔ kept = []).
  { split; [|intros ->; reflexivity].
    intros Hs. destruct kept as [|l rest]; [reflexivity|]. exfalso.
    apply Forall_cons in Hkept as [(_ & Hl & _) _]. apply Hl.
    destruct (join_cons_app [NL] l rest) as [Y HY]. rewrite HY in Hs.
    apply strip_nil_iff in Hs. apply strip_nil_iff.
    apply Forall_app in Hs as [Hs _]. exact Hs. }
  rewrite Hiff. unfold kept. rewrite filter_nil_iff.
  split; intros H; (eapply Forall_impl; [exact H|]); intros line; simpl;
    unfold keeps.
  - intros Hk. apply andb_false_iff in Hk as [Hk|Hk].
    + left. apply negb_false_iff in Hk. exact Hk.
    + right. apply negb_false_iff, bool_decide_eq_true in Hk. exact Hk.
  - intros [Hk|Hk]; [rewrite Hk; reflexivity|].
    rewrite Hk, andb_false_r. reflexivity.
Qed.

Lemma clean_response_stripped (response : list N) :
  strip (_clean_response lower response) = _clean_response lower response.
Proof. unfold _clean_response. apply strip_idem. Qed.

(** X15.  The body [generate_emails] keeps for a company is blank, so that
    [send_emails] passes the company over, exactly when the call of the
    model raised, or the file of the e-mail could not be saved, or every
    line of the stripped answer is blank or holds one of the labels that
    [_clean_response] takes out. *)
Theorem generate_one_blank (env : llm_env) :
  strip (generate_one lower env) = []
  ↔ (∃ e, api_response env = Raise e)
    ∨ (∃ e, saved env = Raise e)
    ∨ ∃ response,
        api_response env = Ok response
        ∧ Forall (fun line => should_skip lower line = true ∨ strip line = [])
                 (split NL (strip response)).
Proof.
  unfold generate_one.
  destruct (api_response env) as [response|e]; simpl.
  2:{ split; [eauto|reflexivity]. }
  destruct (saved env) as [[]|e]; simpl.
  2:{ split; [eauto|reflexivity]. }
  rewrite clean_response_stripped, clean_response_nil_iff. split.
  - intros H. right. right. eauto.
  - intros [[e H]|[[e H]|(r & Hr & H)]]; try discriminate.
    inversion Hr. subst r. exact H.
Qed.

End BlankBodies.

(** An answer of labels and blank lines leaves no body. *)
Example generate_one_labels_only :
  InternshipAutomation.generate_one lower_latin
    {| InternshipAutomation.api_response :=
         Ok (u "Konu: Staj" ++ [NL; 32; NL]%N ++ u "To: ik@bora.com.tr");
       InternshipAutomation.saved := Ok tt |}
  = [].
Proof. vm_compute. reflexivity. Qed.

(** ** A delay below zero *)

Section NegativeDelay.
Import EmailSender.
Variable self : sender.
Variable world : nat -> send_env.
Variable clock : nat -> Z -> option exn.
Variables cv_path applicant_name : list N.
Variable delay_seconds : Z.
Hypothesis delay_negative : (delay_seconds < 0)%Z.

(** What [time.sleep] raises on a duration below zero. *)
Lemma time_sleep_negative (k : Z -> option exn) (secs : Z) (st : state) :
  (secs < 0)%Z →
  time_sleep k secs st
  = (Raise (if (secs <? - sleep_max)%Z then OverflowError else ValueError), st).
Proof.
  intros Hs. unfold time_sleep.
  destruct (Z.ltb_spec sleep_max secs); [unfold sleep_max in *; lia|].
  cbn [orb]. destruct (secs <? - sleep_max)%Z; [reflexivity|].
  destruct (Z.ltb_spec secs 0); [reflexivity|lia].
Qed.

Lemma half_delay_negative : (delay_seconds / 2 < 0)%Z.
Proof. apply Z.div_lt_upper_bound; lia. Qed.

Lemma iteration_negative (total_emails : nat) (company_info : gmap (list N) (list N))
    (email_body : list N) (st : state) :
  2 <= total_emails →
  ∃ r,
    iteration self world clock cv_path applicant_name delay_seconds
              total_emails 0 company_info email_body st
    = (Raise (if (delay_seconds / 2 <? - sleep_max)%Z
              then OverflowError else ValueError),
       {| results := r;
          trace :=
            trace st
              ++ match recipient company_info with
                 | Some (company_name, to_email) =>
                     [EvSend 0 to_email company_name email_body
                             (turn_sent self world cv_path applicant_name 0
                                        company_info email_body)]
                 | None => []
                 end |}).
Proof.
  intros Htot.
  assert (Hnext : (Z.of_nat 0 <? Z.of_nat total_emails - 1)%Z = true).
  { apply Z.ltb_lt. lia. }
  unfold iteration, try_catch, turn_sent, recipient, getitem.
  rewrite Hnext. unfold when.
  destruct (company_info !! K_sirket_adi) as [company_name|] eqn:Hn; simpl.
  - destruct (company_info !! K_email) as [to_email|] eqn:He; simpl.
    + destruct (send_application_email_returns self cv_path applicant_name
                  (world 0) to_email company_name email_body) as [b Hb].
      unfold bind, ret, lift, log. rewrite Hb.
      destruct b; unfold record_success, record_failed;
        rewrite (time_sleep_negative _ delay_seconds) by exact delay_negative;
        rewrite (time_sleep_negative _ (delay_seconds / 2))
          by exact half_delay_negative;
        simpl; eexists; reflexivity.
    + unfold bind, ret, raise, record_failed.
      rewrite time_sleep_negative by exact half_delay_negative.
      simpl. rewrite app_nil_r. eexists. reflexivity.
  - unfold bind, raise, record_failed.
    rewrite time_sleep_negative by exact half_delay_negative.
    simpl. rewrite app_nil_r. eexists. reflexivity.
Qed.

(** X16.  With a delay below zero and more than one company,
    [send_batch_emails] returns no results: the send of the first turn is
    made, the sleep after it raises inside the [try], the handler raises
    from its own sleep of half the delay, and this exception leaves the
    call: [ValueError], or [OverflowError] when the nanoseconds of half the
    delay do not fit 64 bits.  No later company is worked on. *)
Theorem batch_negative_delay_aborts
    (first second : gmap (list N) (list N))
    (others : list (gmap (list N) (list N)))
    (email_body : list N) (email_bodies : list (list N)) :
  send_batch_emails self world clock (first :: second :: others)
                    (email_body :: email_bodies) cv_path applicant_name
                    delay_seconds
  = (Raise (if (delay_seconds / 2 <? - sleep_max)%Z
            then OverflowError else ValueError),
     match recipient first with
     | Some (company_name, to_email) =>
         [EvSend 0 to_email company_name email_body
                 (turn_sent self world cv_path applicant_name 0 first email_body)]
     | None => []
     end).
Proof.
  destruct (iteration_negative (length (first :: second :: others)) first
              email_body {| results := empty_results; trace := [] |})
    as [r Hr]; [simpl; lia|].
  unfold send_batch_emails.
  change (zip (first :: second :: others) (email_body :: email_bodies))
    with ((first, email_body) :: zip (second :: others) email_bodies).
  cbn [loop]. unfold bind at 1 2. rewrite Hr. reflexivity.
Qed.

End NegativeDelay.

(** Witness of [batch_negative_delay_aborts]: three companies and a delay
    of minus one second. *)
Lemma batch_negative_delay_aborts_witness :
  EmailSender.send_batch_emails Examples.me Examples.first_ok
    Examples.clock_ok
    (Examples.company "Acme" "hr@acme.com"
       :: Examples.company "Bora" "ik@bora.com.tr"
       :: [Examples.company "Cem" "info@cem.com.tr"])
    (u "Merhaba A" :: [u "Merhaba B"; u "Merhaba C"])
    Examples.cv Examples.applicant (-1)
  = (Raise (if (-1 / 2 <? - EmailSender.sleep_max)%Z
            then OverflowError else ValueError),
     match EmailSender.recipient (Examples.company "Acme" "hr@acme.com") with
     | Some (company_name, to_email) =>
         [EmailSender.EvSend 0 to_email company_name (u "Merhaba A")
            (EmailSender.turn_sent Examples.me Examples.first_ok Examples.cv
               Examples.applicant 0 (Examples.company "Acme" "hr@acme.com")
               (u "Merhaba A"))]
     | None => []
     end).
Proof.
  apply (batch_negative_delay_aborts Examples.me Examples.first_ok
           Examples.clock_ok Examples.cv Examples.applicant (-1)).
  lia.
Defined.

(** The two exceptions, at a delay of minus one second and at one whose
    half is below the least duration of 64 bits. *)
Example batch_negative_delay_exceptions :
  (EmailSender.send_batch_emails Examples.me Examples.first_ok
     Examples.clock_ok Examples.three_companies Examples.bodies3
     Examples.cv Examples.applicant (-1)).1
  = Raise ValueError
  ∧ (EmailSender.send_batch_emails Examples.me Examples.first_ok
       Examples.clock_ok Examples.three_companies Examples.bodies3
       Examples.cv Examples.applicant (-18446744073)).1
    = Raise OverflowError.
Proof. split; vm_compute; reflexivity. Qed.

(** ** The static variant: the whole run *)

Section StaticRun.
Import Static.
Variable lower : list N -> list N.
Variable int_of : list N -> option Z.
Variable cv_path : list N.
Variable cv_at_start : bool.
Variables turkce_eposta_olustur ingilizce_eposta_olustur : SirketBilgisi -> eposta.
Variable world : nat -> gonder_env.

Lemma eposta_gonder_message (self : otomasyon) (env : gonder_env)
    (sirket : SirketBilgisi) (eposta_icerigi : eposta) (msg : mesaj)
    (b : bool) :
  (CSendMessage msg, b) ∈ (eposta_gonder self env sirket eposta_icerigi).2 →
  msg_to msg = mail sirket
  ∧ ∃ content, msg_cv msg = Some (cv_dosya_yolu self, content).
Proof.
  unfold eposta_gonder, cv_dosyasini_ekle.
  destruct (cv_exists env); simpl;
    [|intros H; apply elem_of_nil in H; contradiction].
  destruct (cv_bytes env) as [content|e]; simpl;
    [|intros H; apply elem_of_nil in H; contradiction].
  match goal with |- context [smtp_session self env ?m] =>
    pose proof (smtp_session_calls self env m msg b) as Hcalls;
    destruct (smtp_session self env m) as [[[]|e] calls]
  end; simpl in *; intros H; rewrite (Hcalls H); simpl; eauto.
Qed.

Lemma gonderim_turlari_app (l1 l2 : list olay) :
  gonderim_turlari (l1 ++ l2) = gonderim_turlari l1 ++ gonderim_turlari l2.
Proof. unfold gonderim_turlari. apply omap_app. Qed.

Lemma toplu_loop_events (self : otomasyon) (sirketler : list SirketBilgisi) :
  ∀ i inputs store n done,
  ∃ new,
    (toplu_loop self turkce_eposta_olustur ingilizce_eposta_olustur world
                i sirketler inputs store n done).2 = done ++ new
    ∧ gonderim_turlari new `sublist_of` seq i (length sirketler)
    ∧ ∀ j sirket d calls sent,
        OGonder j sirket d calls sent ∈ new →
        i <= j ∧ sirketler !! (j - i) = Some sirket
        ∧ calls
          = (eposta_gonder self (world j) sirket
               (match d with
                | turkce => turkce_eposta_olustur sirket
                | ingilizce => ingilizce_eposta_olustur sirket
                end)).2.
Proof.
  induction sirketler as [|sirket rest IH]; intros i inputs store n done.
  - exists []. simpl. rewrite app_nil_r. split; [reflexivity|].
    split; [constructor|]. intros j s d calls sent H.
    apply elem_of_nil in H. contradiction.
  - simpl toplu_loop.
    destruct (dil_secimi_yap inputs) as [[[d|]|] inputs'].
    + destruct (eposta_gonder self (world i) sirket _) as [sent calls] eqn:Hg.
      assert (Hstep : ∀ new' (tail : list olay),
                 gonderim_turlari new' `sublist_of` seq (S i) (length rest) →
                 (∀ j s d' c ok, OGonder j s d' c ok ∈ new' →
                    S i <= j ∧ rest !! (j - S i) = Some s
                    ∧ c = (eposta_gonder self (world j) s
                             (match d' with
                              | turkce => turkce_eposta_olustur s
                              | ingilizce => ingilizce_eposta_olustur s
                              end)).2) →
                 gonderim_turlari tail = [] →
                 gonderim_turlari
                   ((OGonder i sirket d calls sent :: tail) ++ new')
                   `sublist_of` seq i (length (sirket :: rest))
                 ∧ ∀ j s d' c ok,
                     OGonder j s d' c ok
                       ∈ (OGonder i sirket d calls sent :: tail) ++ new' →
                     (∀ secs, OSleep secs ∈ tail → True) →
                     Forall (fun o => ∃ secs, o = OSleep secs) tail →
                     i <= j ∧ (sirket :: rest) !! (j - i) = Some s
                     ∧ c = (eposta_gonder self (world j) s
                              (match d' with
                               | turkce => turkce_eposta_olustur s
                               | ingilizce => ingilizce_eposta_olustur s
                               end)).2).
      { intros new' tail Hsub Hev Htail. split.
        - rewrite gonderim_turlari_app. simpl. rewrite Htail. simpl.
          apply sublist_skip, Hsub.
        - intros j s d' c ok Hin _ Hsleeps.
          apply elem_of_app in Hin as [Hin|Hin].
          + apply elem_of_cons in Hin as [Heq|Hin].
            * inversion Heq; subst. rewrite Nat.sub_diag, Hg.
              split; [lia|]. split; reflexivity.
            * rewrite Forall_forall in Hsleeps.
              destruct (Hsleeps _ Hin) as [secs Hs]. discriminate.
          + destruct (Hev _ _ _ _ _ Hin) as (Hle & Hl & Hc).
            split; [lia|]. split; [|exact Hc].
            replace (j - i) with (S (j - S i)) by lia. exact Hl. }
      destruct sent.
      * match goal with |- context [toplu_loop _ _ _ _ ?i ?l ?inp ?st ?n ?d] =>
          destruct (IH i inp st n d) as (new' & Hdone & Hsub & Hev)
        end.
        exists ([OGonder i sirket d calls true; OSleep 2] ++ new').
        rewrite Hdone, <- app_assoc. split; [reflexivity|].
        destruct (Hstep new' [OSleep 2] Hsub Hev eq_refl) as [H1 H2].
        split; [exact H1|]. intros j s d' c ok Hin.
        apply (H2 j s d' c ok Hin); [auto|].
        constructor; [eauto|constructor].
      * match goal with |- context [toplu_loop _ _ _ _ ?i ?l ?inp ?st ?n ?d] =>
          destruct (IH i inp st n d) as (new' & Hdone & Hsub & Hev)
        end.
        exists ([OGonder i sirket d calls false] ++ new').
        rewrite Hdone, <- app_assoc. split; [reflexivity|].
        destruct (Hstep new' [] Hsub Hev eq_refl) as [H1 H2].
        split; [exact H1|]. intros j s d' c ok Hin.
        apply (H2 j s d' c ok Hin); [auto|constructor].
    + match goal with |- context [toplu_loop _ _ _ _ ?i ?l ?inp ?st ?n ?d] =>
        destruct (IH i inp st n d) as (new' & Hdone & Hsub & Hev)
      end.
      exists new'. split; [exact Hdone|]. split.
      * simpl. apply sublist_cons, Hsub.
      * intros j s d' c ok Hin.
        destruct (Hev _ _ _ _ _ Hin) as (Hle & Hl & Hc).
        split; [lia|]. split; [|exact Hc].
        replace (j - i) with (S (j - S i)) by lia. exact Hl.
    + exists []. simpl. rewrite app_nil_r. split; [reflexivity|].
      split; [apply sublist_nil_l|]. intros j s d' c ok H.
      apply elem_of_nil in H. contradiction.
Qed.

Lemma smtp_ayarlarini_al_cv (inputs rest : list (list N)) (self : otomasyon) :
  smtp_ayarlarini_al int_of cv_path inputs = Some (self, rest) →
  cv_dosya_yolu self = cv_path.
Proof.
  unfold smtp_ayarlarini_al.
  destruct inputs as [|server [|port_input [|email [|sifre rest']]]];
    try discriminate;
    destruct (if bool_decide (strip port_input = []) then _ else _);
    try discriminate.
  intros H. inversion H. reflexivity.
Qed.

(** X17.  In a run of [calistir], [eposta_gonder] is called at most once
    for each company that [csv_dosyasini_oku] returned, in their order, and
    for nothing else: only when the CV file was there at the start, and
    only for companies with an e-mail that is neither empty nor a
    placeholder and with a status that does not say sent.  Every message
    handed to the relay in the run goes to the address of its company and
    carries a file under the name of the CV path. *)
Theorem calistir_sends_sendable (inputs : list (list N)) (store : csv_store) :
  let done :=
    (calistir lower int_of cv_path cv_at_start turkce_eposta_olustur
              ingilizce_eposta_olustur world inputs store).2 in
  gonderim_turlari done
    `sublist_of` seq 0 (match csv_dosyasini_oku lower store with
                        | Ok sirketler => length sirketler
                        | Raise _ => 0
                        end)
  ∧ ∀ j sirket d calls sent,
      OGonder j sirket d calls sent ∈ done →
      cv_at_start = true
      ∧ (∃ sirketler, csv_dosyasini_oku lower store = Ok sirketler
                      ∧ sirketler !! j = Some sirket)
      ∧ sendable lower sirket
      ∧ ∀ msg b, (CSendMessage msg, b) ∈ calls →
          msg_to msg = mail sirket
          ∧ ∃ content, msg_cv msg = Some (cv_path, content).
Proof.
  intros done. subst done. unfold calistir.
  assert (Hnone : ∀ k,
            gonderim_turlari [] `sublist_of` seq 0 k
            ∧ ∀ j sirket d calls sent,
                OGonder j sirket d calls sent ∈ [] →
                cv_at_start = true
                ∧ (∃ sirketler, csv_dosyasini_oku lower store = Ok sirketler
                                ∧ sirketler !! j = Some sirket)
                ∧ sendable lower sirket
                ∧ ∀ msg b, (CSendMessage msg, b) ∈ calls →
                    msg_to msg = mail sirket
                    ∧ ∃ content, msg_cv msg = Some (cv_path, content)).
  { intros k. split; [apply sublist_nil_l|]. intros j s d c ok H.
    apply elem_of_nil in H. contradiction. }
  destruct cv_at_start; simpl; [|apply Hnone].
  destruct (smtp_ayarlarini_al int_of cv_path inputs) as [[self inputs']|] eqn:Hs;
    [|apply Hnone].
  apply smtp_ayarlarini_al_cv in Hs.
  pose proof (csv_dosyasini_oku_sendable lower store) as Hsend.
  destruct (csv_dosyasini_oku lower store) as [sirketler|e]; [|apply Hnone].
  destruct (bool_decide (sirketler = [])); [apply Hnone|].
  unfold toplu_gonderim_yap.
  destruct (toplu_loop_events self sirketler 0 inputs' store
              {| basarili_gonderim := 0; basarisiz_gonderim := 0;
                 atlanan_gonderim := 0 |} [])
    as (new & Hdone & Hsub & Hev).
  destruct (toplu_loop _ _ _ _ 0 sirketler inputs' store _ [])
    as [[[n|] store'] done]; simpl in *; subst done.
  all: split; [exact Hsub|].
  all: intros j sirket d calls sent Hin.
  all: destruct (Hev _ _ _ _ _ Hin) as (_ & Hl & Hc).
  all: rewrite Nat.sub_0_r in Hl.
  all: split; [reflexivity|]; split; [eauto|]; split.
  all: try (rewrite Forall_forall in Hsend;
            eapply Hsend, list_elem_of_lookup_2, Hl).
  all: intros msg b Hm; rewrite Hc in Hm;
    apply eposta_gonder_message in Hm; rewrite Hs in Hm; exact Hm.
Qed.

End StaticRun.

(** A run of the script on the companies file of the examples: the four
    settings and two choices are typed, the first company gets the Turkish
    mail and the second is passed over. *)
Example calistir_companies_file :
  ∃ store done,
    Static.calistir lower_latin (fun _ => None) (u "cv.pdf") true
      Examples.sablon Examples.sablon (fun _ => Examples.gonder_ok)
      ([u "smtp.gmail.com"; u ""; u "me@example.org"; u "secret"]
         ++ Examples.secimler)
      Examples.companies_file
    = (Static.Tamamlandi
         {| Static.basarili_gonderim := 1; Static.basarisiz_gonderim := 0;
            Static.atlanan_gonderim := 1 |},
       store, done)
    ∧ Static.gonderim_turlari done = [0]
    ∧ Static.gonderilenler done = [u "Acme"].
Proof. eexists _, _. split; [vm_compute; reflexivity|]. split; reflexivity. Qed.
